(** * OpenAPI utilities (utils.py): validator, analyzer and exporters

    A shallow embedding of [OpenAPIValidator], [OpenAPIAnalyzer] and
    [OpenAPIExporter] from [utils.py], together with
    [extract_endpoints] from [advanced_generator.py].

    The Python code walks the tree produced by [json.load] with
    dynamically typed accessors ([in], [x[k]], [x.get], [x.items()]),
    some of which raise.  The embedding keeps that: documents are values
    of [Json], each accessor is a function into [result], and the
    exceptions a function catches are caught by [try_except] exactly
    where the source has its [try] block. *)

From Stdlib Require Import String Ascii List Bool Arith ZArith Lia.
From Stdlib Require Import Permutation Sorted OrderedTypeEx.
Import ListNotations.
Open Scope string_scope.
Open Scope list_scope.

(* ================================================================== *)
(** * Values *)
(* ================================================================== *)

(** The tree [json.load] returns.  A Python [dict] keeps insertion order,
    so an object is an association list in document order; [wf_json]
    below says that its keys are pairwise distinct.  Strings are UTF-8
    byte sequences.  Numbers are the integers; no function modelled here
    computes with them. *)
#[warnings="-register-all"]
Inductive Json : Type :=
| JNull : Json
| JBool : bool -> Json
| JNum : Z -> Json
| JStr : string -> Json
| JArr : list Json -> Json
| JObj : list (string * Json) -> Json.

Inductive exn : Type := KeyError | TypeError | AttributeError | IndexError.

Inductive result (A : Type) : Type :=
| Ok : A -> result A
| Raise : exn -> result A.
Arguments Ok {A} _.
Arguments Raise {A} _.

Definition bind {A B : Type} (r : result A) (k : A -> result B) : result B :=
  match r with
  | Ok a => k a
  | Raise e => Raise e
  end.

Declare Scope py_scope.
Delimit Scope py_scope with py.
Notation "x <- c ;; k" := (bind c (fun x => k))
  (at level 61, c at next level, right associativity) : py_scope.
Open Scope py_scope.

Definition exn_eqb (a b : exn) : bool :=
  match a, b with
  | KeyError, KeyError | TypeError, TypeError
  | AttributeError, AttributeError | IndexError, IndexError => true
  | _, _ => false
  end.

(** [try: body  except (e1, e2, ...): handler]. *)
Definition try_except {A : Type} (body : result A) (caught : list exn)
    (handler : result A) : result A :=
  match body with
  | Ok a => Ok a
  | Raise e => if existsb (exn_eqb e) caught then handler else Raise e
  end.

(** [for x in l: s = body x s], stopping at the first exception. *)
Fixpoint for_each {A S : Type} (l : list A) (body : A -> S -> result S)
    (s : S) : result S :=
  match l with
  | [] => Ok s
  | x :: l' => s' <- body x s ;; for_each l' body s'
  end.

(* ================================================================== *)
(** * Strings *)
(* ================================================================== *)

(** [a < b] on [str] compares code points lexicographically, which on
    UTF-8 is the lexicographic order on bytes: [String.ltb]. *)

(** [needle in hay] for two strings. *)
Fixpoint is_substring (needle hay : string) : bool :=
  if String.prefix needle hay then true
  else match hay with
       | EmptyString => false
       | String _ hay' => is_substring needle hay'
       end.

(** [s.split(sep)] for a one-byte separator. *)
Fixpoint str_split (sep : ascii) (s : string) : list string :=
  match s with
  | EmptyString => [EmptyString]
  | String c s' =>
      if Ascii.eqb c sep then EmptyString :: str_split sep s'
      else match str_split sep s' with
           | [] => [String c EmptyString]
           | w :: ws => String c w :: ws
           end
  end.

(** [sep.join(l)]. *)
Fixpoint str_join (sep : string) (l : list string) : string :=
  match l with
  | [] => EmptyString
  | [x] => x
  | x :: l' => (x ++ sep ++ str_join sep l')%string
  end.

(** [s[n:]], on bytes; only used behind a [startswith] of ASCII text. *)
Fixpoint drop_bytes (n : nat) (s : string) : string :=
  match n, s with
  | O, _ => s
  | S _, EmptyString => EmptyString
  | S n', String _ s' => drop_bytes n' s'
  end.

(** A UTF-8 continuation byte is [10xxxxxx]. *)
Definition is_cont (c : ascii) : bool :=
  let n := nat_of_ascii c in (128 <=? n)%nat && (n <? 192)%nat.

Fixpoint chars_aux (s : string) : string * list string :=
  match s with
  | EmptyString => (EmptyString, [])
  | String c s' =>
      let '(k, l) := chars_aux s' in
      if is_cont c then (String c k, l) else (EmptyString, String c k :: l)
  end.

(** The characters of a [str], as iterating over it yields them. *)
Definition chars (s : string) : list string :=
  let '(k, l) := chars_aux s in
  match k with EmptyString => l | _ => k :: l end.

Definition upper_byte (c : ascii) : ascii :=
  let n := nat_of_ascii c in
  if (97 <=? n)%nat && (n <=? 122)%nat then ascii_of_nat (n - 32) else c.

(** [s.upper()] on ASCII text; it is applied to the method literals only. *)
Fixpoint upper (s : string) : string :=
  match s with
  | EmptyString => EmptyString
  | String c s' => String (upper_byte c) (upper s')
  end.

Definition lower_byte (c : ascii) : ascii :=
  let n := nat_of_ascii c in
  if (65 <=? n)%nat && (n <=? 90)%nat then ascii_of_nat (n + 32) else c.

(** [s.lower()] restricted to ASCII letters.  The analyzer functions take
    the lowering function as a parameter; this is the instance used to
    evaluate them. *)
Fixpoint ascii_lower (s : string) : string :=
  match s with
  | EmptyString => EmptyString
  | String c s' => String (lower_byte c) (ascii_lower s')
  end.

(* ================================================================== *)
(** * Python dictionaries built by the code *)
(* ================================================================== *)

(** Insertion-ordered dictionaries: [d[k] = v] replaces the value in place
    when the key is there and appends the pair otherwise. *)
Section Dict.
Context {K V : Type}.
Variable keq : K -> K -> bool.

Fixpoint dict_get (d : list (K * V)) (k : K) : option V :=
  match d with
  | [] => None
  | (k', v) :: d' => if keq k' k then Some v else dict_get d' k
  end.

Definition dict_get_default (d : list (K * V)) (k : K) (dflt : V) : V :=
  match dict_get d k with Some v => v | None => dflt end.

Fixpoint dict_set (d : list (K * V)) (k : K) (v : V) : list (K * V) :=
  match d with
  | [] => [(k, v)]
  | (k', v') :: d' =>
      if keq k' k then (k', v) :: d' else (k', v') :: dict_set d' k v
  end.

Definition dict_has (d : list (K * V)) (k : K) : bool :=
  match dict_get d k with Some _ => true | None => false end.
End Dict.

Definition values_sum {K : Type} (d : list (K * nat)) : nat :=
  fold_right (fun kv acc => snd kv + acc)%nat 0%nat d.

(* ================================================================== *)
(** * Dynamically typed accessors *)
(* ================================================================== *)

Definition lookup (kvs : list (string * Json)) (k : string) : option Json :=
  dict_get String.eqb kvs k.

(** [k in c] for a string [k]. *)
Definition py_in (k : string) (c : Json) : result bool :=
  match c with
  | JObj kvs => Ok (dict_has String.eqb kvs k)
  | JArr l =>
      Ok (existsb (fun x => match x with JStr s => String.eqb s k | _ => false end) l)
  | JStr s => Ok (is_substring k s)
  | _ => Raise TypeError
  end.

(** [c[k]] for a string [k]. *)
Definition py_getitem (c : Json) (k : string) : result Json :=
  match c with
  | JObj kvs => match lookup kvs k with Some v => Ok v | None => Raise KeyError end
  | _ => Raise TypeError
  end.

(** [c.get(k, dflt)]: only a [dict] has the method. *)
Definition py_get (c : Json) (k : string) (dflt : Json) : result Json :=
  match c with
  | JObj kvs => Ok (match lookup kvs k with Some v => v | None => dflt end)
  | _ => Raise AttributeError
  end.

(** [c.items()]. *)
Definition py_items (c : Json) : result (list (string * Json)) :=
  match c with
  | JObj kvs => Ok kvs
  | _ => Raise AttributeError
  end.

(** [for x in c]. *)
Definition py_iter (c : Json) : result (list Json) :=
  match c with
  | JArr l => Ok l
  | JObj kvs => Ok (map (fun kv => JStr (fst kv)) kvs)
  | JStr s => Ok (map JStr (chars s))
  | _ => Raise TypeError
  end.

(** [len(c)]. *)
Definition py_len (c : Json) : result nat :=
  match c with
  | JArr l => Ok (length l)
  | JObj kvs => Ok (length kvs)
  | JStr s => Ok (length (chars s))
  | _ => Raise TypeError
  end.

(** Truth value of [c] in a condition. *)
Definition py_truthy (c : Json) : bool :=
  match c with
  | JNull => false
  | JBool b => b
  | JNum n => negb (Z.eqb n 0)
  | JStr s => negb (String.eqb s "")
  | JArr l => match l with [] => false | _ => true end
  | JObj kvs => match kvs with [] => false | _ => true end
  end.

(** Only scalars can be dictionary keys. *)
Definition hashable (c : Json) : bool :=
  match c with
  | JArr _ | JObj _ => false
  | _ => true
  end.

Definition num_of_key (c : Json) : option Z :=
  match c with
  | JNum n => Some n
  | JBool true => Some 1%Z
  | JBool false => Some 0%Z
  | _ => None
  end.

(** Equality of dictionary keys: [True == 1] and [False == 0]. *)
Definition key_eqb (a b : Json) : bool :=
  match a, b with
  | JNull, JNull => true
  | JStr s, JStr t => String.eqb s t
  | _, _ =>
      match num_of_key a, num_of_key b with
      | Some n, Some m => Z.eqb n m
      | _, _ => false
      end
  end.

(** The keys of every object of the tree are pairwise distinct. *)
Fixpoint nodup_keys (ks : list string) : bool :=
  match ks with
  | [] => true
  | k :: ks' => negb (existsb (String.eqb k) ks') && nodup_keys ks'
  end.

Fixpoint wf_json (j : Json) : bool :=
  match j with
  | JArr l => forallb wf_json l
  | JObj kvs =>
      nodup_keys (map fst kvs) && forallb (fun kv => wf_json (snd kv)) kvs
  | _ => true
  end.

(* ================================================================== *)
(** * OpenAPIValidator *)
(* ================================================================== *)

Definition MSG_VERSION := "Missing 'openapi' or 'swagger' field".
Definition MSG_INFO := "Missing 'info' object".
Definition MSG_INFO_TYPE := "'info' must be an object".
Definition MSG_TITLE := "Missing 'info.title'".
Definition MSG_INFO_VERSION := "Missing 'info.version'".
Definition MSG_PATHS := "Missing 'paths' object".

(** [a not in spec and b not in spec], the second test only when the
    first holds. *)
Definition neither_in (a b : string) (spec : Json) : result bool :=
  has_a <- py_in a spec ;;
  if has_a then Ok false
  else has_b <- py_in b spec ;; Ok (negb has_b).

(** The [if "info" not in spec ... elif ... else ...] statement. *)
Definition check_info (spec : Json) (errors : list string) : result (list string) :=
  has_info <- py_in "info" spec ;;
  if negb has_info then Ok (errors ++ [MSG_INFO])
  else
    info <- py_getitem spec "info" ;;
    match info with
    | JObj _ =>
        has_title <- py_in "title" info ;;
        let errors := if has_title then errors else errors ++ [MSG_TITLE] in
        has_version <- py_in "version" info ;;
        Ok (if has_version then errors else errors ++ [MSG_INFO_VERSION])
    | _ => Ok (errors ++ [MSG_INFO_TYPE])
    end.

Definition is_valid_openapi (spec : Json) : result (bool * list string) :=
  let errors := [] in
  no_version <- neither_in "openapi" "swagger" spec ;;
  let errors := if no_version then errors ++ [MSG_VERSION] else errors in
  errors <- check_info spec errors ;;
  has_paths <- py_in "paths" spec ;;
  let errors := if has_paths then errors else errors ++ [MSG_PATHS] in
  Ok (Nat.eqb (length errors) 0, errors).

(* ================================================================== *)
(** * OpenAPIAnalyzer *)
(* ================================================================== *)

Definition METHODS : list string :=
  ["get"; "post"; "put"; "delete"; "patch"; "head"; "options"].

(** ** get_statistics *)

Record Statistics : Type := {
  stat_title : Json;
  stat_version : Json;
  stat_total_endpoints : nat;
  stat_methods : list (string * nat);
  stat_tags : list (Json * nat);
  stat_schemas : nat;
  stat_security_schemes : nat
}.

(** The three locals the loops of [get_statistics] update. *)
Record Counters : Type := {
  endpoints_count : nat;
  methods_count : list (string * nat);
  tags_count : list (Json * nat)
}.

(** [tags_count[tag] = tags_count.get(tag, 0) + 1]. *)
Definition count_tag (tag : Json) (tc : list (Json * nat)) : result (list (Json * nat)) :=
  if hashable tag
  then Ok (dict_set key_eqb tc tag (dict_get_default key_eqb tc tag 0 + 1)%nat)
  else Raise TypeError.

Definition stats_method (path_item : Json) (method : string) (c : Counters)
    : result Counters :=
  present <- py_in method path_item ;;
  if present then
    let n := (endpoints_count c + 1)%nat in
    let mc := dict_set String.eqb (methods_count c) method
                (dict_get_default String.eqb (methods_count c) method 0 + 1)%nat in
    operation <- py_getitem path_item method ;;
    tags <- py_get operation "tags" (JArr [JStr "untagged"]) ;;
    tag_list <- py_iter tags ;;
    tc <- for_each tag_list count_tag (tags_count c) ;;
    Ok {| endpoints_count := n; methods_count := mc; tags_count := tc |}
  else Ok c.

Definition stats_path (item : string * Json) (c : Counters) : result Counters :=
  for_each METHODS (stats_method (snd item)) c.

Definition get_statistics (spec : Json) : result Statistics :=
  paths <- py_get spec "paths" (JObj []) ;;
  items <- py_items paths ;;
  c <- for_each items stats_path
         {| endpoints_count := 0; methods_count := []; tags_count := [] |} ;;
  components <- py_get spec "components" (JObj []) ;;
  info <- py_get spec "info" (JObj []) ;;
  title <- py_get info "title" (JStr "Unknown") ;;
  info' <- py_get spec "info" (JObj []) ;;
  version <- py_get info' "version" (JStr "Unknown") ;;
  schemas <- py_get components "schemas" (JObj []) ;;
  n_schemas <- py_len schemas ;;
  schemes <- py_get components "securitySchemes" (JObj []) ;;
  n_schemes <- py_len schemes ;;
  Ok {| stat_title := title;
        stat_version := version;
        stat_total_endpoints := endpoints_count c;
        stat_methods := methods_count c;
        stat_tags := tags_count c;
        stat_schemas := n_schemas;
        stat_security_schemes := n_schemes |}.

(** ** list_all_endpoints *)

Record Endpoint : Type := {
  ep_method : string;
  ep_path : string;
  ep_summary : Json;
  ep_tags : Json;
  ep_deprecated : Json
}.

Definition list_method (path : string) (path_item : Json) (method : string)
    (endpoints : list Endpoint) : result (list Endpoint) :=
  present <- py_in method path_item ;;
  if present then
    operation <- py_getitem path_item method ;;
    summary <- py_get operation "summary" (JStr "") ;;
    tags <- py_get operation "tags" (JArr []) ;;
    deprecated <- py_get operation "deprecated" (JBool false) ;;
    Ok (endpoints ++ [{| ep_method := upper method; ep_path := path;
                         ep_summary := summary; ep_tags := tags;
                         ep_deprecated := deprecated |}])
  else Ok endpoints.

Definition list_path (item : string * Json) (endpoints : list Endpoint)
    : result (list Endpoint) :=
  for_each METHODS (list_method (fst item) (snd item)) endpoints.

(** The sort key [(x["path"], x["method"])] and [<] on such tuples. *)
Definition sort_key (e : Endpoint) : string * string := (ep_path e, ep_method e).

Definition key_ltb (a b : string * string) : bool :=
  if String.ltb (fst a) (fst b) then true
  else if String.eqb (fst a) (fst b) then String.ltb (snd a) (snd b) else false.

(** [sorted(l, key=...)] is stable; so is this insertion sort, which puts
    an element before the first one that is not smaller than it. *)
Fixpoint insert_sorted (e : Endpoint) (l : list Endpoint) : list Endpoint :=
  match l with
  | [] => [e]
  | x :: l' =>
      if key_ltb (sort_key x) (sort_key e) then x :: insert_sorted e l'
      else e :: l
  end.

Definition sorted (l : list Endpoint) : list Endpoint :=
  fold_right insert_sorted [] l.

Definition collect_endpoints (spec : Json) : result (list Endpoint) :=
  paths <- py_get spec "paths" (JObj []) ;;
  items <- py_items paths ;;
  for_each items list_path [].

Definition list_all_endpoints (spec : Json) : result (list Endpoint) :=
  endpoints <- collect_endpoints spec ;;
  Ok (sorted endpoints).

(** ** find_endpoints_by_tag *)

Record TagEndpoint : Type := {
  te_method : string;
  te_path : string;
  te_summary : Json;
  te_description : Json
}.

Definition find_method (tag : string) (path : string) (path_item : Json)
    (method : string) (endpoints : list TagEndpoint) : result (list TagEndpoint) :=
  present <- py_in method path_item ;;
  if present then
    operation <- py_getitem path_item method ;;
    tags <- py_get operation "tags" (JArr []) ;;
    tagged <- py_in tag tags ;;
    if tagged then
      summary <- py_get operation "summary" (JStr "") ;;
      description <- py_get operation "description" (JStr "") ;;
      Ok (endpoints ++ [{| te_method := upper method; te_path := path;
                           te_summary := summary;
                           te_description := description |}])
    else Ok endpoints
  else Ok endpoints.

Definition find_path (tag : string) (item : string * Json)
    (endpoints : list TagEndpoint) : result (list TagEndpoint) :=
  for_each METHODS (find_method tag (fst item) (snd item)) endpoints.

Definition find_endpoints_by_tag (spec : Json) (tag : string)
    : result (list TagEndpoint) :=
  paths <- py_get spec "paths" (JObj []) ;;
  items <- py_items paths ;;
  for_each items (find_path tag) [].

(** ** Point queries: request body and response schemas

    [str.lower] is Python's; the two functions take it as [lower], so
    nothing below depends on how non-ASCII letters are lowered.  A
    function that returns [None] returns [JNull]: the two are the same
    Python value. *)
Section PointQueries.
Variable lower : string -> string.

(** [self.spec["paths"][path][method]]. *)
Definition operation_at (spec : Json) (path method : string) : result Json :=
  paths <- py_getitem spec "paths" ;;
  path_item <- py_getitem paths path ;;
  py_getitem path_item method.

(** The [for ... in content.items()] loop of [get_request_body_schema],
    which returns from inside; falling out of it returns [None]. *)
Fixpoint first_schema (items : list (string * Json)) : result Json :=
  match items with
  | [] => Ok JNull
  | (_, content_data) :: rest =>
      has <- py_in "schema" content_data ;;
      if has then py_getitem content_data "schema"
      else first_schema rest
  end.

Definition get_request_body_schema (spec : Json) (path method : string)
    : result Json :=
  let method := lower method in
  try_except
    (operation <- operation_at spec path method ;;
     request_body <- py_get operation "requestBody" (JObj []) ;;
     content <- py_get request_body "content" (JObj []) ;;
     items <- py_items content ;;
     first_schema items)
    [KeyError; TypeError]
    (Ok JNull).

(** The inner loop of [get_response_schemas] for one [status]. *)
Definition response_content (status : string) (entry : string * Json)
    (schemas : list (string * Json)) : result (list (string * Json)) :=
  let content_data := snd entry in
  has <- py_in "schema" content_data ;;
  if has then
    schema <- py_getitem content_data "schema" ;;
    Ok (dict_set String.eqb schemas status schema)
  else Ok schemas.

Definition response_status (entry : string * Json)
    (schemas : list (string * Json)) : result (list (string * Json)) :=
  let '(status, response) := entry in
  content <- py_get response "content" (JObj []) ;;
  items <- py_items content ;;
  for_each items (response_content status) schemas.

Definition get_response_schemas (spec : Json) (path method : string)
    : result (list (string * Json)) :=
  let method := lower method in
  let schemas := [] in
  try_except
    (operation <- operation_at spec path method ;;
     responses <- py_get operation "responses" (JObj []) ;;
     items <- py_items responses ;;
     for_each items response_status schemas)
    [KeyError; TypeError]
    (Ok []).
End PointQueries.

(** ** resolve_schema_reference

    The parameter is annotated [str]; any other value has no
    [startswith]. *)
Definition descend (part : string) (obj : Json) : result Json :=
  py_getitem obj part.

Definition resolve_schema_reference (spec : Json) (ref : Json) : result Json :=
  match ref with
  | JStr r =>
      if negb (String.prefix "#/" r) then Ok JNull
      else
        let parts := str_split "/" (drop_bytes 2 r) in
        let obj := spec in
        try_except (for_each parts descend obj) [KeyError; TypeError] (Ok JNull)
  | _ => Raise AttributeError
  end.

(* ================================================================== *)
(** * extract_endpoints (advanced_generator.py) *)
(* ================================================================== *)

Record Extracted : Type := {
  ex_path : string;
  ex_method : string;
  ex_operation : Json;
  ex_tags : Json
}.

(** [f"{method.upper()} {path}"]. *)
Definition endpoint_key (method path : string) : string :=
  (upper method ++ " " ++ path)%string.

Definition extract_method (path : string) (path_item : Json) (method : string)
    (endpoints : list (string * Extracted)) : result (list (string * Extracted)) :=
  present <- py_in method path_item ;;
  if present then
    operation <- py_getitem path_item method ;;
    let key := endpoint_key method path in
    tags <- py_get operation "tags" (JArr [JStr "Other"]) ;;
    Ok (dict_set String.eqb endpoints key
          {| ex_path := path; ex_method := upper method;
             ex_operation := operation; ex_tags := tags |})
  else Ok endpoints.

Definition extract_path (item : string * Json)
    (endpoints : list (string * Extracted)) : result (list (string * Extracted)) :=
  for_each METHODS (extract_method (fst item) (snd item)) endpoints.

Definition extract_endpoints (spec : Json) : result (list (string * Extracted)) :=
  paths <- py_get spec "paths" (JObj []) ;;
  items <- py_items paths ;;
  for_each items extract_path [].

(* ================================================================== *)
(** * OpenAPIExporter *)
(* ================================================================== *)

(** ** export_endpoints_csv

    The file is modelled by the rows handed to [csv.DictWriter], header
    first; a row lists its cells in the order of [fieldnames].  Quoting
    and line ends are the [csv] module's. *)
Definition FIELDNAMES : list string :=
  ["Method"; "Path"; "Summary"; "Tags"; "Deprecated"].

Definition Row : Type := list Json.

Definition header_row : Row := map JStr FIELDNAMES.

(** [sep.join(v)]: every item of [v] has to be a [str]. *)
Definition join_item (x : Json) (acc : list string) : result (list string) :=
  match x with
  | JStr s => Ok (acc ++ [s])
  | _ => Raise TypeError
  end.

Definition py_join (sep : string) (v : Json) : result string :=
  items <- py_iter v ;;
  strs <- for_each items join_item [] ;;
  Ok (str_join sep strs).

Definition csv_row (ep : Endpoint) (tags : string) : Row :=
  [JStr (ep_method ep); JStr (ep_path ep); ep_summary ep; JStr tags;
   ep_deprecated ep].

(** The [for ep in endpoints] loop: the rows written so far stay in the
    file when a later row raises. *)
Fixpoint write_rows (endpoints : list Endpoint) (written : list Row)
    : list Row * result unit :=
  match endpoints with
  | [] => (written, Ok tt)
  | ep :: rest =>
      match py_join ", " (ep_tags ep) with
      | Ok tags => write_rows rest (written ++ [csv_row ep tags])
      | Raise e => (written, Raise e)
      end
  end.

(** Returns the rows of the output file ([None] when the file was never
    opened) and how the call ended. *)
Definition export_endpoints_csv (spec : Json) : option (list Row) * result unit :=
  match list_all_endpoints spec with
  | Raise e => (None, Raise e)
  | Ok endpoints =>
      let '(rows, r) := write_rows endpoints [header_row] in (Some rows, r)
  end.

(** ** generate_postman_collection *)

Record QueryParam : Type := {
  q_key : Json;
  q_value : string;
  q_disabled : bool
}.

Record PostmanItem : Type := {
  pi_name : Json;
  pi_method : string;
  pi_raw : string;
  pi_host : list string;
  pi_path : list string;
  pi_query : option (list QueryParam)
}.

Record Collection : Type := {
  col_name : Json;
  col_description : Json;
  col_version : Json;
  col_item : list PostmanItem;
  col_variable : list (string * Json)
}.

Definition POSTMAN_METHODS : list string :=
  ["get"; "post"; "put"; "delete"; "patch"].

(** [c[0]]. *)
Definition py_first (c : Json) : result Json :=
  match c with
  | JArr (x :: _) => Ok x
  | JArr [] => Raise IndexError
  | JStr s => match chars s with x :: _ => Ok (JStr x) | [] => Raise IndexError end
  | JObj _ => Raise KeyError
  | _ => Raise TypeError
  end.

(** One step of the list comprehension over [operation["parameters"]]. *)
Definition query_param (p : Json) (acc : list QueryParam) : result (list QueryParam) :=
  loc <- py_get p "in" JNull ;;
  match loc with
  | JStr "query" =>
      name <- py_getitem p "name" ;;
      required <- py_get p "required" (JBool false) ;;
      Ok (acc ++ [{| q_key := name; q_value := "";
                     q_disabled := negb (py_truthy required) |}])
  | _ => Ok acc
  end.

Definition postman_method (path : string) (path_item : Json) (method : string)
    (items : list PostmanItem) : result (list PostmanItem) :=
  present <- py_in method path_item ;;
  if present then
    operation <- py_getitem path_item method ;;
    name <- py_get operation "summary" (JStr (upper method ++ " " ++ path)%string) ;;
    parameters <- py_get operation "parameters" JNull ;;
    query <- (if py_truthy parameters then
                parameters' <- py_getitem operation "parameters" ;;
                ps <- py_iter parameters' ;;
                q <- for_each ps query_param [] ;;
                Ok (Some q)
              else Ok None) ;;
    Ok (items ++ [{| pi_name := name;
                     pi_method := upper method;
                     pi_raw := ("{{base_url}}" ++ path)%string;
                     pi_host := ["{{base_url}}"];
                     pi_path := tl (str_split "/" path);
                     pi_query := query |}])
  else Ok items.

Definition postman_path (item : string * Json) (items : list PostmanItem)
    : result (list PostmanItem) :=
  for_each POSTMAN_METHODS (postman_method (fst item) (snd item)) items.

(** The collection handed to [json.dump]; an exception before that leaves
    no file. *)
Definition generate_postman_collection (spec : Json) : result Collection :=
  info <- py_get spec "info" (JObj []) ;;
  servers <- py_get spec "servers" (JArr []) ;;
  base_url <- (if py_truthy servers then
                 first <- py_first servers ;; py_getitem first "url"
               else Ok (JStr "")) ;;
  name <- py_get info "title" (JStr "API") ;;
  description <- py_get info "description" (JStr "") ;;
  version <- py_get info "version" (JStr "1.0.0") ;;
  let variable := if py_truthy base_url then [("base_url", base_url)] else [] in
  paths <- py_get spec "paths" (JObj []) ;;
  path_items <- py_items paths ;;
  item <- for_each path_items postman_path [] ;;
  Ok {| col_name := name; col_description := description;
        col_version := version; col_item := item;
        col_variable := variable |}.

(* ================================================================== *)
(** * Documents of the expected shape *)
(* ================================================================== *)

(** The shape the analyzer expects of a document: a mapping whose [paths]
    (when present) maps each path to a mapping whose entries under the
    seven methods are mappings, with [tags] (when present) a list of
    scalars; [info] and [components] (when present) are mappings, and
    [schemas] and [securitySchemes] (when present) have a length. *)
Definition tags_shape (kvs : list (string * Json)) : bool :=
  match lookup kvs "tags" with
  | None => true
  | Some (JArr l) => forallb hashable l
  | Some _ => false
  end.

Definition operation_shape (operation : Json) : bool :=
  match operation with
  | JObj kvs => tags_shape kvs
  | _ => false
  end.

Definition path_item_shape (path_item : Json) : bool :=
  match path_item with
  | JObj kvs =>
      forallb (fun m => match lookup kvs m with
                        | None => true
                        | Some operation => operation_shape operation
                        end) METHODS
  | _ => false
  end.

Definition paths_shape (kvs : list (string * Json)) : bool :=
  match lookup kvs "paths" with
  | None => true
  | Some (JObj items) => forallb (fun it => path_item_shape (snd it)) items
  | Some _ => false
  end.

Definition sized (j : Json) : bool :=
  match j with
  | JObj _ | JArr _ | JStr _ => true
  | _ => false
  end.

Definition sized_at (kvs : list (string * Json)) (k : string) : bool :=
  match lookup kvs k with
  | None => true
  | Some j => sized j
  end.

Definition components_shape (kvs : list (string * Json)) : bool :=
  match lookup kvs "components" with
  | None => true
  | Some (JObj c) => sized_at c "schemas" && sized_at c "securitySchemes"
  | Some _ => false
  end.

Definition info_shape (kvs : list (string * Json)) : bool :=
  match lookup kvs "info" with
  | None | Some (JObj _) => true
  | Some _ => false
  end.

Definition document_shape (spec : Json) : bool :=
  match spec with
  | JObj kvs => paths_shape kvs && info_shape kvs && components_shape kvs
  | _ => false
  end.

(** The document of the end-to-end scenario: one path [/pets] with a
    [get] and a [post], both tagged [pets]. *)
Definition pets_doc : Json :=
  JObj [("openapi", JStr "3.0.0");
        ("info", JObj [("title", JStr "T"); ("version", JStr "1")]);
        ("paths", JObj [("/pets", JObj [
           ("get", JObj [("tags", JArr [JStr "pets"]);
                         ("summary", JStr "List pets")]);
           ("post", JObj [("tags", JArr [JStr "pets"]);
                          ("requestBody", JObj [("content", JObj [
                             ("application/json",
                              JObj [("schema", JObj [("type", JStr "object")])])])])])])])].

(* ================================================================== *)
(** * Loop invariants *)
(* ================================================================== *)

(** What the loops of [get_statistics] and of [list_all_endpoints] keep
    between their states. *)
Definition counted (c : Counters) (endpoints : list Endpoint) : Prop :=
  values_sum (methods_count c) = endpoints_count c /\
  endpoints_count c = length endpoints.

(** What the loops of [find_endpoints_by_tag] and of [list_all_endpoints]
    keep between their results. *)
Definition no_more {A B : Type} (found : list A) (all : list B) : Prop :=
  length found <= length all.

(* ================================================================== *)
(** * The validator's checks, one by one *)
(* ================================================================== *)

Definition has_key (kvs : list (string * Json)) (k : string) : bool :=
  dict_has String.eqb kvs k.

(** The five checks in the order of the specification, each evaluated on
    its own: [openapi] or [swagger] present; [info] present and a mapping;
    [info.title] present; [info.version] present; [paths] present. *)
Definition info_has (kvs : list (string * Json)) (k : string) : bool :=
  match lookup kvs "info" with
  | Some (JObj info) => has_key info k
  | _ => false
  end.

Definition five_checks (kvs : list (string * Json)) : list bool :=
  [ has_key kvs "openapi" || has_key kvs "swagger";
    match lookup kvs "info" with Some (JObj _) => true | _ => false end;
    info_has kvs "title";
    info_has kvs "version";
    has_key kvs "paths" ].

Definition failures (checks : list bool) : nat :=
  length (filter negb checks).

(** The errors [is_valid_openapi] reports on a mapping, block by block. *)
Definition version_errors (kvs : list (string * Json)) : list string :=
  if has_key kvs "openapi" || has_key kvs "swagger" then [] else [MSG_VERSION].

Definition info_errors (kvs : list (string * Json)) : list string :=
  match lookup kvs "info" with
  | None => [MSG_INFO]
  | Some (JObj info) =>
      (if has_key info "title" then [] else [MSG_TITLE]) ++
      (if has_key info "version" then [] else [MSG_INFO_VERSION])
  | Some _ => [MSG_INFO_TYPE]
  end.

Definition paths_errors (kvs : list (string * Json)) : list string :=
  if has_key kvs "paths" then [] else [MSG_PATHS].

Definition expected_errors (kvs : list (string * Json)) : list string :=
  version_errors kvs ++ info_errors kvs ++ paths_errors kvs.

(** [any(word in e.lower() for e in errors)], for messages that are
    already lower case where it matters. *)
Definition mentions (word : string) (errors : list string) : bool :=
  existsb (is_substring word) errors.

(** The three documents of the validation examples. *)
Definition valid_doc : Json :=
  JObj [("openapi", JStr "3.0.0");
        ("info", JObj [("title", JStr "T"); ("version", JStr "1")]);
        ("paths", JObj [])].

Definition no_version_doc : Json :=
  JObj [("info", JObj [("title", JStr "T"); ("version", JStr "1")]);
        ("paths", JObj [])].

Definition no_info_kvs : list (string * Json) :=
  [("openapi", JStr "3.0.0"); ("paths", JObj [])].

Definition no_info_doc : Json := JObj no_info_kvs.

(* ================================================================== *)
(** * Pointers *)
(* ================================================================== *)

(** The object reached from [obj] by descending through mappings along
    [parts]. *)
Fixpoint lookup_path (obj : Json) (parts : list string) : option Json :=
  match parts with
  | [] => Some obj
  | part :: rest =>
      match obj with
      | JObj kvs =>
          match lookup kvs part with
          | Some v => lookup_path v rest
          | None => None
          end
      | _ => None
      end
  end.

Fixpoint no_slash (s : string) : bool :=
  match s with
  | EmptyString => true
  | String c s' => negb (Ascii.eqb c "/") && no_slash s'
  end.

(** The pointer [#/p1/p2/...]. *)
Definition pointer_to (parts : list string) : string :=
  ("#/" ++ str_join "/" parts)%string.

Definition ref_to (parts : list string) : Json :=
  JObj [("$ref", JStr (pointer_to parts))].

(** A failed resolution: an exception, or [None]. *)
Definition resolution_failed (r : result Json) : bool :=
  match r with
  | Ok JNull | Raise _ => true
  | Ok _ => false
  end.

(** Schema [A] refers to [B] and [B] back to [A]. *)
Definition cycle_doc : Json :=
  JObj [("components", JObj [("schemas", JObj [
     ("A", ref_to ["components"; "schemas"; "B"]);
     ("B", ref_to ["components"; "schemas"; "A"])])])].

Definition inline_schema : Json := JObj [("type", JStr "string")].

Definition inline_doc : Json :=
  JObj [("components", JObj [("schemas", JObj [("Pet", inline_schema)])])].

(* ================================================================== *)
(** * Untagged operations *)
(* ================================================================== *)

(** The default bucket of [get_statistics] is in the tag counts. *)
Definition has_untagged (tc : list (Json * nat)) : Prop :=
  exists n, dict_get key_eqb tc (JStr "untagged") = Some n /\ 1 <= n.

(** [endpoints] lists the operation at [path] and [method] with [tags]. *)
Definition listed_with (path method : string) (tags : Json)
    (endpoints : list Endpoint) : Prop :=
  exists ep, In ep endpoints /\ ep_path ep = path /\
             ep_method ep = upper method /\ ep_tags ep = tags.

(** [endpoints] holds the operation at [path] and [method] with [tags]. *)
Definition extracted_with (path method : string) (tags : Json)
    (endpoints : list (string * Extracted)) : Prop :=
  exists e, dict_get String.eqb endpoints (endpoint_key method path) = Some e /\
            ex_path e = path /\ ex_method e = upper method /\ ex_tags e = tags.

(** One operation, [get /a], with no [tags] key. *)
Definition untagged_doc : Json :=
  JObj [("paths", JObj [("/a", JObj [("get", JObj [("summary", JStr "A")])])])].

(** One operation, [get /a], whose [tags] list is declared and empty. *)
Definition empty_tags_doc : Json :=
  JObj [("paths", JObj [("/a", JObj [("get", JObj [("tags", JArr [])])])])].

(* ================================================================== *)
(** * Order of the listing *)
(* ================================================================== *)

(** The lexicographic order on (path, method) pairs, on top of the
    lexicographic order on strings. *)
Definition key_lt (a b : string * string) : Prop :=
  String_as_OT.lt (fst a) (fst b) \/
  (fst a = fst b /\ String_as_OT.lt (snd a) (snd b)).

Definition key_le (a b : string * string) : Prop := a = b \/ key_lt a b.

Definition endpoint_le (a b : Endpoint) : Prop :=
  key_le (sort_key a) (sort_key b).

(* ================================================================== *)
(** * Rows of the CSV export *)
(* ================================================================== *)

(** The tags of the endpoint are a list of strings. *)
Definition string_tagged (ep : Endpoint) : Prop :=
  exists l, ep_tags ep = JArr (map JStr l).

(** [row] is the row of [ep]: method, path, summary, the tags joined by a
    comma and a space, deprecated. *)
Definition row_of (ep : Endpoint) (row : Row) : Prop :=
  exists tags,
    py_join ", " (ep_tags ep) = Ok tags /\
    row = [JStr (ep_method ep); JStr (ep_path ep); ep_summary ep; JStr tags;
           ep_deprecated ep].

(* ================================================================== *)
(** * Schemas by declaration order *)
(* ================================================================== *)

Definition is_mapping (j : Json) : bool :=
  match j with JObj _ => true | _ => false end.

(** The schema a content entry carries, if it is a mapping with one. *)
Definition schema_of (content_data : Json) : option Json :=
  match content_data with
  | JObj cd => lookup cd "schema"
  | _ => None
  end.

Definition carries_schema (entry : string * Json) : bool :=
  match schema_of (snd entry) with Some _ => true | None => false end.

(** The schema of the first entry, in document order, that carries one;
    [None] when no entry does. *)
Definition first_declared_schema (items : list (string * Json)) : Json :=
  match find carries_schema items with
  | Some entry => match schema_of (snd entry) with Some s => s | None => JNull end
  | None => JNull
  end.

(** The schema of the last entry, in document order, that carries one. *)
Fixpoint last_declared_schema (items : list (string * Json)) : option Json :=
  match items with
  | [] => None
  | entry :: rest =>
      match last_declared_schema rest with
      | Some s => Some s
      | None => schema_of (snd entry)
      end
  end.

(** The entries of the [content] mapping of a request body or response. *)
Definition content_items (body : Json) : list (string * Json) :=
  match body with
  | JObj kvs => match lookup kvs "content" with
                | Some (JObj items) => items
                | _ => []
                end
  | _ => []
  end.

(** [content] is absent, or a mapping whose entries are mappings. *)
Definition content_shape (kvs : list (string * Json)) : bool :=
  match lookup kvs "content" with
  | None => true
  | Some (JObj items) => forallb (fun entry => is_mapping (snd entry)) items
  | Some _ => false
  end.

Definition response_shape (entry : string * Json) : bool :=
  match snd entry with
  | JObj kvs => content_shape kvs
  | _ => false
  end.

(** The operation at [path] and [method], as the point queries reach it. *)
Definition operation_of (spec : Json) (path method : string) : option Json :=
  lookup_path spec ["paths"; path; method].

(** A [post /upload] whose body declares three content types, the first
    without a schema, and whose [200] response declares two schemas. *)
Definition upload_body : list (string * Json) :=
  [("content", JObj [
      ("text/plain", JObj [("example", JStr "x")]);
      ("application/json", JObj [("schema", JObj [("type", JStr "object")])]);
      ("application/xml", JObj [("schema", JObj [("type", JStr "string")])])])].

Definition upload_responses : list (string * Json) :=
  [("200", JObj [("content", JObj [
      ("application/json", JObj [("schema", JObj [("type", JStr "object")])]);
      ("application/xml", JObj [("schema", JObj [("type", JStr "string")])])])]);
   ("204", JObj [("description", JStr "empty")])].

Definition upload_operation : list (string * Json) :=
  [("requestBody", JObj upload_body); ("responses", JObj upload_responses)].

Definition upload_doc : Json :=
  JObj [("paths", JObj [("/upload", JObj [("post", JObj upload_operation)])])].

(** What [get_response_schemas] records for one response. *)
Definition record_response (schemas : list (string * Json))
    (entry : string * Json) : list (string * Json) :=
  match last_declared_schema (content_items (snd entry)) with
  | Some s => dict_set String.eqb schemas (fst entry) s
  | None => schemas
  end.

(* ================================================================== *)
(** * A document with a HEAD operation *)
(* ================================================================== *)

Definition head_doc : Json :=
  JObj [("info", JObj [("title", JStr "T"); ("version", JStr "1")]);
        ("servers", JArr [JObj [("url", JStr "https://api.example.com")]]);
        ("paths", JObj [("/a", JObj [
           ("get", JObj [("tags", JArr [JStr "a"])]);
           ("head", JObj [("tags", JArr [JStr "a"])])])])].

(* ================================================================== *)
(** * Keys of the extracted endpoints *)
(* ================================================================== *)

(** Every key of [ex] is the key of a method and a path that the loops of
    [extract_endpoints] have been through: a path of [processed], or the
    current [path] with a method of [done]. *)
Definition keys_from (processed : list string) (path : string)
    (done : list string) (ex : list (string * Extracted)) : Prop :=
  forall k, In k (map fst ex) ->
    exists m p, k = endpoint_key m p /\ In m METHODS /\
                (In p processed \/ (p = path /\ In m done)).

(* ================================================================== *)
(** * OpenAPIAnalyzer: the remaining queries *)
(* ================================================================== *)

(** ** find_endpoints_by_method

    [str.lower] and [str.upper] are Python's and are parameters here. *)
Record MethodEndpoint : Type := {
  me_path : string;
  me_method : string;
  me_summary : Json;
  me_tags : Json
}.

Section ByMethod.
Variable lower : string -> string.
Variable upper_of : string -> string.

Definition by_method_path (method : string) (item : string * Json)
    (endpoints : list MethodEndpoint) : result (list MethodEndpoint) :=
  let '(path, path_item) := item in
  present <- py_in method path_item ;;
  if present then
    operation <- py_getitem path_item method ;;
    summary <- py_get operation "summary" (JStr "") ;;
    tags <- py_get operation "tags" (JArr []) ;;
    Ok (endpoints ++ [{| me_path := path; me_method := upper_of method;
                         me_summary := summary; me_tags := tags |}])
  else Ok endpoints.

Definition find_endpoints_by_method (spec : Json) (method : string)
    : result (list MethodEndpoint) :=
  let method := lower method in
  paths <- py_get spec "paths" (JObj []) ;;
  items <- py_items paths ;;
  for_each items (by_method_path method) [].
End ByMethod.

(** ** get_all_schemas, get_security_schemes *)
Definition get_all_schemas (spec : Json) : result Json :=
  components <- py_get spec "components" (JObj []) ;;
  py_get components "schemas" (JObj []).

Definition get_security_schemes (spec : Json) : result Json :=
  components <- py_get spec "components" (JObj []) ;;
  py_get components "securitySchemes" (JObj []).

(* ================================================================== *)
(** * advanced_generator.py: security and file names *)
(* ================================================================== *)

(** [c.keys()]. *)
Definition py_keys (c : Json) : result (list string) :=
  match c with
  | JObj kvs => Ok (map fst kvs)
  | _ => Raise AttributeError
  end.

(** [schemes.extend(sec.keys())]. *)
Definition extend_schemes (sec : Json) (schemes : list string)
    : result (list string) :=
  ks <- py_keys sec ;; Ok (schemes ++ ks).

Definition NO_AUTH_REQUIRED := "No authentication required".
Definition NO_AUTH := "No authentication".

Definition get_security_info (operation spec : Json) : result string :=
  global <- py_get spec "security" (JArr []) ;;
  security <- py_get operation "security" global ;;
  if negb (py_truthy security) then Ok NO_AUTH_REQUIRED
  else
    requirements <- py_iter security ;;
    schemes <- for_each requirements extend_schemes [] ;;
    Ok (match schemes with
        | [] => NO_AUTH
        | _ => str_join ", " schemes
        end).

(** [s.replace(a, b)] for one-byte [a] and [b]. *)
Fixpoint replace_byte (a b : ascii) (s : string) : string :=
  match s with
  | EmptyString => EmptyString
  | String c s' => String (if Ascii.eqb c a then b else c) (replace_byte a b s')
  end.

(** The class [a-z0-9_] of the regular expression. *)
Definition safe_byte (c : ascii) : bool :=
  let n := nat_of_ascii c in
  ((97 <=? n) && (n <=? 122) || (48 <=? n) && (n <=? 57) || (n =? 95))%nat.

(** [re.sub(r'[^a-z0-9_]', '', s)]: every byte of a character outside
    ASCII is outside the class. *)
Fixpoint keep_safe (s : string) : string :=
  match s with
  | EmptyString => EmptyString
  | String c s' => if safe_byte c then String c (keep_safe s') else keep_safe s'
  end.

(** [s[:n]] on text that is ASCII. *)
Fixpoint take_bytes (n : nat) (s : string) : string :=
  match n, s with
  | O, _ => EmptyString
  | S _, EmptyString => EmptyString
  | S n', String c s' => String c (take_bytes n' s')
  end.

Fixpoint all_bytes (p : ascii -> bool) (s : string) : bool :=
  match s with
  | EmptyString => true
  | String c s' => p c && all_bytes p s'
  end.

Section FileNames.
Variable lower : string -> string.

Definition underscored (text : string) : string :=
  replace_byte "-" "_" (replace_byte "/" "_" (replace_byte " " "_" (lower text))).

Definition sanitize_filename (text : string) : string :=
  let text := underscored text in
  let text := keep_safe text in
  take_bytes 100 text.
End FileNames.

(* ================================================================== *)
(** * main.py: extraction and grouping *)
(* ================================================================== *)

Record Grouped : Type := {
  g_key : string;
  g_path : string;
  g_method : string;
  g_operation : Json
}.

Module Main.

Definition DEFAULT_TAG := "Другое".

(** The body of [for method, operation in path_item.items()]. *)
Definition extract_entry (path : string) (entry : string * Json)
    (endpoints : list (string * Extracted)) : result (list (string * Extracted)) :=
  let '(method, operation) := entry in
  if existsb (String.eqb method) METHODS then
    let key := endpoint_key method path in
    tags <- py_get operation "tags" (JArr [JStr DEFAULT_TAG]) ;;
    Ok (dict_set String.eqb endpoints key
          {| ex_path := path; ex_method := upper method;
             ex_operation := operation; ex_tags := tags |})
  else Ok endpoints.

(** A path item that is not a [dict] is passed over. *)
Definition extract_path (item : string * Json)
    (endpoints : list (string * Extracted)) : result (list (string * Extracted)) :=
  let '(path, path_item) := item in
  match path_item with
  | JObj entries => for_each entries (extract_entry path) endpoints
  | _ => Ok endpoints
  end.

Definition extract_endpoints (spec : Json) : result (list (string * Extracted)) :=
  paths <- py_get spec "paths" (JObj []) ;;
  items <- py_items paths ;;
  for_each items extract_path [].

(** [grouped[tag].append(...)] on a [defaultdict(list)]. *)
Definition group_tag (key : string) (endpoint : Extracted) (tag : Json)
    (grouped : list (Json * list Grouped)) : result (list (Json * list Grouped)) :=
  if hashable tag then
    Ok (dict_set key_eqb grouped tag
          (dict_get_default key_eqb grouped tag [] ++
           [{| g_key := key; g_path := ex_path endpoint;
               g_method := ex_method endpoint;
               g_operation := ex_operation endpoint |}]))
  else Raise TypeError.

(** The endpoints are those of [extract_endpoints]: each has its [tags]. *)
Definition group_endpoint (entry : string * Extracted)
    (grouped : list (Json * list Grouped)) : result (list (Json * list Grouped)) :=
  let '(key, endpoint) := entry in
  tags <- py_iter (ex_tags endpoint) ;;
  for_each tags (group_tag key endpoint) grouped.

Definition group_by_tags (endpoints : list (string * Extracted))
    : result (list (Json * list Grouped)) :=
  for_each endpoints group_endpoint [].

(** [sanitize_filename] of [main.py] does not cut the name. *)
Definition sanitize_filename (lower : string -> string) (text : string) : string :=
  keep_safe (underscored lower text).

End Main.

(* ================================================================== *)
(** * Comparing the queries with the listing *)
(* ================================================================== *)

(** An endpoint of the listing has the method [m] (lower case). *)
Definition has_method (m : string) (e : Endpoint) : bool :=
  String.eqb (ep_method e) (upper m).

Definition listed_fields (e : Endpoint) : string * Json * Json :=
  (ep_path e, ep_summary e, ep_tags e).

Definition found_fields (e : MethodEndpoint) : string * Json * Json :=
  (me_path e, me_summary e, me_tags e).

(** The endpoints found by method are the listed ones with that method. *)
Definition found_of (m : string) (endpoints : list Endpoint)
    (found : list MethodEndpoint) : Prop :=
  map found_fields found = map listed_fields (filter (has_method m) endpoints).

(** The per-method counts are those of the endpoints listed so far. *)
Definition methods_counted (c : Counters) (endpoints : list Endpoint) : Prop :=
  forall m, In m METHODS ->
    dict_get_default String.eqb (methods_count c) m 0 =
    length (filter (has_method m) endpoints).

(* ================================================================== *)
(** * Comparing the collection with the listing *)
(* ================================================================== *)

(** The methods of the collection, in upper case. *)
Definition POSTMAN_UPPER : list string := map upper POSTMAN_METHODS.

Definition postman_exported (e : Endpoint) : bool :=
  existsb (String.eqb (ep_method e)) POSTMAN_UPPER.

Definition item_request (it : PostmanItem) : string * string :=
  (pi_method it, pi_raw it).

Definition endpoint_request (e : Endpoint) : string * string :=
  (ep_method e, ("{{base_url}}" ++ ep_path e)%string).

(** The items are the requests of the listed endpoints that have one of
    the five methods. *)
Definition requests_of (items : list PostmanItem) (endpoints : list Endpoint)
    : Prop :=
  map item_request items =
  map endpoint_request (filter postman_exported endpoints).

(** The url of an item: its host is the variable, and when its raw form
    is the variable followed by [/rest], its path segments joined by [/]
    are [rest]. *)
Definition url_consistent (it : PostmanItem) : Prop :=
  pi_host it = ["{{base_url}}"] /\
  (exists path, pi_raw it = ("{{base_url}}" ++ path)%string /\
                pi_path it = tl (str_split "/" path)) /\
  forall rest, pi_raw it = ("{{base_url}}/" ++ rest)%string ->
               str_join "/" (pi_path it) = rest.

(* ================================================================== *)
(** * What extraction holds *)
(* ================================================================== *)

(** The operation a path item declares under a method. *)
Definition operation_in (path_item : Json) (method : string) : option Json :=
  match path_item with
  | JObj pkvs => lookup pkvs method
  | _ => None
  end.

(** The operation a list of path items declares at a path and method. *)
Definition operation_among (items : list (string * Json)) (path method : string)
    : option Json :=
  match lookup items path with
  | Some path_item => operation_in path_item method
  | None => None
  end.

(** The declared tags of an operation, or the default list. *)
Definition tags_or (default : string) (operation : Json) : Json :=
  match operation with
  | JObj okvs => match lookup okvs "tags" with
                 | Some tags => tags
                 | None => JArr [JStr default]
                 end
  | _ => JArr [JStr default]
  end.

Definition extracted_record (default path method : string) (operation : Json)
    : Extracted :=
  {| ex_path := path; ex_method := upper method;
     ex_operation := operation; ex_tags := tags_or default operation |}.

(** What [endpoints] holds under the key of (method, path): the record of
    the operation declared there, or else what [before] held. *)
Definition holds_operation (default : string) (declared : option Json)
    (before endpoints : list (string * Extracted)) (path method : string) : Prop :=
  dict_get String.eqb endpoints (endpoint_key method path) =
  match declared with
  | Some operation => Some (extracted_record default path method operation)
  | None => dict_get String.eqb before (endpoint_key method path)
  end.

(** A document with a path item that is not a mapping. *)
Definition odd_paths_doc : Json :=
  JObj [("paths", JObj [
     ("/a", JObj [("post", JObj [("tags", JArr [JStr "a"; JStr "b"])]);
                  ("summary", JStr "path level");
                  ("get", JObj [])]);
     ("/b", JNull)])].

(** Two extracted entries are the same endpoint. *)
Definition same_endpoint (a b : option Extracted) : Prop :=
  match a, b with
  | Some x, Some y =>
      ex_path x = ex_path y /\ ex_method x = ex_method y /\
      ex_operation x = ex_operation y
  | None, None => True
  | _, _ => False
  end.

(** A path item that declares [post] before [get]. *)
Definition post_first_doc : Json :=
  JObj [("paths", JObj [
     ("/a", JObj [("post", JObj [("tags", JArr [JStr "a"; JStr "b"])]);
                  ("summary", JStr "path level");
                  ("get", JObj [])])])].

(** Every entry of a mapping path item under one of the seven methods is
    a mapping. *)
Definition operations_are_mappings (items : list (string * Json)) : Prop :=
  forall path entries method operation,
    In (path, JObj entries) items -> In (method, operation) entries ->
    In method METHODS -> is_mapping operation = true.

(* ================================================================== *)
(** * Groups *)
(* ================================================================== *)

(** The number of entries in all groups together. *)
Definition group_total {K A : Type} (grouped : list (K * list A)) : nat :=
  fold_right (fun kv acc => length (snd kv) + acc)%nat 0%nat grouped.

(** The number of tags iterating over the tags of an endpoint yields. *)
Definition tag_count (entry : string * Extracted) : nat :=
  match py_iter (ex_tags (snd entry)) with
  | Ok tags => length tags
  | Raise _ => 0
  end.

Definition tags_total (endpoints : list (string * Extracted)) : nat :=
  fold_right (fun entry acc => tag_count entry + acc)%nat 0%nat endpoints.

(** The group of [tag] has an entry for the endpoint under [key]. *)
Definition grouped_under (grouped : list (Json * list Grouped)) (tag : Json)
    (key : string) (endpoint : Extracted) : Prop :=
  exists entries,
    dict_get key_eqb grouped tag = Some entries /\
    In {| g_key := key; g_path := ex_path endpoint;
          g_method := ex_method endpoint;
          g_operation := ex_operation endpoint |} entries.

(** Two endpoints, the first with two tags. *)
Definition two_tags : list (string * Extracted) :=
  [("POST /a", extracted_record "Другое" "/a" "post"
                 (JObj [("tags", JArr [JStr "a"; JStr "b"])]));
   ("GET /a", extracted_record "Другое" "/a" "get" (JObj []))].

(* ================================================================== *)
(** * Security requirements in force *)
(* ================================================================== *)

(** The requirements in force for an operation: its own [security] when
    it has the key, else the document's, else none. *)
Definition effective_security (okvs skvs : list (string * Json)) : Json :=
  match lookup okvs "security" with
  | Some s => s
  | None => match lookup skvs "security" with
            | Some g => g
            | None => JArr []
            end
  end.

(** The scheme names of a list of requirement objects, in order. *)
Definition scheme_names (requirements : list (list (string * Json)))
    : list string :=
  concat (map (map fst) requirements).

Definition secured_doc : list (string * Json) :=
  [("security", JArr [JObj [("apiKey", JArr [])]])].

(* ================================================================== *)
(** * Tag counts and tag queries *)
(* ================================================================== *)

Definition tag_count_of (tc : list (Json * nat)) (tag : string) : nat :=
  dict_get_default key_eqb tc (JStr tag) 0.

(** The endpoints found for a tag are no more than its count. *)
Definition within_count (tag : string) (found : list TagEndpoint) (c : Counters)
    : Prop :=
  length found <= tag_count_of (tags_count c) tag.

(** Two operations tagged [a], one of them twice, and one untagged. *)
Definition tagged_doc : Json :=
  JObj [("paths", JObj [("/a", JObj [
     ("get", JObj [("tags", JArr [JStr "a"; JStr "a"])]);
     ("post", JObj [("tags", JArr [JStr "a"; JStr "b"])]);
     ("put", JObj [])])])].

(* ================================================================== *)
(** * The pairs of the listing *)
(* ================================================================== *)

(** Every endpoint listed so far comes from a path of [processed], or
    from the current [path] with a method of [done]. *)
Definition listed_from (processed : list string) (path : string)
    (done : list string) (endpoints : list Endpoint) : Prop :=
  forall e, In e endpoints ->
    exists m, In m METHODS /\ ep_method e = upper m /\
              (In (ep_path e) processed \/ (ep_path e = path /\ In m done)).

Definition endpoint_lt (a b : Endpoint) : Prop :=
  key_lt (sort_key a) (sort_key b).

(* ================================================================== *)
(** * Where the items of the collection come from *)
(* ================================================================== *)

(** The parameter is a mapping located in the query. *)
Definition in_query (p : Json) : bool :=
  match p with
  | JObj kvs => match lookup kvs "in" with
                | Some (JStr s) => String.eqb s "query"
                | _ => false
                end
  | _ => false
  end.

(** The query entry of a parameter: its name, an empty value, and
    disabled unless required. *)
Definition to_query (p : Json) : QueryParam :=
  match p with
  | JObj kvs =>
      {| q_key := match lookup kvs "name" with Some n => n | None => JNull end;
         q_value := "";
         q_disabled :=
           negb (py_truthy (match lookup kvs "required" with
                            | Some r => r
                            | None => JBool false
                            end)) |}
  | _ => {| q_key := JNull; q_value := ""; q_disabled := true |}
  end.

(** The query of an operation: none without parameters, else the entries
    of its parameters located in the query. *)
Definition query_for (okvs : list (string * Json)) : option (list QueryParam) :=
  match lookup okvs "parameters" with
  | Some (JArr (p :: ps)) => Some (map to_query (filter in_query (p :: ps)))
  | _ => None
  end.

Definition name_for (okvs : list (string * Json)) (method path : string) : Json :=
  match lookup okvs "summary" with
  | Some s => s
  | None => JStr (upper method ++ " " ++ path)%string
  end.

(** The item is the request of an operation that one of the path items
    declares under one of the five methods. *)
Definition item_of_operation (path_items : list (string * Json))
    (it : PostmanItem) : Prop :=
  exists path pkvs method okvs,
    In (path, JObj pkvs) path_items /\ In method POSTMAN_METHODS /\
    lookup pkvs method = Some (JObj okvs) /\
    pi_method it = upper method /\
    pi_raw it = ("{{base_url}}" ++ path)%string /\
    pi_name it = name_for okvs method path /\
    pi_query it = query_for okvs.

(** An operation with one parameter in the query and one in the path. *)
Definition search_doc : Json :=
  JObj [("paths", JObj [("/search/{id}", JObj [("get", JObj [
     ("summary", JStr "Search");
     ("parameters", JArr [
        JObj [("name", JStr "id"); ("in", JStr "path"); ("required", JBool true)];
        JObj [("name", JStr "q"); ("in", JStr "query")]])])])])].

(* ================================================================== *)
(** * Tag queries as filters *)
(* ================================================================== *)

(** [tag in ep["tags"]] holds. *)
Definition tagged (tag : string) (e : Endpoint) : bool :=
  match py_in tag (ep_tags e) with
  | Ok b => b
  | Raise _ => false
  end.

Definition tag_fields (e : TagEndpoint) : string * string * Json :=
  (te_method e, te_path e, te_summary e).

Definition endpoint_fields (e : Endpoint) : string * string * Json :=
  (ep_method e, ep_path e, ep_summary e).

Definition filtered_by (tag : string) (found : list TagEndpoint)
    (endpoints : list Endpoint) : Prop :=
  map tag_fields found = map endpoint_fields (filter (tagged tag) endpoints).

(* ================================================================== *)
(** * An export that stops *)
(* ================================================================== *)

(** A listing whose second operation has a number among its tags. *)
Definition bad_tags_doc : Json :=
  JObj [("paths", JObj [("/a", JObj [
     ("get", JObj [("tags", JArr [JStr "a"])]);
     ("post", JObj [("tags", JArr [JNum 1])]);
     ("put", JObj [("tags", JArr [JStr "c"])])])])].


(* ================================================================== *)
(** * The CSV file, in the words of its description *)
(* ================================================================== *)

(** [a] comes no later than [b] in ascending order of (path, method):
    the path strings decide, and the method strings break a tie. *)
Definition path_then_method (a b : Endpoint) : Prop :=
  String_as_OT.lt (ep_path a) (ep_path b) \/
  (ep_path a = ep_path b /\
   (ep_method a = ep_method b \/ String_as_OT.lt (ep_method a) (ep_method b))).

(** [row] has the five cells of [ep] in the order of the header, the
    tags, a list of strings, joined by a comma and a space. *)
Definition tags_row (ep : Endpoint) (row : Row) : Prop :=
  exists l,
    ep_tags ep = JArr (map JStr l) /\
    row = [JStr (ep_method ep); JStr (ep_path ep); ep_summary ep;
           JStr (String.concat ", " l); ep_deprecated ep].

(** Two paths out of order, whose order by path is not their order by
    method, and one operation with two tags. *)
Definition shuffled_doc : Json :=
  JObj [("paths", JObj [
     ("/b", JObj [("post", JObj [("tags", JArr [JStr "x"; JStr "y"])]);
                  ("get", JObj [("summary", JStr "B")])]);
     ("/a", JObj [("put", JObj [("tags", JArr [JStr "z"]);
                                ("deprecated", JBool true)])])])].

(* ================================================================== *)
(** * Request bodies and responses that are not mappings *)
(* ================================================================== *)

Definition json_schema : Json := JObj [("type", JStr "object")].

Definition post_doc (operation : Json) : Json :=
  JObj [("paths", JObj [("/a", JObj [("post", operation)])])].

(** [post: null], as a YAML key without a value loads. *)
Definition null_operation_doc : Json := post_doc JNull.

(** [requestBody: null]. *)
Definition null_body_doc : Json :=
  post_doc (JObj [("requestBody", JNull)]).

(** [content] is a list. *)
Definition list_content_doc : Json :=
  post_doc (JObj [("requestBody", JObj [("content", JArr [])])]).

(** The first content type has no value; the second carries a schema. *)
Definition null_entry_doc : Json :=
  post_doc (JObj [("requestBody", JObj [("content", JObj [
     ("text/plain", JNull);
     ("application/json", JObj [("schema", json_schema)])])])]).

(** A [200] response with a schema, followed by a [404] without a
    value. *)
Definition null_response_doc : Json :=
  post_doc (JObj [("responses", JObj [
     ("200", JObj [("content", JObj [
        ("application/json", JObj [("schema", json_schema)])])]);
     ("404", JNull)])]).

(** A [200] response with a schema, followed by a [404] whose content
    entry is a list holding the word [schema]. *)
Definition list_entry_doc : Json :=
  post_doc (JObj [("responses", JObj [
     ("200", JObj [("content", JObj [
        ("application/json", JObj [("schema", json_schema)])])]);
     ("404", JObj [("content", JObj [
        ("text/plain", JArr [JStr "schema"])])])])]).

(* ================================================================== *)
(** * A document with two servers *)
(* ================================================================== *)

Definition two_servers_doc : Json :=
  JObj [("servers", JArr [JObj [("url", JStr "http://first")];
                          JObj [("url", JStr "http://second")]]);
        ("paths", JObj [])].

(* ================================================================== *)
(** * Where a recorded schema comes from *)
(* ================================================================== *)

(** [schema] is carried by a content entry of a response declared under
    [status]. *)
Definition declared_under (responses : list (string * Json))
    (status : string) (schema : Json) : Prop :=
  exists response entry,
    In (status, response) responses /\
    In entry (content_items response) /\
    schema_of (snd entry) = Some schema.

Definition all_declared (responses schemas : list (string * Json)) : Prop :=
  forall status schema,
    dict_get String.eqb schemas status = Some schema ->
    declared_under responses status schema.
(* ================================================================== *)
(** * General lemmas *)
(* ================================================================== *)

Lemma bind_ok {A B : Type} (r : result A) (k : A -> result B) (b : B) :
  bind r k = Ok b -> exists a, r = Ok a /\ k a = Ok b.
Proof.
  destruct r as [a | e]; simpl; intros H; [eauto | discriminate].
Qed.

(** Splits a hypothesis [x <- c ;; k = Ok v] into its two halves. *)
Ltac bind_inv H :=
  let a := fresh "v" in
  let Ha := fresh "E" in
  apply bind_ok in H; destruct H as [a [Ha H]].

(** Two loops over the same list, the second following the first: if the
    first one ends normally, so does the second, and the relation between
    their states is kept. *)
Lemma for_each_sim {A S T : Type} (R : S -> T -> Prop)
    (f : A -> S -> result S) (g : A -> T -> result T) (l : list A) :
  (forall x s t s', In x l -> R s t -> f x s = Ok s' ->
     exists t', g x t = Ok t' /\ R s' t') ->
  forall s t s', R s t -> for_each l f s = Ok s' ->
     exists t', for_each l g t = Ok t' /\ R s' t'.
Proof.
  induction l as [| x l IH]; intros Hstep s t s' HR Hf; simpl in *.
  - inversion Hf; subst. eauto.
  - bind_inv Hf.
    destruct (Hstep x s t v (or_introl eq_refl) HR E) as [t1 [Hg HR1]].
    rewrite Hg; simpl.
    apply IH with (s := v); auto.
    intros y a b a' Hy. apply Hstep. now right.
Qed.

(** A loop whose body never raises on the items of the list ends
    normally, and keeps every invariant its body keeps. *)
Lemma for_each_total {A S : Type} (P : S -> Prop)
    (f : A -> S -> result S) (l : list A) :
  (forall x s, In x l -> P s -> exists s', f x s = Ok s' /\ P s') ->
  forall s, P s -> exists s', for_each l f s = Ok s' /\ P s'.
Proof.
  induction l as [| x l IH]; intros Hstep s HP; simpl.
  - eauto.
  - destruct (Hstep x s (or_introl eq_refl) HP) as [s1 [H1 HP1]].
    rewrite H1; simpl. apply IH; auto.
    intros y s0 Hy. apply Hstep. now right.
Qed.

Lemma for_each_inv {A S : Type} (P : S -> Prop)
    (f : A -> S -> result S) (l : list A) :
  (forall x s s', In x l -> P s -> f x s = Ok s' -> P s') ->
  forall s s', P s -> for_each l f s = Ok s' -> P s'.
Proof.
  induction l as [| x l IH]; intros Hstep s s' HP Hf; simpl in *.
  - inversion Hf; subst; auto.
  - bind_inv Hf. apply IH with (s := v); auto.
    + intros y a b Hy. apply Hstep. now right.
    + apply (Hstep x s v); auto.
Qed.

Section DictFacts.
Context {K : Type}.
Variable keq : K -> K -> bool.

Lemma values_sum_incr (d : list (K * nat)) (k : K) :
  values_sum (dict_set keq d k (dict_get_default keq d k 0 + 1)) =
  values_sum d + 1.
Proof.
  unfold dict_get_default.
  induction d as [| [k' v'] d IH]; simpl.
  - reflexivity.
  - destruct (keq k' k); simpl.
    + unfold values_sum; simpl. lia.
    + unfold values_sum in *; simpl. rewrite IH. lia.
Qed.
End DictFacts.

(* ================================================================== *)
(** * Statistics and extraction agree *)
(* ================================================================== *)

Lemma stats_method_sim (path : string) (path_item : Json) (method : string)
    (c : Counters) (endpoints : list Endpoint) (c' : Counters) :
  counted c endpoints ->
  stats_method path_item method c = Ok c' ->
  exists endpoints',
    list_method path path_item method endpoints = Ok endpoints' /\
    counted c' endpoints'.
Proof.
  intros [Hsum Hlen] H. unfold stats_method in H. unfold list_method.
  destruct (py_in method path_item) as [[|] | e]; simpl in *; try discriminate.
  - destruct (py_getitem path_item method) as [operation | e]; simpl in *;
      try discriminate.
    destruct operation; simpl in *; try discriminate.
    bind_inv H. bind_inv H. inversion H; subst; clear H.
    eexists; split; [reflexivity |].
    split; simpl.
    + rewrite values_sum_incr. lia.
    + rewrite length_app. simpl. lia.
  - inversion H; subst. eexists; split; [reflexivity | split; assumption].
Qed.

Lemma stats_path_sim (item : string * Json) (c : Counters)
    (endpoints : list Endpoint) (c' : Counters) :
  counted c endpoints ->
  stats_path item c = Ok c' ->
  exists endpoints',
    list_path item endpoints = Ok endpoints' /\ counted c' endpoints'.
Proof.
  unfold stats_path, list_path. intros HR H.
  apply (for_each_sim counted) with (f := stats_method (snd item)) (s := c) (s' := c');
    auto.
  intros m s t s' _. apply stats_method_sim.
Qed.

Lemma insert_sorted_length (e : Endpoint) (l : list Endpoint) :
  length (insert_sorted e l) = S (length l).
Proof.
  induction l as [| x l IH]; simpl; [reflexivity |].
  destruct (key_ltb (sort_key x) (sort_key e)); simpl; [rewrite IH |]; reflexivity.
Qed.

Lemma sorted_length (l : list Endpoint) : length (sorted l) = length l.
Proof.
  induction l as [| x l IH]; simpl; [reflexivity |].
  rewrite insert_sorted_length, IH. reflexivity.
Qed.

Lemma statistics_agree (spec : Json) (st : Statistics) :
  get_statistics spec = Ok st ->
  exists endpoints,
    list_all_endpoints spec = Ok endpoints /\
    values_sum (stat_methods st) = stat_total_endpoints st /\
    stat_total_endpoints st = length endpoints.
Proof.
  unfold get_statistics, list_all_endpoints, collect_endpoints. intros H.
  destruct (py_get spec "paths" (JObj [])) as [paths | e]; simpl in *;
    try discriminate.
  destruct (py_items paths) as [items | e]; simpl in *; try discriminate.
  bind_inv H.
  assert (H0 : counted {| endpoints_count := 0; methods_count := [];
                           tags_count := [] |} []) by (split; reflexivity).
  destruct (for_each_sim counted stats_path list_path items
              (fun x s t s' _ => stats_path_sim x s t s')
              _ [] v H0 E) as [eps [Heps [Hsum Hlen]]].
  rewrite Heps; simpl.
  repeat bind_inv H. inversion H; subst; clear H; simpl.
  eexists; split; [reflexivity |].
  rewrite sorted_length. auto.
Qed.

Lemma count_tags_total (l : list Json) (tc : list (Json * nat)) :
  forallb hashable l = true ->
  exists tc', for_each l count_tag tc = Ok tc'.
Proof.
  intros Hl.
  destruct (for_each_total (fun _ => True) count_tag l) with (s := tc)
    as [tc' [H _]]; eauto.
  intros x s Hx _. unfold count_tag.
  rewrite forallb_forall in Hl. rewrite (Hl x Hx). eauto.
Qed.

Lemma dict_has_lookup (kvs : list (string * Json)) (k : string) :
  dict_has String.eqb kvs k = true -> exists v, lookup kvs k = Some v.
Proof.
  unfold dict_has, lookup. destruct (dict_get String.eqb kvs k); eauto.
  discriminate.
Qed.

Lemma stats_method_total (path_item : Json) (method : string) (c : Counters) :
  path_item_shape path_item = true -> In method METHODS ->
  exists c', stats_method path_item method c = Ok c'.
Proof.
  intros Hshape Hm. destruct path_item as [| | | | | kvs]; try discriminate.
  unfold path_item_shape in Hshape.
  rewrite forallb_forall in Hshape. specialize (Hshape _ Hm).
  unfold stats_method; simpl.
  destruct (dict_has String.eqb kvs method) eqn:Hhas; [| eauto].
  destruct (dict_has_lookup _ _ Hhas) as [operation Hop].
  rewrite Hop in *; simpl.
  destruct operation as [| | | | | okvs]; try discriminate.
  simpl in *. unfold tags_shape in Hshape.
  destruct (lookup okvs "tags") as [tags |]; simpl.
  - destruct tags as [| | | | l |]; try discriminate. simpl.
    destruct (count_tags_total l (tags_count c) Hshape) as [tc' Htc].
    rewrite Htc; simpl. eauto.
  - eauto.
Qed.

Lemma stats_path_total (item : string * Json) (c : Counters) :
  path_item_shape (snd item) = true ->
  exists c', stats_path item c = Ok c'.
Proof.
  intros Hshape. unfold stats_path.
  destruct (for_each_total (fun _ => True) (stats_method (snd item)) METHODS)
    with (s := c) as [c' [H _]]; eauto.
  intros m s Hm _.
  destruct (stats_method_total (snd item) m s Hshape Hm) as [s' Hs]. eauto.
Qed.

Lemma sized_len (j : Json) : sized j = true -> exists n, py_len j = Ok n.
Proof. destruct j; simpl; intros H; try discriminate; eauto. Qed.

Lemma sized_at_len (kvs : list (string * Json)) (k : string) :
  sized_at kvs k = true ->
  exists n, py_len (match lookup kvs k with Some v => v | None => JObj [] end) = Ok n.
Proof.
  unfold sized_at. destruct (lookup kvs k); [apply sized_len | simpl; eauto].
Qed.

Lemma statistics_total (spec : Json) :
  document_shape spec = true -> exists st, get_statistics spec = Ok st.
Proof.
  destruct spec as [| | | | | kvs]; try discriminate. simpl.
  intros H. apply andb_prop in H. destruct H as [H Hcomp].
  apply andb_prop in H. destruct H as [Hpaths Hinfo].
  unfold get_statistics; simpl.
  assert (Hloop : exists c,
    (items <- py_items (match lookup kvs "paths" with
                        | Some v => v | None => JObj [] end) ;;
     for_each items stats_path
       {| endpoints_count := 0; methods_count := []; tags_count := [] |}) = Ok c).
  { unfold paths_shape in Hpaths.
    destruct (lookup kvs "paths") as [paths |]; simpl; [| eauto].
    destruct paths as [| | | | | items]; try discriminate. simpl.
    rewrite forallb_forall in Hpaths.
    destruct (for_each_total (fun _ => True) stats_path items)
      with (s := {| endpoints_count := 0; methods_count := []; tags_count := [] |})
      as [c' [Hc _]]; eauto.
    intros it s Hit _.
    destruct (stats_path_total it s (Hpaths it Hit)) as [s' Hs]. eauto. }
  destruct Hloop as [c Hc].
  destruct (py_items _) as [items | e]; simpl in *; try discriminate.
  rewrite Hc; simpl.
  unfold info_shape in Hinfo. unfold components_shape in Hcomp.
  assert (Hinfo' : exists ikvs,
    match lookup kvs "info" with Some v => v | None => JObj [] end = JObj ikvs).
  { destruct (lookup kvs "info") as [i |]; [| eauto].
    destruct i; try discriminate; eauto. }
  destruct Hinfo' as [ikvs ->]. simpl.
  assert (Hcomp' : exists ckvs,
    match lookup kvs "components" with Some v => v | None => JObj [] end = JObj ckvs
    /\ sized_at ckvs "schemas" = true /\ sized_at ckvs "securitySchemes" = true).
  { destruct (lookup kvs "components") as [cpt |].
    - destruct cpt; try discriminate. apply andb_prop in Hcomp. eauto.
    - exists []. auto. }
  destruct Hcomp' as [ckvs [-> [Hs1 Hs2]]]. simpl.
  destruct (sized_at_len _ _ Hs1) as [n1 ->].
  destruct (sized_at_len _ _ Hs2) as [n2 ->]. simpl. eauto.
Qed.

(* ================================================================== *)
(** * Filtering by tag *)
(* ================================================================== *)

Lemma find_method_sim (tag path : string) (path_item : Json) (method : string)
    (found : list TagEndpoint) (endpoints : list Endpoint)
    (found' : list TagEndpoint) :
  no_more found endpoints ->
  find_method tag path path_item method found = Ok found' ->
  exists endpoints',
    list_method path path_item method endpoints = Ok endpoints' /\
    no_more found' endpoints'.
Proof.
  unfold no_more, find_method, list_method. intros Hle H.
  destruct (py_in method path_item) as [[|] | e]; simpl in *; try discriminate.
  - destruct (py_getitem path_item method) as [operation | e]; simpl in *;
      try discriminate.
    destruct operation; simpl in *; try discriminate.
    eexists; split; [reflexivity |]. rewrite length_app; simpl.
    destruct (py_in tag _) as [[|] | e]; simpl in *; try discriminate;
      inversion H; subst; clear H.
    + rewrite length_app; simpl. lia.
    + lia.
  - inversion H; subst. eauto.
Qed.

Lemma find_path_sim (tag : string) (item : string * Json)
    (found : list TagEndpoint) (endpoints : list Endpoint)
    (found' : list TagEndpoint) :
  no_more found endpoints ->
  find_path tag item found = Ok found' ->
  exists endpoints',
    list_path item endpoints = Ok endpoints' /\ no_more found' endpoints'.
Proof.
  unfold find_path, list_path. intros HR H.
  apply (for_each_sim no_more)
    with (f := find_method tag (fst item) (snd item)) (s := found) (s' := found');
    auto.
  intros m s t s' _. apply find_method_sim.
Qed.

Lemma find_by_tag_bounded (spec : Json) (tag : string) (found : list TagEndpoint) :
  find_endpoints_by_tag spec tag = Ok found ->
  exists endpoints,
    list_all_endpoints spec = Ok endpoints /\ length found <= length endpoints.
Proof.
  unfold find_endpoints_by_tag, list_all_endpoints, collect_endpoints. intros H.
  destruct (py_get spec "paths" (JObj [])) as [paths | e]; simpl in *;
    try discriminate.
  destruct (py_items paths) as [items | e]; simpl in *; try discriminate.
  assert (H0 : @no_more TagEndpoint Endpoint [] []) by (unfold no_more; simpl; lia).
  destruct (for_each_sim no_more (find_path tag) list_path items
              (fun x s t s' _ => find_path_sim tag x s t s')
              _ [] found H0 H) as [eps [Heps Hle]].
  rewrite Heps; simpl. eexists; split; [reflexivity |].
  rewrite sorted_length. exact Hle.
Qed.

Lemma find_method_total (tag path : string) (path_item : Json) (method : string)
    (found : list TagEndpoint) :
  path_item_shape path_item = true -> In method METHODS ->
  exists found', find_method tag path path_item method found = Ok found'.
Proof.
  intros Hshape Hm. destruct path_item as [| | | | | kvs]; try discriminate.
  unfold path_item_shape in Hshape.
  rewrite forallb_forall in Hshape. specialize (Hshape _ Hm).
  unfold find_method; simpl.
  destruct (dict_has String.eqb kvs method) eqn:Hhas; [| eauto].
  destruct (dict_has_lookup _ _ Hhas) as [operation Hop].
  rewrite Hop in *; simpl.
  destruct operation as [| | | | | okvs]; try discriminate.
  simpl in *. unfold tags_shape in Hshape.
  destruct (lookup okvs "tags") as [tags |]; simpl.
  - destruct tags as [| | | | l |]; try discriminate. simpl.
    destruct (existsb _ l); eauto.
  - eauto.
Qed.

Lemma find_by_tag_total (spec : Json) (tag : string) :
  document_shape spec = true ->
  exists found, find_endpoints_by_tag spec tag = Ok found.
Proof.
  destruct spec as [| | | | | kvs]; try discriminate. simpl.
  intros H. apply andb_prop in H. destruct H as [H _].
  apply andb_prop in H. destruct H as [Hpaths _].
  unfold find_endpoints_by_tag; simpl. unfold paths_shape in Hpaths.
  destruct (lookup kvs "paths") as [paths |]; simpl; [| eauto].
  destruct paths as [| | | | | items]; try discriminate. simpl.
  rewrite forallb_forall in Hpaths.
  destruct (for_each_total (fun _ => True) (find_path tag) items) with (s := @nil TagEndpoint)
    as [r [Hr _]]; eauto.
  intros it s Hit _. unfold find_path.
  destruct (for_each_total (fun _ => True)
              (find_method tag (fst it) (snd it)) METHODS) with (s := s)
    as [r [Hr _]]; eauto.
  intros m s0 Hm _.
  destruct (find_method_total tag (fst it) (snd it) m s0 (Hpaths it Hit) Hm)
    as [s1 Hs1]. eauto.
Qed.

(** C9. On every document of the expected shape and for every tag [t],
    [find_endpoints_by_tag t] returns; and whenever it returns, on any
    document at all, [list_all_endpoints] returns too and lists at least
    as many endpoints. *)
Theorem find_by_tag_no_more_than_all (spec : Json) (tag : string) :
  (document_shape spec = true ->
     exists found, find_endpoints_by_tag spec tag = Ok found) /\
  (forall found, find_endpoints_by_tag spec tag = Ok found ->
     exists endpoints,
       list_all_endpoints spec = Ok endpoints /\
       length found <= length endpoints).
Proof.
  split; [apply find_by_tag_total | apply find_by_tag_bounded].
Qed.

Lemma find_by_tag_witness :
  exists found endpoints,
    find_endpoints_by_tag pets_doc "pets" = Ok found /\
    list_all_endpoints pets_doc = Ok endpoints /\
    length found <= length endpoints.
Proof.
  destruct (find_by_tag_no_more_than_all pets_doc "pets") as [Htotal Hle].
  destruct (Htotal eq_refl) as [found Hfound].
  destruct (Hle found Hfound) as [endpoints [Heps Hlen]].
  exists found, endpoints. auto.
Defined.

(* ================================================================== *)
(** * Validation *)
(* ================================================================== *)

Lemma check_info_mapping (kvs : list (string * Json)) (errors : list string) :
  check_info (JObj kvs) errors = Ok (errors ++ info_errors kvs).
Proof.
  unfold check_info, info_errors; simpl. unfold dict_has. fold (lookup kvs "info").
  destruct (lookup kvs "info") as [info |]; simpl; [| reflexivity].
  destruct info as [| | | | | ikvs]; simpl; try reflexivity.
  unfold has_key.
  destruct (dict_has String.eqb ikvs "title"), (dict_has String.eqb ikvs "version");
    simpl; rewrite ?app_nil_r, <- ?app_assoc; reflexivity.
Qed.

Lemma is_valid_openapi_mapping (kvs : list (string * Json)) :
  is_valid_openapi (JObj kvs) =
  Ok (Nat.eqb (length (expected_errors kvs)) 0, expected_errors kvs).
Proof.
  unfold is_valid_openapi, expected_errors, version_errors, paths_errors, has_key.
  unfold neither_in; simpl.
  destruct (dict_has String.eqb kvs "openapi"); simpl;
    [| destruct (dict_has String.eqb kvs "swagger"); simpl];
    rewrite check_info_mapping; simpl;
    destruct (dict_has String.eqb kvs "paths"); simpl;
    rewrite ?app_nil_r; reflexivity.
Qed.

Lemma valid_iff_checks (kvs : list (string * Json)) :
  expected_errors kvs = [] <-> failures (five_checks kvs) = 0.
Proof.
  unfold expected_errors, version_errors, info_errors, paths_errors,
    failures, five_checks, info_has.
  destruct (has_key kvs "openapi" || has_key kvs "swagger");
    destruct (has_key kvs "paths");
    destruct (lookup kvs "info") as [[| | | | | ikvs] |]; simpl;
    try (split; discriminate);
    try (destruct (has_key ikvs "title"), (has_key ikvs "version"); simpl;
         split; (discriminate || reflexivity)).
Qed.

(** C5 (amended). On every input tree whose top level is a mapping,
    [is_valid_openapi] does not raise and returns the pair (errors is
    empty, errors); the errors are, in this order and without stopping at
    a failure, the one for a missing [openapi]/[swagger] key, those of the
    [info] block (missing, or not a mapping, or else one for each of
    [title] and [version] that is missing: these two checks are run only
    when [info] is a mapping), and the one for a missing [paths] key.  The
    result is valid exactly when none of the five checks fails, and the
    three example documents give: valid with no error; invalid with an
    error naming [openapi]; invalid with an error naming [info]. *)
Theorem validate_mapping_accumulates (kvs : list (string * Json)) :
  is_valid_openapi (JObj kvs) =
    Ok (Nat.eqb (length (expected_errors kvs)) 0, expected_errors kvs) /\
  (expected_errors kvs = [] <-> failures (five_checks kvs) = 0) /\
  is_valid_openapi valid_doc = Ok (true, []) /\
  (exists errors, is_valid_openapi no_version_doc = Ok (false, errors) /\
                  mentions "openapi" errors = true) /\
  (exists errors, is_valid_openapi no_info_doc = Ok (false, errors) /\
                  mentions "info" errors = true).
Proof.
  split; [apply is_valid_openapi_mapping |].
  split; [apply valid_iff_checks |].
  split; [reflexivity |].
  split; eexists; split; reflexivity.
Qed.

(** C5, as stated, fails twice.  The tree [null] is an input tree and
    validating it raises [TypeError].  And on the third example document
    three of the five checks fail ([info] missing, hence no [info.title]
    and no [info.version]) while one error is accumulated. *)
Lemma validate_counterexample :
  is_valid_openapi JNull = Raise TypeError /\
  failures (five_checks no_info_kvs) = 3 /\
  is_valid_openapi no_info_doc = Ok (false, [MSG_INFO]).
Proof. repeat split. Qed.

(* ================================================================== *)
(** * Resolving pointers *)
(* ================================================================== *)

Lemma split_no_slash (s : string) :
  no_slash s = true -> str_split "/" s = [s].
Proof.
  induction s as [| c s IH]; simpl; [reflexivity |].
  intros H. apply andb_prop in H. destruct H as [Hc Hs].
  apply negb_true_iff in Hc. rewrite Hc, (IH Hs). reflexivity.
Qed.

Lemma split_segment (s rest : string) :
  no_slash s = true ->
  str_split "/" (s ++ String "/" rest) = s :: str_split "/" rest.
Proof.
  induction s as [| c s IH]; simpl; [reflexivity |].
  intros H. apply andb_prop in H. destruct H as [Hc Hs].
  apply negb_true_iff in Hc. rewrite Hc, (IH Hs). reflexivity.
Qed.

(** Splitting a joined pointer gives its segments back. *)
Lemma split_join (parts : list string) :
  parts <> [] -> forallb no_slash parts = true ->
  str_split "/" (str_join "/" parts) = parts.
Proof.
  induction parts as [| x l IH]; intros Hne Hall; [congruence |].
  simpl in Hall. apply andb_prop in Hall. destruct Hall as [Hx Hl].
  destruct l as [| y l'].
  - simpl. apply split_no_slash; assumption.
  - change (str_join "/" (x :: y :: l'))
      with (x ++ String "/" (str_join "/" (y :: l')))%string.
    rewrite split_segment by assumption.
    rewrite IH; [reflexivity | discriminate | assumption].
Qed.

(** The loop of [resolve_schema_reference] under its [try]: the object at
    the end of the descent, or [None]. *)
Lemma descent_caught (parts : list string) (obj : Json) :
  try_except (for_each parts descend obj) [KeyError; TypeError] (Ok JNull) =
  Ok (match lookup_path obj parts with Some v => v | None => JNull end).
Proof.
  revert obj. induction parts as [| part rest IH]; intros obj; simpl.
  - reflexivity.
  - destruct obj as [| | | | | kvs]; simpl; try reflexivity.
    destruct (lookup kvs part) as [v |]; simpl; [apply IH | reflexivity].
Qed.

(** Resolving a pointer string never raises. *)
Lemma resolve_string_returns (spec : Json) (r : string) :
  resolve_schema_reference spec (JStr r) =
  Ok (if String.prefix "#/" r
      then match lookup_path spec (str_split "/" (drop_bytes 2 r)) with
           | Some v => v
           | None => JNull
           end
      else JNull).
Proof.
  unfold resolve_schema_reference.
  destruct (String.prefix "#/" r); simpl; [apply descent_caught | reflexivity].
Qed.

Lemma resolve_pointer (spec : Json) (parts : list string) :
  parts <> [] -> forallb no_slash parts = true ->
  resolve_schema_reference spec (JStr (pointer_to parts)) =
  Ok (match lookup_path spec parts with Some v => v | None => JNull end).
Proof.
  intros Hne Hall. rewrite resolve_string_returns.
  unfold pointer_to. simpl. rewrite split_join by assumption.
  destruct (str_join "/" parts); reflexivity.
Qed.

(** C3 (amended).  [resolve_schema_reference] has no cycle detection and
    needs none: it makes one pass over the segments of the pointer, never
    follows a [$ref] it finds, and therefore returns on every pointer
    string.  On a document in which schema [a] refers to schema [b] and
    [b] back to [a], resolving the pointer to [a] returns the object
    stored under [a], its [$ref] to [b] left as it is, and likewise for
    [b]; neither call fails. *)
Theorem resolve_on_cycle_returns_stored (spec : Json) (a b : string) :
  no_slash a = true -> no_slash b = true ->
  lookup_path spec ["components"; "schemas"; a] =
    Some (ref_to ["components"; "schemas"; b]) ->
  lookup_path spec ["components"; "schemas"; b] =
    Some (ref_to ["components"; "schemas"; a]) ->
  resolve_schema_reference spec (JStr (pointer_to ["components"; "schemas"; a])) =
    Ok (ref_to ["components"; "schemas"; b]) /\
  resolve_schema_reference spec (JStr (pointer_to ["components"; "schemas"; b])) =
    Ok (ref_to ["components"; "schemas"; a]) /\
  (forall r, exists v, resolve_schema_reference spec (JStr r) = Ok v).
Proof.
  intros Ha Hb HA HB.
  split; [| split].
  - rewrite resolve_pointer; [rewrite HA; reflexivity | discriminate |].
    simpl. rewrite Ha. reflexivity.
  - rewrite resolve_pointer; [rewrite HB; reflexivity | discriminate |].
    simpl. rewrite Hb. reflexivity.
  - intros r. rewrite resolve_string_returns. eauto.
Qed.

Lemma resolve_on_cycle_witness :
  resolve_schema_reference cycle_doc (JStr "#/components/schemas/A") =
    Ok (JObj [("$ref", JStr "#/components/schemas/B")]) /\
  resolve_schema_reference cycle_doc (JStr "#/components/schemas/B") =
    Ok (JObj [("$ref", JStr "#/components/schemas/A")]).
Proof.
  destruct (resolve_on_cycle_returns_stored cycle_doc "A" "B")
    as [HA [HB _]]; try reflexivity.
  split; [exact HA | exact HB].
Defined.

(** C3, as stated, fails: on the document whose schema [A] refers to [B]
    and [B] back to [A], resolving the pointer to [A] does not fail; it
    returns the object stored under [A]. *)
Lemma cycle_counterexample :
  resolve_schema_reference cycle_doc (JStr "#/components/schemas/A") =
    Ok (JObj [("$ref", JStr "#/components/schemas/B")]) /\
  resolution_failed
    (resolve_schema_reference cycle_doc (JStr "#/components/schemas/A")) = false.
Proof. split; reflexivity. Qed.

(** C4 (amended).  [resolve_schema_reference] takes a pointer string, not
    an object.  For every document and every pointer [#/p1/.../pn] to an
    object stored in it, inline or not, it returns that object
    unchanged. *)
Theorem resolve_returns_stored_object (spec : Json) (parts : list string)
    (obj : Json) :
  parts <> [] -> forallb no_slash parts = true ->
  lookup_path spec parts = Some obj ->
  resolve_schema_reference spec (JStr (pointer_to parts)) = Ok obj.
Proof.
  intros Hne Hall Hobj. rewrite resolve_pointer by assumption.
  rewrite Hobj. reflexivity.
Qed.

Lemma resolve_returns_stored_object_witness :
  resolve_schema_reference inline_doc (JStr "#/components/schemas/Pet") =
    Ok inline_schema.
Proof.
  apply (resolve_returns_stored_object inline_doc
           ["components"; "schemas"; "Pet"] inline_schema);
    [discriminate | reflexivity | reflexivity].
Defined.

(** C4, as stated, fails: applied to an inline object the function raises
    [AttributeError], an object having no [startswith]. *)
Lemma resolve_inline_counterexample :
  resolve_schema_reference inline_doc inline_schema = Raise AttributeError.
Proof. reflexivity. Qed.

(* ================================================================== *)
(** * Untagged operations *)
(* ================================================================== *)

(** A loop establishes [P] if one of its items does and all keep it. *)
Lemma for_each_establish {A S : Type} (P : S -> Prop)
    (f : A -> S -> result S) (l : list A) (x : A) :
  In x l ->
  (forall s s', f x s = Ok s' -> P s') ->
  (forall y s s', In y l -> P s -> f y s = Ok s' -> P s') ->
  forall s s', for_each l f s = Ok s' -> P s'.
Proof.
  induction l as [| y l IH]; intros Hin Hest Hkeep s s' H; [contradiction |].
  simpl in H. bind_inv H. destruct Hin as [-> | Hin].
  - apply (for_each_inv P f l) with (s := v); auto.
    + intros z a b Hz. apply Hkeep. now right.
    + apply (Hest s); assumption.
  - apply IH with (s := v); auto.
    intros z a b Hz. apply Hkeep. now right.
Qed.

Section DictLookups.
Context {K V : Type}.
Variable keq : K -> K -> bool.

Lemma dict_get_set_same (d : list (K * V)) (k : K) (v : V) :
  keq k k = true -> dict_get keq (dict_set keq d k v) k = Some v.
Proof.
  intros Hk. induction d as [| [k' v'] d IH]; simpl.
  - rewrite Hk. reflexivity.
  - destruct (keq k' k) eqn:E; simpl; rewrite E; auto.
Qed.
End DictLookups.

(** Counting a tag never removes a bucket nor lowers its count. *)
Lemma count_keeps_bucket {K : Type} (keq : K -> K -> bool)
    (d : list (K * nat)) (t k : K) (n : nat) :
  dict_get keq d k = Some n ->
  exists n', dict_get keq (dict_set keq d t (dict_get_default keq d t 0 + 1)) k
             = Some n' /\ n <= n'.
Proof.
  unfold dict_get_default.
  induction d as [| [k0 v0] d IH]; simpl; [discriminate |].
  destruct (keq k0 t) eqn:Et; simpl.
  - destruct (keq k0 k); intros H.
    + inversion H; subst. exists (n + 1). split; [reflexivity | lia].
    + eauto.
  - destruct (keq k0 k); intros H; eauto.
Qed.

Lemma count_tag_keeps (tag : Json) (tc tc' : list (Json * nat)) :
  has_untagged tc -> count_tag tag tc = Ok tc' -> has_untagged tc'.
Proof.
  unfold count_tag. intros [n [Hn Hle]] H.
  destruct (hashable tag); [| discriminate]. inversion H; subst; clear H.
  destruct (count_keeps_bucket key_eqb tc tag (JStr "untagged") n Hn)
    as [n' [Hn' Hle']].
  exists n'. split; [exact Hn' | lia].
Qed.

Lemma stats_method_keeps (path_item : Json) (method : string) (c c' : Counters) :
  has_untagged (tags_count c) ->
  stats_method path_item method c = Ok c' -> has_untagged (tags_count c').
Proof.
  unfold stats_method. intros HP H.
  destruct (py_in method path_item) as [[|] | e]; simpl in *; try discriminate.
  - repeat bind_inv H. inversion H; subst; clear H. simpl.
    apply (for_each_inv has_untagged count_tag v1) with (s := tags_count c); auto.
    intros x s s' _. apply count_tag_keeps.
  - inversion H; subst. assumption.
Qed.

Lemma lookup_In (kvs : list (string * Json)) (k : string) (v : Json) :
  lookup kvs k = Some v -> In (k, v) kvs.
Proof.
  unfold lookup. induction kvs as [| [k' v'] kvs IH]; simpl; [discriminate |].
  destruct (String.eqb k' k) eqn:E.
  - apply String.eqb_eq in E. intros H; inversion H; subst. now left.
  - intros H. right. auto.
Qed.

Lemma lookup_has_key (kvs : list (string * Json)) (k : string) (v : Json) :
  lookup kvs k = Some v -> dict_has String.eqb kvs k = true.
Proof. unfold lookup, dict_has. intros ->. reflexivity. Qed.

(** The step of [get_statistics] at an operation with no [tags] key puts
    the default bucket in the counts. *)
Lemma stats_method_untagged (pkvs okvs : list (string * Json)) (method : string)
    (c c' : Counters) :
  lookup pkvs method = Some (JObj okvs) -> lookup okvs "tags" = None ->
  stats_method (JObj pkvs) method c = Ok c' -> has_untagged (tags_count c').
Proof.
  intros Hop Htags. unfold stats_method; simpl.
  rewrite (lookup_has_key _ _ _ Hop), Hop; simpl. rewrite Htags; simpl.
  intros H. inversion H; subst; clear H. simpl.
  eexists. split; [apply dict_get_set_same; reflexivity | lia].
Qed.

Lemma statistics_untagged (spec : Json) (path method : string)
    (okvs : list (string * Json)) (st : Statistics) :
  In method METHODS ->
  lookup_path spec ["paths"; path; method] = Some (JObj okvs) ->
  lookup okvs "tags" = None ->
  get_statistics spec = Ok st ->
  has_untagged (stat_tags st).
Proof.
  intros Hm Hop Htags H.
  destruct spec as [| | | | | kvs]; try discriminate. simpl in Hop.
  destruct (lookup kvs "paths") as [paths |] eqn:Hpaths; [| discriminate].
  destruct paths as [| | | | | items]; try discriminate.
  destruct (lookup items path) as [path_item |] eqn:Hitem; [| discriminate].
  destruct path_item as [| | | | | pkvs]; try discriminate.
  destruct (lookup pkvs method) as [operation |] eqn:Hmeth; [| discriminate].
  inversion Hop; subst; clear Hop.
  unfold get_statistics in H; simpl in H. rewrite Hpaths in H; simpl in H.
  bind_inv H.
  assert (Hb : has_untagged (tags_count v)).
  { refine (for_each_establish (fun c => has_untagged (tags_count c))
              stats_path items (path, JObj pkvs) _ _ _ _ v E).
    - apply lookup_In; assumption.
    - intros s s'. unfold stats_path; simpl.
      refine (for_each_establish (fun c => has_untagged (tags_count c))
                (stats_method (JObj pkvs)) METHODS method Hm _ _ s s').
      + intros a b. apply (stats_method_untagged pkvs okvs); assumption.
      + intros y a b _. apply stats_method_keeps.
    - intros y s s' _ HP. unfold stats_path.
      apply (for_each_inv (fun c => has_untagged (tags_count c))); auto.
      intros m a b _. apply stats_method_keeps. }
  repeat bind_inv H. inversion H; subst; clear H. exact Hb.
Qed.

(* ================================================================== *)
(** * Sorting *)
(* ================================================================== *)

Lemma ltb_lt (a b : string) : String.ltb a b = true <-> String_as_OT.lt a b.
Proof.
  unfold String.ltb. rewrite <- String_as_OT.cmp_lt. unfold String_as_OT.cmp.
  destruct (String.compare a b); split; congruence.
Qed.

Lemma ltb_false (a b : string) :
  String.ltb a b = false -> a = b \/ String_as_OT.lt b a.
Proof.
  unfold String.ltb. intros H.
  destruct (String.compare a b) eqn:E; try discriminate.
  - left. now apply String_as_OT.cmp_eq.
  - right. apply String_as_OT.cmp_lt. unfold String_as_OT.cmp.
    rewrite String.compare_antisym, E. reflexivity.
Qed.

Lemma key_ltb_lt (a b : string * string) : key_ltb a b = true <-> key_lt a b.
Proof.
  unfold key_ltb, key_lt. destruct a as [p m], b as [p' m']; simpl.
  destruct (String.ltb p p') eqn:Ep.
  - apply ltb_lt in Ep. tauto.
  - destruct (String.eqb p p') eqn:Eq.
    + apply String.eqb_eq in Eq. subst p'. rewrite ltb_lt. split; [tauto |].
      intros [H | [_ H]]; [| exact H].
      apply ltb_lt in H. congruence.
    + split; [discriminate |]. intros [H | [H _]].
      * apply ltb_lt in H. congruence.
      * apply String.eqb_neq in Eq. contradiction.
Qed.

Lemma key_ltb_false (a b : string * string) : key_ltb a b = false -> key_le b a.
Proof.
  unfold key_ltb, key_le, key_lt. destruct a as [p m], b as [p' m']; simpl.
  destruct (String.ltb p p') eqn:Ep; [discriminate |].
  destruct (ltb_false _ _ Ep) as [-> | Hlt]; [| tauto].
  rewrite String.eqb_refl. intros Hm.
  destruct (ltb_false _ _ Hm) as [-> | Hlt]; tauto.
Qed.

Lemma key_lt_trans (a b c : string * string) :
  key_lt a b -> key_lt b c -> key_lt a c.
Proof.
  unfold key_lt. intros [H1 | [E1 H1]] [H2 | [E2 H2]].
  - left. eapply String_as_OT.lt_trans; eassumption.
  - left. rewrite <- E2. assumption.
  - left. rewrite E1. assumption.
  - right. split; [congruence | eapply String_as_OT.lt_trans; eassumption].
Qed.

Lemma key_le_trans (a b c : string * string) :
  key_le a b -> key_le b c -> key_le a c.
Proof.
  unfold key_le. intros [-> | H1] [-> | H2]; auto.
  right. eapply key_lt_trans; eassumption.
Qed.

Lemma insert_sorted_perm (e : Endpoint) (l : list Endpoint) :
  Permutation (e :: l) (insert_sorted e l).
Proof.
  induction l as [| x l IH]; simpl; [reflexivity |].
  destruct (key_ltb (sort_key x) (sort_key e)); [| reflexivity].
  rewrite perm_swap. constructor. exact IH.
Qed.

Lemma sorted_perm (l : list Endpoint) : Permutation l (sorted l).
Proof.
  induction l as [| x l IH]; simpl; [constructor |].
  rewrite <- insert_sorted_perm. constructor. exact IH.
Qed.

Lemma insert_sorted_ordered (e : Endpoint) (l : list Endpoint) :
  StronglySorted endpoint_le l -> StronglySorted endpoint_le (insert_sorted e l).
Proof.
  induction l as [| x l IH]; intros Hs; simpl.
  - repeat constructor.
  - inversion Hs as [| ? ? Hl Hx]; subst.
    destruct (key_ltb (sort_key x) (sort_key e)) eqn:E.
    + constructor; [apply IH; assumption |].
      apply Forall_forall. intros y Hy.
      apply (Permutation_in _ (Permutation_sym (insert_sorted_perm e l))) in Hy.
      destruct Hy as [<- | Hy].
      * right. now apply key_ltb_lt.
      * rewrite Forall_forall in Hx. auto.
    + apply key_ltb_false in E.
      constructor; [assumption |].
      constructor; [exact E |].
      apply Forall_forall. intros y Hy. rewrite Forall_forall in Hx.
      eapply key_le_trans; [exact E | apply Hx; assumption].
Qed.

Lemma sorted_ordered (l : list Endpoint) : StronglySorted endpoint_le (sorted l).
Proof.
  induction l as [| x l IH]; simpl; [constructor |].
  apply insert_sorted_ordered. exact IH.
Qed.

(* ================================================================== *)
(** * What extraction records for an untagged operation *)
(* ================================================================== *)

Lemma list_method_extends (path : string) (path_item : Json) (method : string)
    (endpoints endpoints' : list Endpoint) :
  list_method path path_item method endpoints = Ok endpoints' ->
  exists new, endpoints' = endpoints ++ new.
Proof.
  unfold list_method. intros H.
  destruct (py_in method path_item) as [[|] | e]; simpl in *; try discriminate.
  - repeat bind_inv H. inversion H; subst. eauto.
  - inversion H; subst. exists []. now rewrite app_nil_r.
Qed.

Lemma listed_with_app (path method : string) (tags : Json)
    (endpoints new : list Endpoint) :
  listed_with path method tags endpoints ->
  listed_with path method tags (endpoints ++ new).
Proof.
  intros [ep [Hin H]]. exists ep. split; [apply in_or_app; now left | exact H].
Qed.

Lemma list_method_keeps (path method : string) (tags : Json) (path' : string)
    (path_item : Json) (m : string) (endpoints endpoints' : list Endpoint) :
  listed_with path method tags endpoints ->
  list_method path' path_item m endpoints = Ok endpoints' ->
  listed_with path method tags endpoints'.
Proof.
  intros HP H. destruct (list_method_extends _ _ _ _ _ H) as [new ->].
  now apply listed_with_app.
Qed.

Lemma list_method_untagged (path : string) (pkvs okvs : list (string * Json))
    (method : string) (endpoints endpoints' : list Endpoint) :
  lookup pkvs method = Some (JObj okvs) -> lookup okvs "tags" = None ->
  list_method path (JObj pkvs) method endpoints = Ok endpoints' ->
  listed_with path method (JArr []) endpoints'.
Proof.
  intros Hop Htags. unfold list_method; simpl.
  rewrite (lookup_has_key _ _ _ Hop), Hop; simpl. rewrite Htags; simpl.
  intros H. inversion H; subst; clear H.
  eexists. split; [apply in_or_app; right; left; reflexivity |].
  simpl. auto.
Qed.

Lemma listing_untagged (spec : Json) (path method : string)
    (okvs : list (string * Json)) (endpoints : list Endpoint) :
  In method METHODS ->
  lookup_path spec ["paths"; path; method] = Some (JObj okvs) ->
  lookup okvs "tags" = None ->
  list_all_endpoints spec = Ok endpoints ->
  listed_with path method (JArr []) endpoints.
Proof.
  intros Hm Hop Htags H.
  destruct spec as [| | | | | kvs]; try discriminate. simpl in Hop.
  destruct (lookup kvs "paths") as [paths |] eqn:Hpaths; [| discriminate].
  destruct paths as [| | | | | items]; try discriminate.
  destruct (lookup items path) as [path_item |] eqn:Hitem; [| discriminate].
  destruct path_item as [| | | | | pkvs]; try discriminate.
  destruct (lookup pkvs method) as [operation |] eqn:Hmeth; [| discriminate].
  inversion Hop; subst; clear Hop.
  unfold list_all_endpoints, collect_endpoints in H; simpl in H.
  rewrite Hpaths in H; simpl in H.
  bind_inv H. inversion H; subst; clear H.
  assert (Hb : listed_with path method (JArr []) v).
  { refine (for_each_establish (listed_with path method (JArr []))
              list_path items (path, JObj pkvs) _ _ _ _ v E).
    - apply lookup_In; assumption.
    - intros s s'. unfold list_path; simpl.
      refine (for_each_establish (listed_with path method (JArr []))
                (list_method path (JObj pkvs)) METHODS method Hm _ _ s s').
      + intros a b. apply (list_method_untagged path pkvs okvs); assumption.
      + intros y a b _. apply list_method_keeps.
    - intros y s s' _ HP. unfold list_path.
      apply (for_each_inv (listed_with path method (JArr []))); auto.
      intros m a b _. apply list_method_keeps. }
  destruct Hb as [ep [Hin Hep]]. exists ep. split; [| exact Hep].
  apply (Permutation_in _ (sorted_perm v)). exact Hin.
Qed.

(** Distinct (method, path) pairs have distinct keys. *)
Lemma endpoint_key_inj (m m' p p' : string) :
  In m METHODS -> In m' METHODS ->
  endpoint_key m p = endpoint_key m' p' -> m = m' /\ p = p'.
Proof.
  unfold METHODS, endpoint_key. simpl. intros Hm Hm'.
  repeat (destruct Hm as [<- | Hm]; [| try contradiction]);
    repeat (destruct Hm' as [<- | Hm']; [| try contradiction]);
    simpl; intros H; try discriminate; inversion H; auto.
Qed.

Lemma dict_get_set_other {V : Type} (d : list (string * V)) (k k' : string) (v : V) :
  k' <> k ->
  dict_get String.eqb (dict_set String.eqb d k' v) k = dict_get String.eqb d k.
Proof.
  intros Hne. induction d as [| [k0 v0] d IH]; simpl.
  - apply String.eqb_neq in Hne. rewrite Hne. reflexivity.
  - destruct (String.eqb k0 k') eqn:E; simpl.
    + apply String.eqb_eq in E. subst k0.
      apply String.eqb_neq in Hne. rewrite Hne. reflexivity.
    + rewrite IH. reflexivity.
Qed.

Lemma extract_method_keeps (path method : string) (tags : Json) (path' : string)
    (path_item : Json) (m : string) (ex ex' : list (string * Extracted)) :
  In method METHODS -> In m METHODS -> (m <> method \/ path' <> path) ->
  extracted_with path method tags ex ->
  extract_method path' path_item m ex = Ok ex' ->
  extracted_with path method tags ex'.
Proof.
  intros Hmethod Hm Hne [e [He Htags]] H. unfold extract_method in H.
  destruct (py_in m path_item) as [[|] | err]; simpl in *; try discriminate.
  - repeat bind_inv H. inversion H; subst; clear H.
    exists e. split; [| exact Htags].
    rewrite dict_get_set_other; [exact He |].
    intros Hk. apply endpoint_key_inj in Hk; auto. tauto.
  - inversion H; subst. exists e. auto.
Qed.

Lemma extract_method_untagged (path : string) (pkvs okvs : list (string * Json))
    (method : string) (ex ex' : list (string * Extracted)) :
  lookup pkvs method = Some (JObj okvs) -> lookup okvs "tags" = None ->
  extract_method path (JObj pkvs) method ex = Ok ex' ->
  extracted_with path method (JArr [JStr "Other"]) ex'.
Proof.
  intros Hop Htags. unfold extract_method; simpl.
  rewrite (lookup_has_key _ _ _ Hop), Hop; simpl. rewrite Htags; simpl.
  intros H. inversion H; subst; clear H.
  eexists. split; [apply dict_get_set_same; apply String.eqb_refl |].
  simpl. auto.
Qed.

Lemma nodup_keys_unique (kvs : list (string * Json)) (k : string) (a b : Json) :
  nodup_keys (map fst kvs) = true ->
  In (k, a) kvs -> In (k, b) kvs -> a = b.
Proof.
  induction kvs as [| [k0 v0] kvs IH]; simpl; [contradiction |].
  intros H Ha Hb. apply andb_prop in H. destruct H as [Hfresh Hnd].
  apply negb_true_iff in Hfresh.
  assert (Hout : forall v, In (k0, v) kvs -> False).
  { intros v Hv.
    assert (Hex : existsb (String.eqb k0) (map fst kvs) = true).
    { apply existsb_exists. exists k0. split; [| apply String.eqb_refl].
      apply in_map_iff. exists (k0, v). auto. }
    congruence. }
  destruct Ha as [Ha | Ha], Hb as [Hb | Hb].
  - congruence.
  - inversion Ha; subst. destruct (Hout _ Hb).
  - inversion Hb; subst. destruct (Hout _ Ha).
  - eauto.
Qed.

Lemma wf_json_child (kvs : list (string * Json)) (k : string) (v : Json) :
  wf_json (JObj kvs) = true -> lookup kvs k = Some v -> wf_json v = true.
Proof.
  simpl. intros H Hk. apply andb_prop in H. destruct H as [_ H].
  rewrite forallb_forall in H. apply (H (k, v)). now apply lookup_In.
Qed.

Lemma extraction_untagged (spec : Json) (path method : string)
    (okvs : list (string * Json)) (ex : list (string * Extracted)) :
  wf_json spec = true ->
  In method METHODS ->
  lookup_path spec ["paths"; path; method] = Some (JObj okvs) ->
  lookup okvs "tags" = None ->
  extract_endpoints spec = Ok ex ->
  extracted_with path method (JArr [JStr "Other"]) ex.
Proof.
  intros Hwf Hm Hop Htags H.
  destruct spec as [| | | | | kvs]; try discriminate. simpl in Hop.
  destruct (lookup kvs "paths") as [paths |] eqn:Hpaths; [| discriminate].
  destruct paths as [| | | | | items]; try discriminate.
  destruct (lookup items path) as [path_item |] eqn:Hitem; [| discriminate].
  destruct path_item as [| | | | | pkvs]; try discriminate.
  destruct (lookup pkvs method) as [operation |] eqn:Hmeth; [| discriminate].
  inversion Hop; subst; clear Hop.
  assert (Hnd : nodup_keys (map fst items) = true).
  { pose proof (wf_json_child _ _ _ Hwf Hpaths) as Hw. simpl in Hw.
    apply andb_prop in Hw. tauto. }
  unfold extract_endpoints in H; simpl in H. rewrite Hpaths in H; simpl in H.
  set (P := extracted_with path method (JArr [JStr "Other"])).
  assert (Hest : forall s s', extract_path (path, JObj pkvs) s = Ok s' -> P s').
  { intros s s'. unfold extract_path; simpl.
    refine (for_each_establish P (extract_method path (JObj pkvs))
              METHODS method Hm _ _ s s').
    - intros a b. apply (extract_method_untagged path pkvs okvs); assumption.
    - intros y a b Hy HP Hstep. destruct (string_dec y method) as [-> | Hne].
      + apply (extract_method_untagged path pkvs okvs method a b); assumption.
      + apply (extract_method_keeps path method _ path (JObj pkvs) y a b); auto. }
  refine (for_each_establish P extract_path items (path, JObj pkvs) _ Hest _ _ ex H).
  - apply lookup_In; assumption.
  - intros [p pi] s s' Hy HP Hstep. destruct (string_dec p path) as [-> | Hne].
    + assert (pi = JObj pkvs) as ->.
      { apply (nodup_keys_unique items path); auto. now apply lookup_In. }
      apply (Hest s s' Hstep).
    + unfold extract_path in Hstep; simpl in Hstep.
      apply (for_each_inv P (extract_method p pi) METHODS) with (s := s); auto.
      intros m a b Hin HPa. apply (extract_method_keeps path method _ p pi m); auto.
Qed.

Lemma extract_follows_stats (path : string) (path_item : Json) (method : string)
    (c c' : Counters) (ex : list (string * Extracted)) :
  stats_method path_item method c = Ok c' ->
  exists ex', extract_method path path_item method ex = Ok ex'.
Proof.
  unfold stats_method, extract_method. intros H.
  destruct (py_in method path_item) as [[|] | e]; simpl in *; try discriminate.
  - destruct (py_getitem path_item method) as [operation | e]; simpl in *;
      try discriminate.
    destruct operation; simpl in *; try discriminate. eauto.
  - eauto.
Qed.

Lemma extract_total (spec : Json) (st : Statistics) :
  get_statistics spec = Ok st -> exists ex, extract_endpoints spec = Ok ex.
Proof.
  unfold get_statistics, extract_endpoints. intros H.
  destruct (py_get spec "paths" (JObj [])) as [paths | e]; simpl in *;
    try discriminate.
  destruct (py_items paths) as [items | e]; simpl in *; try discriminate.
  bind_inv H.
  destruct (for_each_sim (fun _ _ => True) stats_path extract_path items)
    with (s := {| endpoints_count := 0; methods_count := []; tags_count := [] |})
         (t := @nil (string * Extracted)) (s' := v) as [ex [Hex _]]; eauto.
  intros it s t s' _ _ Hs. unfold stats_path in Hs. unfold extract_path.
  destruct (for_each_sim (fun _ _ => True) (stats_method (snd it))
              (extract_method (fst it) (snd it)) METHODS)
    with (s := s) (t := t) (s' := s') as [t' [Ht' _]]; eauto.
  intros m a b a' _ _ Ha.
  destruct (extract_follows_stats (fst it) (snd it) m a a' b Ha) as [b' Hb].
  eauto.
Qed.

(** C2 (amended).  For every document and every operation under one of
    the seven methods that has no [tags] key: [get_statistics] counts it
    in the default bucket [untagged], which therefore appears in the tag
    counts with a count of at least one; [extract_endpoints] records it
    with the single-element default tag list [Other] (in a document whose
    keys are distinct); [list_all_endpoints] lists it with the empty tag
    list, the default label being left to whoever prints the listing.
    All three return on a document of the expected shape. *)
Theorem untagged_operation_buckets (spec : Json) (path method : string)
    (okvs : list (string * Json)) :
  In method METHODS ->
  lookup_path spec ["paths"; path; method] = Some (JObj okvs) ->
  lookup okvs "tags" = None ->
  (forall st, get_statistics spec = Ok st -> has_untagged (stat_tags st)) /\
  (forall endpoints, list_all_endpoints spec = Ok endpoints ->
     listed_with path method (JArr []) endpoints) /\
  (wf_json spec = true ->
   forall ex, extract_endpoints spec = Ok ex ->
     extracted_with path method (JArr [JStr "Other"]) ex) /\
  (document_shape spec = true ->
     exists st endpoints ex,
       get_statistics spec = Ok st /\ list_all_endpoints spec = Ok endpoints /\
       extract_endpoints spec = Ok ex).
Proof.
  intros Hm Hop Htags. repeat split.
  - intros st. now apply (statistics_untagged spec path method okvs).
  - intros endpoints. now apply (listing_untagged spec path method okvs).
  - intros Hwf ex. now apply (extraction_untagged spec path method okvs).
  - intros Hshape. destruct (statistics_total spec Hshape) as [st Hst].
    destruct (statistics_agree spec st Hst) as [endpoints [Heps _]].
    destruct (extract_total spec st Hst) as [ex Hex].
    exists st, endpoints, ex. auto.
Qed.

Lemma untagged_operation_witness :
  (exists st, get_statistics untagged_doc = Ok st /\
              has_untagged (stat_tags st)) /\
  (exists endpoints, list_all_endpoints untagged_doc = Ok endpoints /\
                     listed_with "/a" "get" (JArr []) endpoints) /\
  (exists ex, extract_endpoints untagged_doc = Ok ex /\
              extracted_with "/a" "get" (JArr [JStr "Other"]) ex).
Proof.
  destruct (untagged_operation_buckets untagged_doc "/a" "get"
              [("summary", JStr "A")])
    as [Hst [Hlist [Hex _]]];
    [simpl; auto | reflexivity | reflexivity |].
  split; [| split].
  - eexists. split; [reflexivity | apply Hst; reflexivity].
  - eexists. split; [reflexivity | apply Hlist; reflexivity].
  - eexists. split; [reflexivity | apply Hex; reflexivity].
Defined.

(** C2, as stated, fails.  An operation whose [tags] list is declared and
    empty gets no default anywhere: its endpoint is listed and extracted
    with the empty tag list, and the tag counts of the statistics are
    empty.  And an operation with no [tags] key is listed by
    [list_all_endpoints] with the empty tag list. *)
Lemma untagged_counterexample :
  list_all_endpoints empty_tags_doc =
    Ok [{| ep_method := "GET"; ep_path := "/a"; ep_summary := JStr "";
           ep_tags := JArr []; ep_deprecated := JBool false |}] /\
  extract_endpoints empty_tags_doc =
    Ok [("GET /a", {| ex_path := "/a"; ex_method := "GET";
                      ex_operation := JObj [("tags", JArr [])];
                      ex_tags := JArr [] |})] /\
  (exists st, get_statistics empty_tags_doc = Ok st /\
              stat_total_endpoints st = 1 /\ stat_tags st = []) /\
  list_all_endpoints untagged_doc =
    Ok [{| ep_method := "GET"; ep_path := "/a"; ep_summary := JStr "A";
           ep_tags := JArr []; ep_deprecated := JBool false |}].
Proof.
  repeat split. eexists. repeat split.
Qed.

(* ================================================================== *)
(** * CSV export *)
(* ================================================================== *)

Lemma join_items_strings (l acc : list string) :
  for_each (map JStr l) join_item acc = Ok (acc ++ l).
Proof.
  revert acc. induction l as [| x l IH]; intros acc; simpl.
  - now rewrite app_nil_r.
  - rewrite IH, <- app_assoc. reflexivity.
Qed.

Lemma py_join_strings (sep : string) (l : list string) :
  py_join sep (JArr (map JStr l)) = Ok (str_join sep l).
Proof. unfold py_join; simpl. rewrite join_items_strings. reflexivity. Qed.

(** The loop writes one row per endpoint, in order, after what is already
    in the file; it stops at the first endpoint whose tags do not join. *)
Lemma write_rows_spec (endpoints : list Endpoint) (written : list Row) :
  exists rows r,
    write_rows endpoints written = (written ++ rows, r) /\
    (r = Ok tt -> Forall2 row_of endpoints rows) /\
    (Forall string_tagged endpoints -> r = Ok tt).
Proof.
  revert written. induction endpoints as [| ep rest IH]; intros written; simpl.
  - exists [], (Ok tt). rewrite app_nil_r. repeat split; auto.
  - destruct (py_join ", " (ep_tags ep)) as [tags | e] eqn:Ej.
    + destruct (IH (written ++ [csv_row ep tags])) as [rows [r [Hw [Hok Htot]]]].
      exists (csv_row ep tags :: rows), r.
      rewrite Hw, <- app_assoc. simpl. repeat split.
      * intros Hr. constructor; [| auto]. exists tags. auto.
      * intros Hall. inversion Hall; subst. auto.
    + exists [], (Raise e). rewrite app_nil_r. repeat split.
      * discriminate.
      * intros Hall. inversion Hall as [| ? ? [l Hl] _]; subst.
        rewrite Hl, py_join_strings in Ej. discriminate.
Qed.

(** The order kept by the sort is the order on the two fields. *)
Lemma endpoint_le_fields (a b : Endpoint) :
  endpoint_le a b -> path_then_method a b.
Proof.
  unfold endpoint_le, key_le, key_lt, sort_key, path_then_method; simpl.
  intros [Heq | [Hlt | [Hp Hm]]].
  - injection Heq as Hp Hm. right. split; [exact Hp | left; exact Hm].
  - left. exact Hlt.
  - right. split; [exact Hp | right; exact Hm].
Qed.

Lemma sorted_by_fields (l : list Endpoint) :
  StronglySorted endpoint_le l -> StronglySorted path_then_method l.
Proof.
  induction 1 as [| a l Hl IH Ha]; constructor; [exact IH |].
  apply (Forall_impl _ (endpoint_le_fields a)). exact Ha.
Qed.

Lemma str_join_concat (sep : string) (l : list string) :
  str_join sep l = String.concat sep l.
Proof.
  induction l as [| x l IH]; [reflexivity |].
  destruct l as [| y l]; [reflexivity |].
  change (str_join sep (x :: y :: l))
    with (x ++ sep ++ str_join sep (y :: l))%string.
  rewrite IH. reflexivity.
Qed.

(** The row written for an endpoint whose tags are a list of strings. *)
Lemma row_of_tagged (ep : Endpoint) (row : Row) :
  string_tagged ep -> row_of ep row -> tags_row ep row.
Proof.
  intros [l Hl] [tags [Hj ->]]. exists l. split; [exact Hl |].
  rewrite Hl, py_join_strings in Hj. injection Hj as <-.
  rewrite str_join_concat. reflexivity.
Qed.

Lemma rows_of_tagged (endpoints : list Endpoint) (rows : list Row) :
  Forall string_tagged endpoints -> Forall2 row_of endpoints rows ->
  Forall2 tags_row endpoints rows.
Proof.
  intros Hall H. induction H as [| ep row endpoints rows Hrow _ IH];
    [constructor |].
  inversion Hall as [| ? ? Hep Hrest]; subst.
  constructor; [apply row_of_tagged; assumption | apply IH; exact Hrest].
Qed.

(** C7 (amended).  On a document of the expected shape
    [list_all_endpoints] returns.  Whenever it returns, its endpoints are
    those collected from the document, in ascending order of (path,
    method): the path strings compare first and the method strings break
    a tie.  The export then writes the header row
    [Method,Path,Summary,Tags,Deprecated] first, endpoints or not.  When
    the tags of every endpoint are a list of strings, it ends normally
    and the header is followed by one row per endpoint, in the order of
    the listing, whose cells are the method, the path, the summary, the
    tags joined by a comma and a space, and the deprecated flag. *)
Theorem csv_export_rows (spec : Json) :
  (document_shape spec = true ->
     exists endpoints, list_all_endpoints spec = Ok endpoints) /\
  (forall endpoints,
     list_all_endpoints spec = Ok endpoints ->
     StronglySorted path_then_method endpoints /\
     (exists collected, collect_endpoints spec = Ok collected /\
                        Permutation collected endpoints) /\
     exists rows r,
       export_endpoints_csv spec =
         (Some ([JStr "Method"; JStr "Path"; JStr "Summary"; JStr "Tags";
                 JStr "Deprecated"] :: rows), r) /\
       (Forall string_tagged endpoints ->
          r = Ok tt /\ Forall2 tags_row endpoints rows) /\
       (endpoints = [] -> rows = [] /\ r = Ok tt)).
Proof.
  split.
  { intros Hshape. destruct (statistics_total spec Hshape) as [st Hst].
    destruct (statistics_agree spec st Hst) as [endpoints [Heps _]]. eauto. }
  intros endpoints H. unfold export_endpoints_csv. rewrite H.
  unfold list_all_endpoints in H. bind_inv H. inversion H; subst; clear H.
  split; [apply sorted_by_fields, sorted_ordered |].
  split; [exists v; split; [exact E | apply sorted_perm] |].
  destruct (write_rows_spec (sorted v) [header_row]) as [rows [r [Hw [Hok Htot]]]].
  exists rows, r. rewrite Hw.
  split; [reflexivity |]. split.
  - intros Hall. specialize (Htot Hall). split; [exact Htot |].
    apply rows_of_tagged; [exact Hall | exact (Hok Htot)].
  - intros Hnil. rewrite Hnil in Hok, Htot.
    assert (Hr : r = Ok tt) by (apply Htot; constructor).
    specialize (Hok Hr). inversion Hok. auto.
Qed.

Lemma csv_export_rows_witness :
  exists endpoints,
    list_all_endpoints shuffled_doc = Ok endpoints /\
    map ep_path endpoints = ["/a"; "/b"; "/b"] /\
    map ep_method endpoints = ["PUT"; "GET"; "POST"] /\
    StronglySorted path_then_method endpoints /\
    exists rows,
      export_endpoints_csv shuffled_doc =
        (Some ([JStr "Method"; JStr "Path"; JStr "Summary"; JStr "Tags";
                JStr "Deprecated"] :: rows), Ok tt) /\
      Forall2 tags_row endpoints rows /\
      rows = [[JStr "PUT"; JStr "/a"; JStr ""; JStr "z"; JBool true];
              [JStr "GET"; JStr "/b"; JStr "B"; JStr ""; JBool false];
              [JStr "POST"; JStr "/b"; JStr ""; JStr "x, y"; JBool false]].
Proof.
  eexists. split; [reflexivity |]. split; [reflexivity |].
  split; [reflexivity |].
  destruct (csv_export_rows shuffled_doc) as [_ Hrows].
  destruct (Hrows _ eq_refl) as [Hsorted [_ [rows [r [Hexp [Htagged _]]]]]].
  split; [exact Hsorted |].
  destruct Htagged as [Hr Hall].
  { constructor; [exists ["z"]; reflexivity |].
    constructor; [exists []; reflexivity |].
    constructor; [exists ["x"; "y"]; reflexivity | constructor]. }
  subst r. exists rows. split; [exact Hexp |]. split; [exact Hall |].
  assert (Hv : fst (export_endpoints_csv shuffled_doc) =
               Some [[JStr "Method"; JStr "Path"; JStr "Summary"; JStr "Tags";
                      JStr "Deprecated"];
                     [JStr "PUT"; JStr "/a"; JStr ""; JStr "z"; JBool true];
                     [JStr "GET"; JStr "/b"; JStr "B"; JStr ""; JBool false];
                     [JStr "POST"; JStr "/b"; JStr ""; JStr "x, y"; JBool false]])
    by reflexivity.
  rewrite Hexp in Hv. simpl in Hv. injection Hv as Hv. exact Hv.
Defined.

(** C7, as stated, fails.  The second of the three endpoints listed for
    this document, which has the expected shape, has a number among its
    tags: the export writes the header and the row of the first endpoint
    and stops with the [TypeError] of the join, so the file has one row
    for three endpoints. *)
Lemma csv_export_counterexample :
  document_shape bad_tags_doc = true /\
  (exists endpoints,
     list_all_endpoints bad_tags_doc = Ok endpoints /\ length endpoints = 3) /\
  export_endpoints_csv bad_tags_doc =
    (Some [[JStr "Method"; JStr "Path"; JStr "Summary"; JStr "Tags";
            JStr "Deprecated"];
           [JStr "GET"; JStr "/a"; JStr ""; JStr "a"; JBool false]],
     Raise TypeError).
Proof.
  split; [reflexivity |]. split; [| reflexivity].
  eexists. split; reflexivity.
Qed.

(* ================================================================== *)
(** * Request body schema *)
(* ================================================================== *)

Lemma operation_at_found (spec : Json) (path method : string) (operation : Json) :
  operation_of spec path method = Some operation ->
  operation_at spec path method = Ok operation.
Proof.
  unfold operation_of, operation_at; simpl.
  destruct spec as [| | | | | kvs]; try discriminate. simpl.
  destruct (lookup kvs "paths") as [paths |]; [| discriminate]. simpl.
  destruct paths as [| | | | | items]; try discriminate. simpl.
  destruct (lookup items path) as [path_item |]; [| discriminate]. simpl.
  destruct path_item as [| | | | | pkvs]; try discriminate. simpl.
  destruct (lookup pkvs method); [| discriminate].
  intros H; inversion H; reflexivity.
Qed.

Lemma operation_at_missing (spec : Json) (path method : string) :
  operation_of spec path method = None ->
  operation_at spec path method = Raise KeyError \/
  operation_at spec path method = Raise TypeError.
Proof.
  unfold operation_of, operation_at; simpl.
  destruct spec as [| | | | | kvs]; simpl; auto.
  destruct (lookup kvs "paths") as [paths |]; simpl; auto.
  destruct paths as [| | | | | items]; simpl; auto.
  destruct (lookup items path) as [path_item |]; simpl; auto.
  destruct path_item as [| | | | | pkvs]; simpl; auto.
  destruct (lookup pkvs method); [discriminate | auto].
Qed.

(** On entries that are mappings the loop returns the first schema. *)
Lemma first_schema_mappings (items : list (string * Json)) :
  forallb (fun entry => is_mapping (snd entry)) items = true ->
  first_schema items = Ok (first_declared_schema items).
Proof.
  unfold first_declared_schema.
  induction items as [| [ct cd] rest IH]; simpl; [reflexivity |].
  intros H. apply andb_prop in H. destruct H as [Hcd Hrest].
  destruct cd as [| | | | | kvs]; try discriminate. simpl.
  unfold carries_schema, dict_has, lookup; simpl.
  destruct (dict_get String.eqb kvs "schema") eqn:Es; simpl.
  - cbn. unfold lookup. rewrite !Es. cbn. unfold lookup. rewrite Es. reflexivity.
  - cbn. unfold lookup. rewrite !Es. auto.
Qed.

Lemma first_declared_none (items : list (string * Json)) :
  (forall entry, In entry items -> schema_of (snd entry) = None) ->
  first_declared_schema items = JNull.
Proof.
  intros H. unfold first_declared_schema.
  destruct (find carries_schema items) as [entry |] eqn:E; [| reflexivity].
  apply find_some in E. destruct E as [Hin _]. now rewrite (H entry Hin).
Qed.

(** Whatever the content entries are, the loop under the [try] gives
    [None] or the schema that one of the entries carries. *)
Lemma first_schema_declared (items : list (string * Json)) :
  exists v,
    try_except (first_schema items) [KeyError; TypeError] (Ok JNull) = Ok v /\
    (v = JNull \/ exists entry, In entry items /\ schema_of (snd entry) = Some v).
Proof.
  induction items as [| [ct cd] rest IH]; simpl.
  - exists JNull. auto.
  - destruct IH as [v [Hv Hwhere]].
    assert (Hrest : exists v,
              try_except (first_schema rest) [KeyError; TypeError] (Ok JNull) = Ok v /\
              (v = JNull \/
               exists entry, ((ct, cd) = entry \/ In entry rest) /\
                             schema_of (snd entry) = Some v)).
    { exists v. split; [exact Hv |].
      destruct Hwhere as [-> | [entry [Hin Hs]]]; [now left |].
      right. exists entry. auto. }
    destruct cd as [| b | n | s | l | kvs]; simpl;
      try (exists JNull; auto; fail).
    + destruct (is_substring "schema" s); simpl; [exists JNull; auto | exact Hrest].
    + destruct (existsb _ l); simpl; [exists JNull; auto | exact Hrest].
    + unfold dict_has, lookup.
      destruct (dict_get String.eqb kvs "schema") as [schema |] eqn:Es; simpl.
      * exists schema. split; [reflexivity |]. right.
        exists (ct, JObj kvs). split; [now left | exact Es].
      * exact Hrest.
Qed.

(** C8 (amended).  For every document, path and method (lowered by
    [lower]): when the document has no operation at (path, method) the
    result is [None]; when the operation is a mapping without a
    [requestBody] the result is [None]; when the request body is a mapping
    whose [content] is absent or maps content types to mappings, the
    result is the schema of the first content type, in document order,
    that carries one, and [None] when none does; and when [content] is a
    mapping with entries of any kind, the result is [None] or a schema
    that one of its entries carries.  No exception comes out in these
    cases. *)
Theorem request_body_schema_first_declared (lower : string -> string)
    (spec : Json) (path method : string) :
  (operation_of spec path (lower method) = None ->
     get_request_body_schema lower spec path method = Ok JNull) /\
  (forall okvs,
     operation_of spec path (lower method) = Some (JObj okvs) ->
     lookup okvs "requestBody" = None ->
     get_request_body_schema lower spec path method = Ok JNull) /\
  (forall okvs rb,
     operation_of spec path (lower method) = Some (JObj okvs) ->
     lookup okvs "requestBody" = Some (JObj rb) ->
     content_shape rb = true ->
     get_request_body_schema lower spec path method =
       Ok (first_declared_schema (content_items (JObj rb)))) /\
  (forall okvs rb items,
     operation_of spec path (lower method) = Some (JObj okvs) ->
     lookup okvs "requestBody" = Some (JObj rb) ->
     lookup rb "content" = Some (JObj items) ->
     exists v,
       get_request_body_schema lower spec path method = Ok v /\
       (v = JNull \/
        exists entry, In entry items /\ schema_of (snd entry) = Some v)) /\
  (forall items,
     (forall entry, In entry items -> schema_of (snd entry) = None) ->
     first_declared_schema items = JNull) /\
  (forall content_type content_data schema rest,
     schema_of content_data = Some schema ->
     first_declared_schema ((content_type, content_data) :: rest) = schema).
Proof.
  unfold get_request_body_schema.
  split; [| split; [| split; [| split; [| split]]]].
  - intros H. destruct (operation_at_missing _ _ _ H) as [-> | ->]; reflexivity.
  - intros okvs Hop Hrb. rewrite (operation_at_found _ _ _ _ Hop); simpl.
    rewrite Hrb; simpl. reflexivity.
  - intros okvs rb Hop Hrb Hshape. rewrite (operation_at_found _ _ _ _ Hop); simpl.
    rewrite Hrb; simpl. unfold content_shape in Hshape.
    destruct (lookup rb "content") as [content |]; simpl; [| reflexivity].
    destruct content as [| | | | | items]; try discriminate. simpl.
    rewrite (first_schema_mappings items Hshape). reflexivity.
  - intros okvs rb items Hop Hrb Hcontent.
    rewrite (operation_at_found _ _ _ _ Hop); simpl.
    rewrite Hrb; simpl. rewrite Hcontent; simpl.
    apply first_schema_declared.
  - apply first_declared_none.
  - intros ct cd schema rest Hs. unfold first_declared_schema; simpl.
    unfold carries_schema; simpl. rewrite Hs. simpl. rewrite Hs. reflexivity.
Qed.

Lemma request_body_schema_witness :
  get_request_body_schema ascii_lower upload_doc "/upload" "POST" =
    Ok (JObj [("type", JStr "object")]) /\
  get_request_body_schema ascii_lower upload_doc "/upload" "GET" = Ok JNull /\
  get_request_body_schema ascii_lower pets_doc "/pets" "GET" = Ok JNull /\
  exists v, get_request_body_schema ascii_lower null_entry_doc "/a" "post" = Ok v.
Proof.
  split; [| split; [| split]].
  - destruct (request_body_schema_first_declared ascii_lower upload_doc
                "/upload" "POST") as [_ [_ [H _]]].
    exact (H upload_operation upload_body eq_refl eq_refl eq_refl).
  - destruct (request_body_schema_first_declared ascii_lower upload_doc
                "/upload" "GET") as [H _].
    apply H; reflexivity.
  - destruct (request_body_schema_first_declared ascii_lower pets_doc
                "/pets" "GET") as [_ [H _]].
    exact (H [("tags", JArr [JStr "pets"]); ("summary", JStr "List pets")]
             eq_refl eq_refl).
  - destruct (request_body_schema_first_declared ascii_lower null_entry_doc
                "/a" "post") as [_ [_ [_ [H _]]]].
    destruct (H _ _ _ eq_refl eq_refl eq_refl) as [v [Hv _]].
    exists v. exact Hv.
Defined.

(** C8, as stated, fails.  An operation or a [requestBody] without a
    value, or a [content] that is a list, makes the call raise
    [AttributeError], which the [except] clause does not catch, where the
    claim wants [None]; and a first content type without a value makes it
    return [None] although the second content type carries a schema. *)
Lemma request_body_counterexample :
  get_request_body_schema ascii_lower null_operation_doc "/a" "post" =
    Raise AttributeError /\
  get_request_body_schema ascii_lower null_body_doc "/a" "post" =
    Raise AttributeError /\
  get_request_body_schema ascii_lower list_content_doc "/a" "post" =
    Raise AttributeError /\
  get_request_body_schema ascii_lower null_entry_doc "/a" "post" = Ok JNull /\
  lookup_path null_entry_doc
    ["paths"; "/a"; "post"; "requestBody"; "content"; "application/json";
     "schema"] = Some json_schema.
Proof. repeat split. Qed.

(* ================================================================== *)
(** * Response schemas *)
(* ================================================================== *)

Lemma dict_set_set {V : Type} (d : list (string * V)) (k : string) (v1 v2 : V) :
  dict_set String.eqb (dict_set String.eqb d k v1) k v2 = dict_set String.eqb d k v2.
Proof.
  induction d as [| [k0 v0] d IH]; simpl.
  - rewrite String.eqb_refl. reflexivity.
  - destruct (String.eqb k0 k) eqn:E; simpl; rewrite E; [| rewrite IH]; reflexivity.
Qed.

(** The inner loop: the last schema declared under [status] is the one
    kept. *)
Lemma response_content_loop (status : string) (items : list (string * Json))
    (schemas : list (string * Json)) :
  forallb (fun entry => is_mapping (snd entry)) items = true ->
  for_each items (response_content status) schemas =
  Ok (match last_declared_schema items with
      | Some s => dict_set String.eqb schemas status s
      | None => schemas
      end).
Proof.
  revert schemas. induction items as [| [ct cd] rest IH]; intros schemas H; simpl.
  - reflexivity.
  - simpl in H. apply andb_prop in H. destruct H as [Hcd Hrest].
    destruct cd as [| | | | | kvs]; try discriminate.
    unfold response_content at 1; simpl. unfold dict_has, lookup.
    destruct (dict_get String.eqb kvs "schema") as [s |] eqn:Es; simpl.
    + rewrite (IH _ Hrest).
      destruct (last_declared_schema rest); [rewrite dict_set_set |]; reflexivity.
    + rewrite (IH _ Hrest). destruct (last_declared_schema rest); reflexivity.
Qed.

Lemma response_status_step (entry : string * Json) (schemas : list (string * Json)) :
  response_shape entry = true ->
  response_status entry schemas = Ok (record_response schemas entry).
Proof.
  destruct entry as [status response]. unfold response_shape, record_response; simpl.
  destruct response as [| | | | | kvs]; try discriminate. simpl.
  unfold content_shape.
  destruct (lookup kvs "content") as [content |]; simpl; [| reflexivity].
  destruct content as [| | | | | items]; try discriminate. simpl.
  apply response_content_loop.
Qed.

Lemma response_loop (responses : list (string * Json)) (schemas : list (string * Json)) :
  forallb response_shape responses = true ->
  for_each responses response_status schemas =
  Ok (fold_left record_response responses schemas).
Proof.
  revert schemas. induction responses as [| entry rest IH]; intros schemas H; simpl.
  - reflexivity.
  - simpl in H. apply andb_prop in H. destruct H as [He Hrest].
    rewrite (response_status_step _ _ He); simpl. apply IH; assumption.
Qed.

Lemma fresh_key_lookup (kvs : list (string * Json)) (k : string) :
  existsb (String.eqb k) (map fst kvs) = false -> lookup kvs k = None.
Proof.
  unfold lookup. induction kvs as [| [k0 v0] kvs IH]; simpl; [reflexivity |].
  intros H. apply orb_false_iff in H. destruct H as [Hk Hrest].
  rewrite String.eqb_sym, Hk. auto.
Qed.

(** With distinct status codes, each status ends with the last schema
    declared in its own response, or keeps what it had. *)
Lemma recorded_lookup (responses : list (string * Json))
    (schemas : list (string * Json)) (status : string) :
  nodup_keys (map fst responses) = true ->
  dict_get String.eqb (fold_left record_response responses schemas) status =
  match lookup responses status with
  | Some response =>
      match last_declared_schema (content_items response) with
      | Some s => Some s
      | None => dict_get String.eqb schemas status
      end
  | None => dict_get String.eqb schemas status
  end.
Proof.
  revert schemas. induction responses as [| [st response] rest IH];
    intros schemas Hnd; simpl; [reflexivity |].
  simpl in Hnd. apply andb_prop in Hnd. destruct Hnd as [Hfresh Hrest].
  apply negb_true_iff in Hfresh.
  rewrite (IH _ Hrest). unfold lookup at 2; simpl.
  destruct (String.eqb st status) eqn:E.
  - apply String.eqb_eq in E. subst st.
    rewrite (fresh_key_lookup _ _ Hfresh). unfold record_response; simpl.
    destruct (last_declared_schema (content_items response)); [| reflexivity].
    apply dict_get_set_same. apply String.eqb_refl.
  - fold (lookup rest status).
    assert (Hsame : dict_get String.eqb (record_response schemas (st, response)) status
                    = dict_get String.eqb schemas status).
    { unfold record_response; simpl.
      destruct (last_declared_schema (content_items response)); [| reflexivity].
      apply dict_get_set_other. now apply String.eqb_neq. }
    rewrite Hsame. reflexivity.
Qed.

Lemma dict_set_keys {V : Type} (d : list (string * V)) (k : string) (v : V) :
  map fst (dict_set String.eqb d k v) =
  if dict_has String.eqb d k then map fst d else map fst d ++ [k].
Proof.
  unfold dict_has. induction d as [| [k0 v0] d IH]; simpl; [reflexivity |].
  destruct (String.eqb k0 k); simpl; [reflexivity |].
  rewrite IH. destruct (dict_get String.eqb d k); reflexivity.
Qed.

Lemma nodup_keys_snoc (ks : list string) (k : string) :
  nodup_keys ks = true -> existsb (String.eqb k) ks = false ->
  nodup_keys (ks ++ [k]) = true.
Proof.
  induction ks as [| k0 ks IH]; simpl; [reflexivity |].
  intros H Hk. apply andb_prop in H. destruct H as [Hfresh Hnd].
  apply orb_false_iff in Hk. destruct Hk as [Hk0 Hk].
  rewrite existsb_app, (IH Hnd Hk). simpl.
  apply negb_true_iff in Hfresh. rewrite Hfresh, String.eqb_sym, Hk0. reflexivity.
Qed.

Lemma absent_key_fresh {V : Type} (d : list (string * V)) (k : string) :
  dict_has String.eqb d k = false -> existsb (String.eqb k) (map fst d) = false.
Proof.
  unfold dict_has. induction d as [| [k0 v0] d IH]; simpl; [reflexivity |].
  rewrite (String.eqb_sym k k0). destruct (String.eqb k0 k); [discriminate | auto].
Qed.

Lemma dict_set_nodup {V : Type} (d : list (string * V)) (k : string) (v : V) :
  nodup_keys (map fst d) = true ->
  nodup_keys (map fst (dict_set String.eqb d k v)) = true.
Proof.
  intros H. rewrite dict_set_keys.
  destruct (dict_has String.eqb d k) eqn:E; [exact H |].
  apply nodup_keys_snoc; [exact H | now apply absent_key_fresh].
Qed.

Lemma response_status_nodup (entry : string * Json) (schemas schemas' : list (string * Json)) :
  nodup_keys (map fst schemas) = true ->
  response_status entry schemas = Ok schemas' ->
  nodup_keys (map fst schemas') = true.
Proof.
  destruct entry as [status response]. unfold response_status. intros Hnd H.
  repeat bind_inv H.
  apply (for_each_inv (fun d => nodup_keys (map fst d) = true)
           (response_content status) v0) with (s := schemas); auto.
  intros x s s' _ Hs Hstep. unfold response_content in Hstep.
  destruct (py_in "schema" (snd x)) as [[|] | e]; simpl in *; try discriminate.
  - bind_inv Hstep. inversion Hstep; subst. now apply dict_set_nodup.
  - inversion Hstep; subst. assumption.
Qed.

Lemma response_schemas_nodup (lower : string -> string) (spec : Json)
    (path method : string) (schemas : list (string * Json)) :
  get_response_schemas lower spec path method = Ok schemas ->
  nodup_keys (map fst schemas) = true.
Proof.
  unfold get_response_schemas, try_except.
  match goal with |- context [match ?b with Ok _ => _ | Raise _ => _ end] =>
    destruct b as [d | e] eqn:Eb end.
  - intros H; inversion H; subst; clear H.
    repeat bind_inv Eb.
    apply (for_each_inv (fun d => nodup_keys (map fst d) = true)
             response_status v1) with (s := @nil (string * Json)); auto.
    intros x s s' _. apply response_status_nodup.
  - destruct (existsb (exn_eqb e) [KeyError; TypeError]); [| discriminate].
    intros H; inversion H; reflexivity.
Qed.

(** Nothing is recorded under a status but a schema of one of its own
    content entries. *)
Lemma response_status_declared (responses : list (string * Json))
    (entry : string * Json) (schemas schemas' : list (string * Json)) :
  In entry responses ->
  all_declared responses schemas ->
  response_status entry schemas = Ok schemas' ->
  all_declared responses schemas'.
Proof.
  destruct entry as [status response]. unfold response_status.
  intros Hin Hall H. bind_inv H. bind_inv H.
  destruct response as [| | | | | kvs]; try discriminate.
  assert (Hitems : forall x, In x v0 -> In x (content_items (JObj kvs))).
  { simpl in E. simpl. destruct (lookup kvs "content") as [content |].
    - injection E as <-. destruct content; try discriminate.
      injection E0 as <-. auto.
    - injection E as <-. injection E0 as <-. intros x []. }
  clear E E0.
  apply (for_each_inv (all_declared responses) (response_content status) v0)
    with (s := schemas); auto.
  intros x s s' Hx Hs Hstep. unfold response_content in Hstep.
  destruct (py_in "schema" (snd x)) as [[|] | e]; simpl in Hstep;
    try discriminate.
  - bind_inv Hstep. injection Hstep as <-.
    intros st schema Hget.
    destruct (string_dec status st) as [<- | Hne].
    + rewrite dict_get_set_same in Hget by apply String.eqb_refl.
      injection Hget as <-.
      exists (JObj kvs), x. split; [exact Hin |]. split; [auto |].
      destruct (snd x) as [| | | | | cd]; try discriminate.
      simpl in E. simpl. destruct (lookup cd "schema"); [| discriminate].
      injection E as <-. reflexivity.
    + rewrite dict_get_set_other in Hget by exact Hne. apply (Hs st schema Hget).
  - injection Hstep as <-. exact Hs.
Qed.

(** C10 (amended).  For every document, path and method (lowered by
    [lower]): when the document has no operation at (path, method), in
    particular when the path item is not a mapping, the result is the
    empty mapping and nothing is raised; every mapping returned has
    pairwise distinct status codes, so one schema per status, and each
    schema in it is carried by a content entry of a response declared
    under its status; and when the [responses] of the operation map
    distinct status codes to mappings whose [content] is absent or maps
    content types to mappings, the function returns, a status is in the
    result exactly when one of its content types carries a schema, and
    its schema is then that of the last such content type in document
    order. *)
Theorem response_schemas_last_declared (lower : string -> string)
    (spec : Json) (path method : string) :
  (operation_of spec path (lower method) = None ->
     get_response_schemas lower spec path method = Ok []) /\
  (forall path_item,
     lookup_path spec ["paths"; path] = Some path_item ->
     is_mapping path_item = false ->
     get_response_schemas lower spec path method = Ok []) /\
  (forall schemas,
     get_response_schemas lower spec path method = Ok schemas ->
     nodup_keys (map fst schemas) = true) /\
  (forall okvs responses schemas,
     operation_of spec path (lower method) = Some (JObj okvs) ->
     lookup okvs "responses" = Some (JObj responses) ->
     get_response_schemas lower spec path method = Ok schemas ->
     forall status schema,
       dict_get String.eqb schemas status = Some schema ->
       declared_under responses status schema) /\
  (forall okvs responses,
     operation_of spec path (lower method) = Some (JObj okvs) ->
     lookup okvs "responses" = Some (JObj responses) ->
     nodup_keys (map fst responses) = true ->
     forallb response_shape responses = true ->
     exists schemas,
       get_response_schemas lower spec path method = Ok schemas /\
       forall status,
         dict_get String.eqb schemas status =
         match lookup responses status with
         | Some response => last_declared_schema (content_items response)
         | None => None
         end) /\
  (forall entry rest schema,
     last_declared_schema rest = Some schema ->
     last_declared_schema (entry :: rest) = Some schema).
Proof.
  assert (Hmissing : operation_of spec path (lower method) = None ->
                     get_response_schemas lower spec path method = Ok []).
  { intros H. unfold get_response_schemas.
    destruct (operation_at_missing _ _ _ H) as [-> | ->]; reflexivity. }
  split; [exact Hmissing |].
  split; [| split; [| split; [| split]]].
  - intros path_item Hitem Hnot. apply Hmissing.
    unfold operation_of. simpl in *.
    destruct spec as [| | | | | kvs]; try reflexivity.
    destruct (lookup kvs "paths") as [paths |]; [| reflexivity].
    destruct paths as [| | | | | items]; try reflexivity.
    destruct (lookup items path) as [pi |]; [| reflexivity].
    inversion Hitem; subst. destruct path_item; try reflexivity. discriminate.
  - apply response_schemas_nodup.
  - intros okvs responses schemas Hop Hresp. unfold get_response_schemas.
    rewrite (operation_at_found _ _ _ _ Hop); simpl. rewrite Hresp; simpl.
    destruct (for_each responses response_status []) as [d | e] eqn:Eloop;
      simpl.
    + intros H. injection H as <-.
      apply (for_each_inv (all_declared responses) response_status responses)
        with (s := @nil (string * Json)) (s' := d); auto.
      * intros x s s' Hx. now apply response_status_declared.
      * intros status schema Hget. discriminate.
    + destruct e; simpl; intros H; try discriminate; injection H as <-;
        intros status schema Hget; discriminate.
  - intros okvs responses Hop Hresp Hnd Hshape.
    exists (fold_left record_response responses []).
    unfold get_response_schemas.
    rewrite (operation_at_found _ _ _ _ Hop); simpl. rewrite Hresp; simpl.
    rewrite (response_loop _ _ Hshape); simpl.
    split; [reflexivity |].
    intros status. rewrite (recorded_lookup _ _ _ Hnd); simpl.
    destruct (lookup responses status) as [response |]; [| reflexivity].
    destruct (last_declared_schema (content_items response)); reflexivity.
  - intros entry rest schema H. simpl. rewrite H. reflexivity.
Qed.

Lemma response_schemas_witness :
  (exists schemas,
     get_response_schemas ascii_lower upload_doc "/upload" "POST" = Ok schemas /\
     dict_get String.eqb schemas "200" = Some (JObj [("type", JStr "string")]) /\
     dict_get String.eqb schemas "204" = None /\
     nodup_keys (map fst schemas) = true /\
     declared_under upload_responses "200" (JObj [("type", JStr "string")])) /\
  get_response_schemas ascii_lower upload_doc "/missing" "POST" = Ok [].
Proof.
  destruct (response_schemas_last_declared ascii_lower upload_doc
              "/upload" "POST") as [_ [_ [Hnd [Hfrom [H _]]]]].
  destruct (response_schemas_last_declared ascii_lower upload_doc
              "/missing" "POST") as [Hmiss _].
  split; [| apply Hmiss; reflexivity].
  destruct (H upload_operation upload_responses eq_refl eq_refl eq_refl eq_refl)
    as [schemas [Hs Hget]].
  exists schemas. split; [exact Hs |].
  split; [rewrite Hget; reflexivity |].
  split; [rewrite Hget; reflexivity |].
  split; [apply Hnd; exact Hs |].
  apply (Hfrom upload_operation upload_responses schemas eq_refl eq_refl Hs).
  rewrite Hget. reflexivity.
Defined.

(** C10, as stated, fails.  When a [404] response without a value
    follows a [200] response with a schema, the call raises
    [AttributeError], which the [except] clause does not catch.  When the
    [404] response has a content entry that is a list holding the word
    [schema], the [TypeError] of indexing it is caught and the call
    returns the empty mapping: the schema recorded for [200] is lost. *)
Lemma response_schemas_counterexample :
  get_response_schemas ascii_lower null_response_doc "/a" "post" =
    Raise AttributeError /\
  get_response_schemas ascii_lower list_entry_doc "/a" "post" = Ok [] /\
  lookup_path list_entry_doc
    ["paths"; "/a"; "post"; "responses"; "200"; "content"; "application/json";
     "schema"] = Some json_schema.
Proof. repeat split. Qed.

(* ================================================================== *)
(** * Postman collection *)
(* ================================================================== *)

Lemma postman_method_five (path : string) (path_item : Json) (method : string)
    (items items' : list PostmanItem) :
  In method POSTMAN_METHODS ->
  Forall (fun it => In (pi_method it) (map upper POSTMAN_METHODS)) items ->
  postman_method path path_item method items = Ok items' ->
  Forall (fun it => In (pi_method it) (map upper POSTMAN_METHODS)) items'.
Proof.
  intros Hm Hall H. unfold postman_method in H.
  destruct (py_in method path_item) as [[|] | e]; simpl in H; try discriminate.
  - repeat bind_inv H. inversion H; subst; clear H.
    apply Forall_app. split; [exact Hall |].
    constructor; [| constructor]. cbn [pi_method]. now apply in_map.
  - inversion H; subst. exact Hall.
Qed.

(** Whatever the document, the requests of the collection use the five
    methods of the exporter's own list: none is a [HEAD] or an [OPTIONS]
    request. *)
Lemma postman_items_five (spec : Json) (c : Collection) :
  generate_postman_collection spec = Ok c ->
  Forall (fun it => In (pi_method it) ["GET"; "POST"; "PUT"; "DELETE"; "PATCH"])
    (col_item c).
Proof.
  unfold generate_postman_collection. intros H.
  repeat bind_inv H. inversion H; subst; clear H. cbn [col_item].
  change ["GET"; "POST"; "PUT"; "DELETE"; "PATCH"] with (map upper POSTMAN_METHODS).
  apply (for_each_inv
           (Forall (fun it => In (pi_method it) (map upper POSTMAN_METHODS)))
           postman_path v6) with (s := @nil PostmanItem); auto.
  intros x s s' _ Hs Hstep. unfold postman_path in Hstep.
  apply (for_each_inv
           (Forall (fun it => In (pi_method it) (map upper POSTMAN_METHODS)))
           (postman_method (fst x) (snd x)) POSTMAN_METHODS) with (s := s); auto.
  intros m a b Hm Ha. now apply postman_method_five.
Qed.

(** C6, at the failing input: the document declares one server and the
    path [/a] with a [get] and a [head], neither with a summary.  The
    listing has both endpoints; the collection has the [base_url]
    variable and the item [GET /a], named by the fallback, and no item for
    [head]. *)
Theorem postman_omits_head :
  (exists c, generate_postman_collection head_doc = Ok c /\
             map pi_method (col_item c) = ["GET"] /\
             map pi_name (col_item c) = [JStr "GET /a"] /\
             col_variable c = [("base_url", JStr "https://api.example.com")]) /\
  (exists endpoints, list_all_endpoints head_doc = Ok endpoints /\
                     map ep_method endpoints = ["GET"; "HEAD"]).
Proof.
  split; eexists; repeat split.
Qed.

(* ================================================================== *)
(** * Counting extracted endpoints *)
(* ================================================================== *)

Lemma dict_has_In {V : Type} (d : list (string * V)) (k : string) :
  dict_has String.eqb d k = true -> In k (map fst d).
Proof.
  unfold dict_has. induction d as [| [k0 v0] d IH]; simpl; [discriminate |].
  destruct (String.eqb k0 k) eqn:E.
  - apply String.eqb_eq in E. auto.
  - auto.
Qed.

Lemma fresh_not_In (ks : list string) (k : string) :
  existsb (String.eqb k) ks = false -> ~ In k ks.
Proof.
  intros H Hin. assert (existsb (String.eqb k) ks = true); [| congruence].
  apply existsb_exists. exists k. split; [assumption | apply String.eqb_refl].
Qed.

Lemma METHODS_NoDup : NoDup METHODS.
Proof. unfold METHODS. repeat constructor; simpl; intuition discriminate. Qed.

(** One path item: the count of [get_statistics] and the size of the
    mapping of [extract_endpoints] grow together, every new key being
    new. *)
Lemma extract_methods_count (path : string) (path_item : Json)
    (processed : list string) :
  ~ In path processed ->
  forall (ms done : list string) (c : Counters) (ex : list (string * Extracted))
         (c' : Counters),
    NoDup ms ->
    (forall m, In m ms -> In m METHODS /\ ~ In m done) ->
    endpoints_count c = length ex ->
    keys_from processed path done ex ->
    for_each ms (stats_method path_item) c = Ok c' ->
    exists ex',
      for_each ms (extract_method path path_item) ex = Ok ex' /\
      endpoints_count c' = length ex' /\
      keys_from processed path (done ++ ms) ex'.
Proof.
  intros Hpath. induction ms as [| m ms IH]; intros done c ex c' Hnd Hms Hlen Hkeys H.
  - simpl in H. inversion H; subst. rewrite app_nil_r.
    exists ex. simpl. auto.
  - simpl in H. bind_inv H. inversion Hnd as [| ? ? Hm Hnd']; subst.
    destruct (Hms m (or_introl eq_refl)) as [HmM Hmdone].
    assert (Hstep : exists ex1,
              extract_method path path_item m ex = Ok ex1 /\
              endpoints_count v = length ex1 /\
              keys_from processed path (done ++ [m]) ex1).
    { unfold stats_method in E. unfold extract_method.
      destruct (py_in m path_item) as [[|] | e]; simpl in *; try discriminate.
      - destruct (py_getitem path_item m) as [operation | e]; simpl in *;
          try discriminate.
        destruct operation as [| | | | | okvs]; simpl in *; try discriminate.
        repeat bind_inv E. inversion E; subst; clear E. simpl.
        eexists; split; [reflexivity |].
        assert (Hfresh : dict_has String.eqb ex (endpoint_key m path) = false).
        { destruct (dict_has String.eqb ex (endpoint_key m path)) eqn:Eh; auto.
          apply dict_has_In in Eh. destruct (Hkeys _ Eh) as [m' [p' [Hk [Hm' Hp']]]].
          apply endpoint_key_inj in Hk; auto. destruct Hk as [-> ->].
          destruct Hp' as [Hp' | [_ Hd]]; contradiction. }
        split.
        + rewrite <- (length_map fst (dict_set _ _ _ _)), dict_set_keys, Hfresh.
          rewrite length_app, length_map. simpl. lia.
        + intros k Hk. rewrite dict_set_keys, Hfresh in Hk.
          apply in_app_or in Hk. destruct Hk as [Hk | [<- | []]].
          * destruct (Hkeys k Hk) as [m' [p' [-> [Hm' Hp']]]].
            exists m', p'. repeat split; auto.
            destruct Hp' as [Hp' | [-> Hd]]; auto.
            right. split; auto. apply in_or_app. auto.
          * exists m, path. repeat split; auto.
            right. split; auto. apply in_or_app. right. now left.
      - inversion E; subst. eexists; split; [reflexivity |]. split; [assumption |].
        intros k Hk. destruct (Hkeys k Hk) as [m' [p' [-> [Hm' Hp']]]].
        exists m', p'. repeat split; auto.
        destruct Hp' as [Hp' | [-> Hd]]; auto.
        right. split; auto. apply in_or_app. auto. }
    destruct Hstep as [ex1 [Hex1 [Hlen1 Hkeys1]]].
    destruct (IH (done ++ [m]) v ex1 c' Hnd') as [ex' [Hex' [Hlen' Hkeys']]]; auto.
    + intros m' Hm'. split; [apply Hms; now right |].
      intros Hin. apply in_app_or in Hin. destruct Hin as [Hin | [<- | []]].
      * destruct (Hms m' (or_intror Hm')) as [_ Hnot]. contradiction.
      * contradiction.
    + exists ex'. simpl. rewrite Hex1; simpl. split; [exact Hex' |].
      split; [exact Hlen' |]. rewrite <- app_assoc in Hkeys'. exact Hkeys'.
Qed.

Lemma extract_paths_count (items : list (string * Json)) :
  forall (processed : list string) (c : Counters) (ex : list (string * Extracted))
         (c' : Counters),
    nodup_keys (map fst items) = true ->
    (forall p, In p (map fst items) -> ~ In p processed) ->
    endpoints_count c = length ex ->
    keys_from processed "" [] ex ->
    for_each items stats_path c = Ok c' ->
    exists ex',
      for_each items extract_path ex = Ok ex' /\ endpoints_count c' = length ex'.
Proof.
  induction items as [| [p pi] rest IH]; intros processed c ex c' Hnd Hnew Hlen Hkeys H.
  - simpl in H. inversion H; subst. exists ex. simpl. auto.
  - simpl in H. bind_inv H. simpl in Hnd. apply andb_prop in Hnd.
    destruct Hnd as [Hfresh Hnd]. apply negb_true_iff in Hfresh.
    unfold stats_path in E; simpl in E.
    destruct (extract_methods_count p pi processed (Hnew p (or_introl eq_refl))
                METHODS [] c ex v METHODS_NoDup) as [ex1 [Hex1 [Hlen1 Hkeys1]]]; auto.
    { intros k Hk. destruct (Hkeys k Hk) as [m' [p' [-> [Hm' Hp']]]].
      exists m', p'. repeat split; auto. destruct Hp' as [Hp' | [_ []]]. auto. }
    destruct (IH (p :: processed) v ex1 c' Hnd) as [ex' [Hex' Hlen']]; auto.
    + intros q Hq [<- | Hin].
      * apply (fresh_not_In _ _ Hfresh). exact Hq.
      * apply (Hnew q); [now right | exact Hin].
    + intros k Hk. destruct (Hkeys1 k Hk) as [m' [p' [-> [Hm' Hp']]]].
      exists m', p'. repeat split; auto. left.
      destruct Hp' as [Hp' | [-> _]]; [now right | now left].
    + exists ex'.
      change (for_each ((p, pi) :: rest) extract_path ex)
        with (bind (for_each METHODS (extract_method p pi) ex)
                (fun s' => for_each rest extract_path s')).
      rewrite Hex1. simpl. auto.
Qed.

(** In a document with distinct keys, [extract_endpoints] holds as many
    endpoints as [get_statistics] counts. *)
Lemma extraction_count (spec : Json) (st : Statistics) :
  wf_json spec = true ->
  get_statistics spec = Ok st ->
  exists ex, extract_endpoints spec = Ok ex /\
             length ex = stat_total_endpoints st.
Proof.
  intros Hwf H. unfold get_statistics in H. unfold extract_endpoints.
  destruct spec as [| | | | | kvs]; try discriminate. simpl in *.
  assert (Hnd : forall items,
            match lookup kvs "paths" with Some v => v | None => JObj [] end = JObj items ->
            nodup_keys (map fst items) = true).
  { intros items Hi. destruct (lookup kvs "paths") as [paths |] eqn:Hp.
    - subst paths. pose proof (wf_json_child _ _ _ Hwf Hp) as Hw. simpl in Hw.
      apply andb_prop in Hw. tauto.
    - inversion Hi; subst. reflexivity. }
  destruct (match lookup kvs "paths" with Some v => v | None => JObj [] end)
    as [| | | | | items]; simpl in *; try discriminate.
  bind_inv H.
  assert (Hnone : keys_from [] "" [] (@nil (string * Extracted)))
    by (intros k []).
  destruct (extract_paths_count items []
              {| endpoints_count := 0; methods_count := []; tags_count := [] |}
              [] v (Hnd items eq_refl)
              (fun p _ Hin => Hin) eq_refl Hnone E) as [ex [Hex Hlen]].
  repeat bind_inv H. inversion H; subst; clear H. simpl. eauto.
Qed.

(** C1.  On every document of the expected shape [get_statistics]
    returns.  Whenever it returns, on any document at all,
    [list_all_endpoints] returns too, the per-method counts of the
    statistics add up to [total_endpoints], and [total_endpoints] is the
    number of endpoints listed; and when the keys of the document are
    distinct, as they are in a parsed document, [extract_endpoints]
    returns too and holds that many endpoints. *)
Theorem statistics_consistent_with_extraction (spec : Json) :
  (document_shape spec = true -> exists st, get_statistics spec = Ok st) /\
  (forall st, get_statistics spec = Ok st ->
     exists endpoints,
       list_all_endpoints spec = Ok endpoints /\
       values_sum (stat_methods st) = stat_total_endpoints st /\
       stat_total_endpoints st = length endpoints) /\
  (wf_json spec = true ->
   forall st, get_statistics spec = Ok st ->
     exists ex,
       extract_endpoints spec = Ok ex /\
       length ex = stat_total_endpoints st).
Proof.
  split; [apply statistics_total |].
  split; [apply statistics_agree |].
  intros Hwf st. now apply extraction_count.
Qed.

Lemma statistics_consistent_witness :
  exists st endpoints ex,
    get_statistics pets_doc = Ok st /\
    list_all_endpoints pets_doc = Ok endpoints /\
    extract_endpoints pets_doc = Ok ex /\
    values_sum (stat_methods st) = stat_total_endpoints st /\
    stat_total_endpoints st = length endpoints /\
    length ex = stat_total_endpoints st.
Proof.
  destruct (statistics_consistent_with_extraction pets_doc)
    as [Htotal [Hagree Hextract]].
  destruct (Htotal eq_refl) as [st Hst].
  destruct (Hagree st Hst) as [endpoints [Heps [Hsum Hlen]]].
  destruct (Hextract eq_refl st Hst) as [ex [Hex Hcount]].
  exists st, endpoints, ex. auto 10.
Defined.

(* ================================================================== *)
(** * Finding endpoints by method *)
(* ================================================================== *)

Lemma upper_inj_methods (m m' : string) :
  In m METHODS -> In m' METHODS -> upper m = upper m' -> m = m'.
Proof.
  intros Hm Hm' H.
  destruct (endpoint_key_inj m m' "" "" Hm Hm') as [E _]; auto.
  unfold endpoint_key. now rewrite H.
Qed.

Lemma has_method_other (m x : string) (e : Endpoint) :
  In m METHODS -> In x METHODS -> x <> m -> ep_method e = upper x ->
  has_method m e = false.
Proof.
  intros Hm Hx Hne He. unfold has_method. rewrite He.
  apply String.eqb_neq. intros H. apply Hne. now apply upper_inj_methods.
Qed.

(** What one step of the listing loop appends. *)
Lemma list_method_appends (path : string) (path_item : Json) (method : string)
    (endpoints endpoints' : list Endpoint) :
  list_method path path_item method endpoints = Ok endpoints' ->
  exists new,
    list_method path path_item method [] = Ok new /\
    endpoints' = endpoints ++ new /\
    Forall (fun e => ep_method e = upper method /\ ep_path e = path) new.
Proof.
  unfold list_method. intros H.
  destruct (py_in method path_item) as [[|] | e]; simpl in *; try discriminate.
  - repeat bind_inv H. inversion H; subst; clear H.
    rewrite E; simpl. rewrite E0; simpl. rewrite E1; simpl. rewrite E2; simpl.
    eexists; split; [reflexivity |]. split; [reflexivity |].
    constructor; [simpl; auto | constructor].
  - inversion H; subst. exists []. rewrite app_nil_r. auto.
Qed.

Lemma filter_all {A : Type} (f : A -> bool) (l : list A) :
  Forall (fun x => f x = true) l -> filter f l = l.
Proof.
  induction 1 as [| x l Hx _ IH]; simpl; [reflexivity |].
  rewrite Hx, IH. reflexivity.
Qed.

Lemma filter_none {A : Type} (f : A -> bool) (l : list A) :
  Forall (fun x => f x = false) l -> filter f l = [].
Proof.
  induction 1 as [| x l Hx _ IH]; simpl; [reflexivity |].
  rewrite Hx, IH. reflexivity.
Qed.

(** Through the methods of one path item, the endpoints with method [m]
    grow by what the step for [m] appends, and by nothing else. *)
Lemma list_methods_filter (path : string) (path_item : Json) (m : string) :
  In m METHODS ->
  forall (ms : list string) (endpoints endpoints' : list Endpoint),
    (forall x, In x ms -> In x METHODS) -> NoDup ms ->
    for_each ms (list_method path path_item) endpoints = Ok endpoints' ->
    (In m ms ->
       exists new, list_method path path_item m [] = Ok new /\
         filter (has_method m) endpoints' = filter (has_method m) endpoints ++ new) /\
    (~ In m ms ->
       filter (has_method m) endpoints' = filter (has_method m) endpoints).
Proof.
  intros Hm. induction ms as [| x ms IH]; intros eps eps' Hall Hnd H.
  - simpl in H. inversion H; subst. split; [intros [] | reflexivity].
  - simpl in H. bind_inv H. inversion Hnd as [| ? ? Hx Hnd']; subst.
    destruct (list_method_appends _ _ _ _ _ E) as [new [Hnew [-> Hall_new]]].
    destruct (IH _ _ (fun y Hy => Hall y (or_intror Hy)) Hnd' H) as [IHin IHout].
    rewrite filter_app in IHin, IHout.
    destruct (string_dec x m) as [-> | Hne].
    + assert (Hkeep : filter (has_method m) new = new).
      { apply filter_all. eapply Forall_impl; [| exact Hall_new].
        intros e [He _]. unfold has_method. rewrite He. apply String.eqb_refl. }
      rewrite Hkeep in IHout. split.
      * intros _. exists new. split; [exact Hnew | now apply IHout].
      * intros Hout. exfalso. apply Hout. now left.
    + assert (Hdrop : filter (has_method m) new = []).
      { apply filter_none. eapply Forall_impl; [| exact Hall_new].
        intros e [He _]. apply (has_method_other m x); auto.
        apply Hall. now left. }
      rewrite Hdrop, app_nil_r in IHin, IHout. split.
      * intros [Heq | Hin]; [contradiction | auto].
      * intros Hout. apply IHout. intros Hin. apply Hout. now right.
Qed.

Lemma by_method_follows (upper_of : string -> string) (path : string)
    (path_item : Json) (m : string) (new : list Endpoint)
    (found : list MethodEndpoint) :
  list_method path path_item m [] = Ok new ->
  exists fnew,
    by_method_path upper_of m (path, path_item) found = Ok (found ++ fnew) /\
    map found_fields fnew = map listed_fields new /\
    Forall (fun e => me_method e = upper_of m) fnew.
Proof.
  unfold list_method, by_method_path. intros H.
  destruct (py_in m path_item) as [[|] | e]; simpl in *; try discriminate.
  - repeat bind_inv H. inversion H; subst; clear H.
    rewrite E; simpl. rewrite E0; simpl. rewrite E1; simpl.
    eexists; split; [reflexivity |].
    split; [reflexivity | repeat constructor].
  - inversion H; subst. exists []. rewrite app_nil_r. repeat split; constructor.
Qed.

Lemma by_method_path_sim (upper_of : string -> string) (m : string)
    (item : string * Json) (endpoints : list Endpoint)
    (found : list MethodEndpoint) (endpoints' : list Endpoint) :
  In m METHODS ->
  found_of m endpoints found /\ Forall (fun e => me_method e = upper_of m) found ->
  list_path item endpoints = Ok endpoints' ->
  exists found',
    by_method_path upper_of m item found = Ok found' /\
    found_of m endpoints' found' /\
    Forall (fun e => me_method e = upper_of m) found'.
Proof.
  intros Hm [HR Hmeth] H. destruct item as [path path_item].
  unfold list_path in H; simpl in H.
  destruct (list_methods_filter path path_item m Hm METHODS _ _
              (fun x Hx => Hx) METHODS_NoDup H) as [Hin _].
  destruct (Hin Hm) as [new [Hnew Hfilter]].
  destruct (by_method_follows upper_of path path_item m new found Hnew)
    as [fnew [Hf [Hfields Hall]]].
  exists (found ++ fnew). split; [exact Hf |]. split.
  - unfold found_of in *. rewrite Hfilter, !map_app, HR, Hfields. reflexivity.
  - apply Forall_app. auto.
Qed.

Lemma by_method_of_collected (lower upper_of : string -> string)
    (spec : Json) (method : string) (collected : list Endpoint) :
  In (lower method) METHODS ->
  collect_endpoints spec = Ok collected ->
  exists found,
    find_endpoints_by_method lower upper_of spec method = Ok found /\
    map found_fields found =
      map listed_fields (filter (has_method (lower method)) collected) /\
    Forall (fun e => me_method e = upper_of (lower method)) found.
Proof.
  intros Hm H. unfold collect_endpoints in H. unfold find_endpoints_by_method.
  destruct (py_get spec "paths" (JObj [])) as [paths | e]; simpl in *;
    try discriminate.
  destruct (py_items paths) as [items | e]; simpl in *; try discriminate.
  destruct (for_each_sim
              (fun eps found => found_of (lower method) eps found /\
                 Forall (fun e => me_method e = upper_of (lower method)) found)
              list_path (by_method_path upper_of (lower method)) items)
    with (s := @nil Endpoint) (t := @nil MethodEndpoint) (s' := collected)
    as [found [Hfound [HR Hall]]]; auto.
  - intros it s t s' _ HR Hs.
    apply (by_method_path_sim upper_of (lower method) it s t s'); assumption.
  - split; [reflexivity | constructor].
  - exists found. auto.
Qed.

(** X1.  Whenever the endpoints of a document can be collected,
    [find_endpoints_by_method] returns for each of the seven methods, in
    any letter case, and finds exactly the collected endpoints of that
    method, in document order, with their path, summary and tags; each
    carries the method in upper case. *)
Theorem by_method_matches_listing (lower upper_of : string -> string)
    (spec : Json) (method : string) (collected : list Endpoint) :
  In (lower method) METHODS ->
  collect_endpoints spec = Ok collected ->
  exists found,
    find_endpoints_by_method lower upper_of spec method = Ok found /\
    map found_fields found =
      map listed_fields (filter (has_method (lower method)) collected) /\
    Forall (fun e => me_method e = upper_of (lower method)) found.
Proof. apply by_method_of_collected. Qed.

Lemma by_method_matches_listing_witness :
  exists found,
    find_endpoints_by_method ascii_lower upper pets_doc "GET" = Ok found /\
    map found_fields found = [("/pets", JStr "List pets", JArr [JStr "pets"])] /\
    Forall (fun e => me_method e = "GET") found.
Proof.
  destruct (by_method_matches_listing ascii_lower upper pets_doc "GET"
              [{| ep_method := "GET"; ep_path := "/pets";
                  ep_summary := JStr "List pets";
                  ep_tags := JArr [JStr "pets"]; ep_deprecated := JBool false |};
               {| ep_method := "POST"; ep_path := "/pets"; ep_summary := JStr "";
                  ep_tags := JArr [JStr "pets"]; ep_deprecated := JBool false |}])
    as [found [Hf [Hfields Hall]]];
    [simpl; auto | reflexivity |].
  exists found. auto.
Defined.

Lemma get_default_set_same {V : Type} (d : list (string * V)) (k : string) (v dflt : V) :
  dict_get_default String.eqb (dict_set String.eqb d k v) k dflt = v.
Proof.
  unfold dict_get_default. rewrite dict_get_set_same; [reflexivity |].
  apply String.eqb_refl.
Qed.

Lemma get_default_set_other {V : Type} (d : list (string * V)) (k k' : string)
    (v dflt : V) :
  k' <> k ->
  dict_get_default String.eqb (dict_set String.eqb d k' v) k dflt =
  dict_get_default String.eqb d k dflt.
Proof.
  intros H. unfold dict_get_default. now rewrite dict_get_set_other.
Qed.

Lemma stats_method_counted (path : string) (path_item : Json) (x : string)
    (c : Counters) (endpoints : list Endpoint) (c' : Counters) :
  In x METHODS ->
  methods_counted c endpoints ->
  stats_method path_item x c = Ok c' ->
  exists endpoints',
    list_method path path_item x endpoints = Ok endpoints' /\
    methods_counted c' endpoints'.
Proof.
  intros Hx HR H. unfold stats_method in H. unfold list_method.
  destruct (py_in x path_item) as [[|] | e]; simpl in *; try discriminate.
  - destruct (py_getitem path_item x) as [operation | e]; simpl in *;
      try discriminate.
    destruct operation; simpl in *; try discriminate.
    bind_inv H. bind_inv H. inversion H; subst; clear H.
    eexists; split; [reflexivity |].
    intros m Hm. simpl. rewrite filter_app, length_app. simpl.
    destruct (string_dec x m) as [-> | Hne].
    + rewrite get_default_set_same. unfold has_method at 2; simpl.
      rewrite String.eqb_refl. simpl. rewrite (HR m Hm). reflexivity.
    + rewrite get_default_set_other by assumption.
      rewrite (has_method_other m x); auto. simpl. rewrite (HR m Hm). lia.
  - inversion H; subst. eexists; split; [reflexivity | assumption].
Qed.

Lemma statistics_collect (spec : Json) (st : Statistics) :
  get_statistics spec = Ok st ->
  exists collected,
    collect_endpoints spec = Ok collected /\
    forall m, In m METHODS ->
      dict_get_default String.eqb (stat_methods st) m 0 =
      length (filter (has_method m) collected).
Proof.
  unfold get_statistics, collect_endpoints. intros H.
  destruct (py_get spec "paths" (JObj [])) as [paths | e]; simpl in *;
    try discriminate.
  destruct (py_items paths) as [items | e]; simpl in *; try discriminate.
  bind_inv H.
  destruct (for_each_sim methods_counted stats_path list_path items)
    with (s := {| endpoints_count := 0; methods_count := []; tags_count := [] |})
         (t := @nil Endpoint) (s' := v) as [collected [Hc HR]]; auto.
  - intros it s t s' _ HR Hs. unfold stats_path in Hs. unfold list_path.
    apply (for_each_sim methods_counted (stats_method (snd it))
             (list_method (fst it) (snd it)) METHODS) with (s := s); auto.
    intros x a b a' Hx. now apply stats_method_counted.
  - intros m _. reflexivity.
  - repeat bind_inv H. inversion H; subst; clear H. simpl. eauto.
Qed.

(** X2.  Whenever [get_statistics] returns, [find_endpoints_by_method]
    returns for each of the seven methods, and the statistics' count for
    the method (zero when the method has no entry) is the number of
    endpoints found. *)
Theorem method_count_matches_query (lower upper_of : string -> string)
    (spec : Json) (method : string) (st : Statistics) :
  In (lower method) METHODS ->
  get_statistics spec = Ok st ->
  exists found,
    find_endpoints_by_method lower upper_of spec method = Ok found /\
    length found =
      dict_get_default String.eqb (stat_methods st) (lower method) 0.
Proof.
  intros Hm Hst.
  destruct (statistics_collect spec st Hst) as [collected [Hc Hcount]].
  destruct (by_method_of_collected lower upper_of spec method collected Hm Hc)
    as [found [Hf [Hfields _]]].
  exists found. split; [exact Hf |].
  rewrite (Hcount _ Hm), <- (length_map listed_fields), <- Hfields, length_map.
  reflexivity.
Qed.

Lemma method_count_matches_query_witness :
  exists st found,
    get_statistics pets_doc = Ok st /\
    find_endpoints_by_method ascii_lower upper pets_doc "Post" = Ok found /\
    length found = 1.
Proof.
  destruct (statistics_total pets_doc eq_refl) as [st Hst].
  destruct (method_count_matches_query ascii_lower upper pets_doc "Post" st)
    as [found [Hf Hlen]]; [simpl; auto | exact Hst |].
  exists st, found. split; [exact Hst |]. split; [exact Hf |].
  rewrite Hlen.
  assert (Hv : get_statistics pets_doc =
               Ok {| stat_title := JStr "T"; stat_version := JStr "1";
                     stat_total_endpoints := 2;
                     stat_methods := [("get", 1); ("post", 1)];
                     stat_tags := [(JStr "pets", 2)];
                     stat_schemas := 0; stat_security_schemes := 0 |})
    by reflexivity.
  rewrite Hv in Hst. inversion Hst; subst. reflexivity.
Defined.

(* ================================================================== *)
(** * Components, validity and statistics *)
(* ================================================================== *)

(** X3.  Whenever [get_statistics] returns, [get_all_schemas] and
    [get_security_schemes] return too, and the [schemas] and
    [security_schemes] counts of the statistics are the lengths of what
    they return. *)
Theorem statistics_count_components (spec : Json) (st : Statistics) :
  get_statistics spec = Ok st ->
  exists schemas schemes,
    get_all_schemas spec = Ok schemas /\
    py_len schemas = Ok (stat_schemas st) /\
    get_security_schemes spec = Ok schemes /\
    py_len schemes = Ok (stat_security_schemes st).
Proof.
  unfold get_statistics, get_all_schemas, get_security_schemes. intros H.
  repeat bind_inv H. inversion H; subst; clear H. simpl.
  rewrite E2; simpl. exists v7, v9. auto.
Qed.

Lemma statistics_count_components_witness :
  exists st schemas schemes,
    get_statistics cycle_doc = Ok st /\
    get_all_schemas cycle_doc = Ok schemas /\
    py_len schemas = Ok (stat_schemas st) /\
    get_security_schemes cycle_doc = Ok schemes /\
    py_len schemes = Ok (stat_security_schemes st).
Proof.
  destruct (statistics_total cycle_doc eq_refl) as [st Hst].
  destruct (statistics_count_components cycle_doc st Hst)
    as [schemas [schemes H]].
  exists st, schemas, schemes. tauto.
Defined.

Lemma valid_mapping_info (kvs : list (string * Json)) (errors : list string) :
  is_valid_openapi (JObj kvs) = Ok (true, errors) ->
  exists info title version,
    lookup kvs "info" = Some (JObj info) /\
    lookup info "title" = Some title /\
    lookup info "version" = Some version.
Proof.
  rewrite is_valid_openapi_mapping. intros H. injection H as Hlen _.
  apply Nat.eqb_eq in Hlen. apply length_zero_iff_nil in Hlen.
  unfold expected_errors in Hlen.
  apply app_eq_nil in Hlen. destruct Hlen as [_ Hlen].
  apply app_eq_nil in Hlen. destruct Hlen as [Hinfo _].
  unfold info_errors in Hinfo.
  destruct (lookup kvs "info") as [info |]; [| discriminate].
  destruct info as [| | | | | ikvs]; try discriminate.
  unfold has_key, dict_has in Hinfo. fold (lookup ikvs "title") in Hinfo.
  fold (lookup ikvs "version") in Hinfo.
  destruct (lookup ikvs "title") as [title |] eqn:Ht; [| discriminate].
  destruct (lookup ikvs "version") as [version |] eqn:Hv; [| discriminate].
  exists ikvs, title, version. auto.
Qed.

(** X4.  A tree that [is_valid_openapi] accepts is a mapping whose [info]
    is a mapping with a [title] and a [version]; and whenever
    [get_statistics] returns on it, the statistics carry that title and
    that version, not the [Unknown] default. *)
Theorem valid_document_statistics (spec : Json) (errors : list string) :
  is_valid_openapi spec = Ok (true, errors) ->
  exists kvs info title version,
    spec = JObj kvs /\
    lookup kvs "info" = Some (JObj info) /\
    lookup info "title" = Some title /\
    lookup info "version" = Some version /\
    forall st, get_statistics spec = Ok st ->
      stat_title st = title /\ stat_version st = version.
Proof.
  intros H.
  assert (Hmap : exists kvs, spec = JObj kvs).
  { destruct spec as [| | | | l | kvs]; try discriminate; [| | eauto].
    - unfold is_valid_openapi, neither_in, check_info in H. simpl in H.
      destruct (is_substring "openapi" s); simpl in H;
        [| destruct (is_substring "swagger" s); simpl in H];
        destruct (is_substring "info" s); simpl in H; try discriminate;
        destruct (is_substring "paths" s); simpl in H; discriminate.
    - unfold is_valid_openapi, neither_in, check_info in H. simpl in H.
      repeat match type of H with
             | context [existsb ?f l] => destruct (existsb f l); simpl in H
             end; discriminate. }
  destruct Hmap as [kvs ->].
  destruct (valid_mapping_info kvs errors H) as [info [title [version [Hi [Ht Hv]]]]].
  exists kvs, info, title, version. repeat split; auto.
  - unfold get_statistics in H0. simpl in H0. rewrite Hi in H0. simpl in H0.
    rewrite Ht in H0. repeat bind_inv H0. inversion H0; subst. reflexivity.
  - unfold get_statistics in H0. simpl in H0. rewrite Hi in H0. simpl in H0.
    rewrite Ht, Hv in H0. repeat bind_inv H0. inversion H0; subst. reflexivity.
Qed.

Lemma valid_document_statistics_witness :
  exists st,
    get_statistics pets_doc = Ok st /\
    stat_title st = JStr "T" /\ stat_version st = JStr "1".
Proof.
  destruct (valid_document_statistics pets_doc [] eq_refl)
    as [kvs [info [title [version [Hspec [Hi [Ht [Hv Hst]]]]]]]].
  inversion Hspec; subst kvs. inversion Hi; subst info.
  inversion Ht; subst title. inversion Hv; subst version.
  destruct (statistics_total pets_doc eq_refl) as [st Hs].
  exists st. split; [exact Hs | apply Hst; exact Hs].
Defined.

(* ================================================================== *)
(** * Pointers: arrays and composition *)
(* ================================================================== *)

Lemma lookup_path_app (obj : Json) (ps qs : list string) :
  lookup_path obj (ps ++ qs) =
  match lookup_path obj ps with
  | Some v => lookup_path v qs
  | None => None
  end.
Proof.
  revert obj. induction ps as [| p ps IH]; intros obj; simpl; [reflexivity |].
  destruct obj as [| | | | | kvs]; try reflexivity.
  destruct (lookup kvs p); [apply IH | reflexivity].
Qed.

(** X5.  A pointer cannot go through anything but mappings: when a prefix
    of the pointer leads to an array (or a string, number, boolean or
    null), a longer pointer resolves to [None], whatever the next
    segment, an index included. *)
Theorem resolve_stops_at_non_mappings (spec : Json) (pre : list string)
    (segment : string) (rest : list string) (node : Json) :
  forallb no_slash (pre ++ segment :: rest) = true ->
  lookup_path spec pre = Some node ->
  is_mapping node = false ->
  resolve_schema_reference spec (JStr (pointer_to (pre ++ segment :: rest))) =
    Ok JNull.
Proof.
  intros Hall Hpre Hnode. rewrite resolve_pointer; [| | exact Hall].
  - rewrite lookup_path_app, Hpre. simpl.
    destruct node; try reflexivity. discriminate.
  - destruct pre; discriminate.
Qed.

Lemma resolve_stops_at_non_mappings_witness :
  resolve_schema_reference head_doc (JStr "#/servers/0/url") = Ok JNull.
Proof.
  apply (resolve_stops_at_non_mappings head_doc ["servers"] "0" ["url"]
           (JArr [JObj [("url", JStr "https://api.example.com")]]));
    reflexivity.
Defined.

(** X6.  Resolution composes: resolving [#/p1/.../pn/q1/.../qm] in a
    document gives what resolving [#/q1/.../qm] gives in the object that
    [#/p1/.../pn] resolves to. *)
Theorem resolve_composes (spec : Json) (ps qs : list string) :
  ps <> [] -> qs <> [] ->
  forallb no_slash ps = true -> forallb no_slash qs = true ->
  exists v,
    resolve_schema_reference spec (JStr (pointer_to ps)) = Ok v /\
    resolve_schema_reference spec (JStr (pointer_to (ps ++ qs))) =
      resolve_schema_reference v (JStr (pointer_to qs)).
Proof.
  intros Hps Hqs Hns Hnq.
  assert (Hall : forallb no_slash (ps ++ qs) = true)
    by (rewrite forallb_app, Hns, Hnq; reflexivity).
  assert (Hne : ps ++ qs <> []) by (destruct ps; [congruence | discriminate]).
  exists (match lookup_path spec ps with Some v => v | None => JNull end).
  split; [apply resolve_pointer; assumption |].
  rewrite (resolve_pointer spec (ps ++ qs) Hne Hall).
  rewrite (resolve_pointer _ qs Hqs Hnq), lookup_path_app.
  destruct (lookup_path spec ps) as [v |]; [reflexivity |].
  destruct qs; [congruence | reflexivity].
Qed.

Lemma resolve_composes_witness :
  exists v,
    resolve_schema_reference cycle_doc (JStr "#/components") = Ok v /\
    resolve_schema_reference cycle_doc (JStr "#/components/schemas/A") =
      resolve_schema_reference v (JStr "#/schemas/A").
Proof.
  apply (resolve_composes cycle_doc ["components"] ["schemas"; "A"]);
    (discriminate || reflexivity).
Defined.

(* ================================================================== *)
(** * The collection and the listing *)
(* ================================================================== *)

(** Two loops over the same list that both end normally keep a relation
    that each pair of steps keeps. *)
Lemma for_each_rel {A S T : Type} (R : S -> T -> Prop)
    (f : A -> S -> result S) (g : A -> T -> result T) (l : list A) :
  (forall x s t s' t', In x l -> R s t -> f x s = Ok s' -> g x t = Ok t' ->
     R s' t') ->
  forall s t s' t', R s t -> for_each l f s = Ok s' -> for_each l g t = Ok t' ->
     R s' t'.
Proof.
  induction l as [| x l IH]; intros Hstep s t s' t' HR Hf Hg; simpl in *.
  - inversion Hf; inversion Hg; subst. exact HR.
  - bind_inv Hf. bind_inv Hg.
    apply IH with (s := v) (t := v0); auto.
    + intros y a b a' b' Hy. apply Hstep. now right.
    + apply (Hstep x s t v v0); auto.
Qed.

Lemma for_each_app {A S : Type} (f : A -> S -> result S) (l1 l2 : list A)
    (s s' : S) :
  for_each (l1 ++ l2) f s = Ok s' ->
  exists mid, for_each l1 f s = Ok mid /\ for_each l2 f mid = Ok s'.
Proof.
  revert s. induction l1 as [| x l1 IH]; intros s H; simpl in *.
  - eauto.
  - bind_inv H. destruct (IH _ H) as [mid [H1 H2]].
    exists mid. rewrite E; simpl. auto.
Qed.

Lemma postman_exported_five (m : string) (e : Endpoint) :
  In m POSTMAN_METHODS -> ep_method e = upper m -> postman_exported e = true.
Proof.
  intros Hm He. unfold postman_exported. apply existsb_exists.
  exists (upper m). split; [now apply in_map | rewrite He; apply String.eqb_refl].
Qed.

Lemma postman_method_rel (path : string) (path_item : Json) (m : string)
    (items : list PostmanItem) (endpoints : list Endpoint)
    (items' : list PostmanItem) (endpoints' : list Endpoint) :
  In m POSTMAN_METHODS ->
  requests_of items endpoints ->
  postman_method path path_item m items = Ok items' ->
  list_method path path_item m endpoints = Ok endpoints' ->
  requests_of items' endpoints'.
Proof.
  unfold requests_of, postman_method, list_method. intros Hm HR Hp Hl.
  destruct (py_in m path_item) as [[|] | e]; simpl in *; try discriminate.
  - repeat bind_inv Hp. repeat bind_inv Hl.
    inversion Hp; subst; clear Hp. inversion Hl; subst; clear Hl.
    rewrite filter_app, !map_app, HR. simpl.
    rewrite (postman_exported_five m); [reflexivity | assumption | reflexivity].
  - inversion Hp; inversion Hl; subst. exact HR.
Qed.

Lemma not_exported_tail (x : string) (e : Endpoint) :
  In x ["head"; "options"] -> ep_method e = upper x -> postman_exported e = false.
Proof.
  unfold postman_exported. intros [<- | [<- | []]] ->; reflexivity.
Qed.

Lemma postman_path_rel (item : string * Json) (items : list PostmanItem)
    (endpoints : list Endpoint) (items' : list PostmanItem)
    (endpoints' : list Endpoint) :
  requests_of items endpoints ->
  postman_path item items = Ok items' ->
  list_path item endpoints = Ok endpoints' ->
  requests_of items' endpoints'.
Proof.
  unfold postman_path, list_path. intros HR Hp Hl.
  change METHODS with (POSTMAN_METHODS ++ ["head"; "options"]) in Hl.
  apply for_each_app in Hl. destruct Hl as [mid [Hfive Htail]].
  assert (Hmid : requests_of items' mid).
  { apply (for_each_rel requests_of (postman_method (fst item) (snd item))
             (list_method (fst item) (snd item)) POSTMAN_METHODS)
      with (s := items) (t := endpoints); auto.
    intros m a b a' b' Hm. now apply postman_method_rel. }
  clear Hfive.
  apply (for_each_inv (requests_of items')
           (list_method (fst item) (snd item)) ["head"; "options"])
    with (s := mid); auto.
  intros x s s' Hx Hs Hstep.
  destruct (list_method_appends _ _ _ _ _ Hstep) as [new [_ [-> Hnew]]].
  unfold requests_of in *. rewrite filter_app.
  rewrite (filter_none postman_exported new), app_nil_r; [exact Hs |].
  eapply Forall_impl; [| exact Hnew].
  intros e [He _]. now apply (not_exported_tail x).
Qed.

Lemma postman_items_of (spec : Json) (c : Collection) :
  generate_postman_collection spec = Ok c ->
  exists paths path_items,
    py_get spec "paths" (JObj []) = Ok paths /\
    py_items paths = Ok path_items /\
    for_each path_items postman_path [] = Ok (col_item c).
Proof.
  unfold generate_postman_collection. intros H.
  repeat bind_inv H. inversion H; subst; clear H. simpl. eauto.
Qed.

(** X7.  Whenever the collection is generated and the endpoints of the
    document can be collected, the items of the collection are, in
    document order, the collected endpoints whose method is one of [GET],
    [POST], [PUT], [DELETE], [PATCH]: same method, and raw url the
    variable followed by the path. *)
Theorem postman_items_match_listing (spec : Json) (c : Collection)
    (collected : list Endpoint) :
  generate_postman_collection spec = Ok c ->
  collect_endpoints spec = Ok collected ->
  map item_request (col_item c) =
  map endpoint_request (filter postman_exported collected).
Proof.
  intros Hc Hl. destruct (postman_items_of spec c Hc) as [paths [its [Hp [Hi Hitems]]]].
  unfold collect_endpoints in Hl. rewrite Hp in Hl; simpl in Hl.
  rewrite Hi in Hl; simpl in Hl.
  apply (for_each_rel requests_of postman_path list_path its)
    with (s := @nil PostmanItem) (t := @nil Endpoint); auto.
  - intros it a b a' b' _. apply postman_path_rel.
  - reflexivity.
Qed.

Lemma postman_items_match_listing_witness :
  exists c collected,
    generate_postman_collection head_doc = Ok c /\
    collect_endpoints head_doc = Ok collected /\
    map ep_method collected = ["GET"; "HEAD"] /\
    map item_request (col_item c) = [("GET", "{{base_url}}/a")].
Proof.
  eexists. eexists. split; [reflexivity |]. split; [reflexivity |].
  split; [reflexivity |].
  rewrite (postman_items_match_listing head_doc _ _ eq_refl eq_refl).
  reflexivity.
Defined.

Lemma split_not_nil (s : string) : str_split "/" s <> [].
Proof.
  destruct s as [| c s]; simpl; [discriminate |].
  destruct (Ascii.eqb c "/"); [discriminate |].
  destruct (str_split "/" s); discriminate.
Qed.

(** Joining what was split gives the string back. *)
Lemma join_split (s : string) : str_join "/" (str_split "/" s) = s.
Proof.
  induction s as [| c s IH]; [reflexivity |].
  simpl. destruct (Ascii.eqb c "/") eqn:Ec.
  - apply Ascii.eqb_eq in Ec. subst c.
    pose proof (split_not_nil s) as Hne.
    destruct (str_split "/" s) as [| w ws]; [congruence |].
    change (str_join "/" ("" :: w :: ws))
      with (String "/" (str_join "/" (w :: ws))).
    now rewrite IH.
  - pose proof (split_not_nil s) as Hne.
    destruct (str_split "/" s) as [| w ws]; [congruence |].
    destruct ws as [| w' ws].
    + simpl in *. now rewrite IH.
    + change (str_join "/" (String c w :: w' :: ws))
        with (String c (str_join "/" (w :: w' :: ws))).
      now rewrite IH.
Qed.

Lemma postman_method_urls (path : string) (path_item : Json) (m : string)
    (items items' : list PostmanItem) :
  Forall url_consistent items ->
  postman_method path path_item m items = Ok items' ->
  Forall url_consistent items'.
Proof.
  unfold postman_method. intros Hall H.
  destruct (py_in m path_item) as [[|] | e]; simpl in H; try discriminate.
  - repeat bind_inv H. inversion H; subst; clear H.
    apply Forall_app. split; [exact Hall |].
    constructor; [| constructor]. unfold url_consistent; simpl.
    split; [reflexivity |]. split; [eauto |].
    intros rest Hraw. injection Hraw as ->. simpl. apply join_split.
  - inversion H; subst. exact Hall.
Qed.

(** X8.  In every generated collection each item's url has the variable
    as its host and the variable followed by the path as its raw form,
    and the path segments are those of the path after its first one; for
    a path that starts with a slash, joining the segments with slashes
    gives the path back without that slash. *)
Theorem postman_urls_consistent (spec : Json) (c : Collection) :
  generate_postman_collection spec = Ok c ->
  Forall url_consistent (col_item c).
Proof.
  intros Hc. destruct (postman_items_of spec c Hc) as [paths [its [_ [_ Hitems]]]].
  apply (for_each_inv (Forall url_consistent) postman_path its)
    with (s := @nil PostmanItem); auto.
  intros it s s' _ Hs Hstep. unfold postman_path in Hstep.
  apply (for_each_inv (Forall url_consistent)
           (postman_method (fst it) (snd it)) POSTMAN_METHODS) with (s := s); auto.
  intros m a b _. apply postman_method_urls.
Qed.

Lemma postman_urls_consistent_witness :
  exists c, generate_postman_collection pets_doc = Ok c /\
            Forall url_consistent (col_item c) /\
            map pi_path (col_item c) = [["pets"]; ["pets"]].
Proof.
  eexists. split; [reflexivity |].
  split; [apply (postman_urls_consistent pets_doc); reflexivity | reflexivity].
Defined.

(** X9.  A document for which the collection is generated is a mapping.
    Without a [servers] key, or with an empty [servers] list, the
    collection has no variable.  With a [servers] list that is not empty,
    the first entry is a mapping with a [url], and the collection has
    the single variable [base_url] with that value when the url is
    truthy, and no variable otherwise; for a string url, the variable is
    there exactly when the string is not empty.  The entries after the
    first play no part.  A variable list that is not empty always comes
    from the first entry of a [servers] list. *)
Theorem postman_base_url_variable (spec : Json) (c : Collection) :
  generate_postman_collection spec = Ok c ->
  exists kvs,
    spec = JObj kvs /\
    (lookup kvs "servers" = None -> col_variable c = []) /\
    (lookup kvs "servers" = Some (JArr []) -> col_variable c = []) /\
    (forall first rest,
       lookup kvs "servers" = Some (JArr (first :: rest)) ->
       exists skvs url,
         first = JObj skvs /\ lookup skvs "url" = Some url /\
         col_variable c = (if py_truthy url then [("base_url", url)] else []) /\
         (forall u, url = JStr u ->
            col_variable c =
              if String.eqb u "" then [] else [("base_url", JStr u)])) /\
    (col_variable c = [] \/
     exists skvs rest url,
       lookup kvs "servers" = Some (JArr (JObj skvs :: rest)) /\
       lookup skvs "url" = Some url /\
       col_variable c = [("base_url", url)]).
Proof.
  unfold generate_postman_collection. intros H.
  bind_inv H. bind_inv H. bind_inv H.
  repeat bind_inv H. inversion H; subst; clear H. simpl.
  destruct spec as [| | | | | kvs]; try discriminate.
  exists kvs. split; [reflexivity |]. simpl in E0.
  split; [| split; [| split]].
  - intros Hnone. rewrite Hnone in E0. injection E0 as <-.
    simpl in E1. injection E1 as <-. reflexivity.
  - intros Hs. rewrite Hs in E0. injection E0 as <-.
    simpl in E1. injection E1 as <-. reflexivity.
  - intros first rest Hs. rewrite Hs in E0. injection E0 as <-.
    simpl in E1. destruct first as [| | | | | skvs]; try discriminate.
    simpl in E1.
    destruct (lookup skvs "url") as [url |] eqn:Eurl; [| discriminate].
    injection E1 as <-. exists skvs, url.
    split; [reflexivity |]. split; [exact Eurl |]. split; [reflexivity |].
    intros u ->. simpl. destruct (String.eqb u ""); reflexivity.
  - destruct (py_truthy v1) eqn:Hurl; [| now left]. right.
    destruct (py_truthy v0) eqn:Hservers.
    + destruct (lookup kvs "servers") as [servers |]; injection E0 as <-;
        [| discriminate].
      destruct servers as [| | | s | [| first rest] | o]; simpl in E1;
        try discriminate.
      * destruct (chars s); discriminate.
      * destruct first as [| | | | | skvs]; try discriminate.
        simpl in E1.
        destruct (lookup skvs "url") as [url |] eqn:Eurl; [| discriminate].
        injection E1 as <-. exists skvs, rest, url. auto.
    + injection E1 as <-. discriminate.
Qed.

Lemma postman_base_url_variable_witness :
  (exists c,
     generate_postman_collection two_servers_doc = Ok c /\
     col_variable c = [("base_url", JStr "http://first")]) /\
  (exists c,
     generate_postman_collection pets_doc = Ok c /\ col_variable c = []).
Proof.
  split.
  - eexists. split; [reflexivity |].
    destruct (postman_base_url_variable two_servers_doc _ eq_refl)
      as [kvs [Hkvs [_ [_ [Hfirst _]]]]].
    injection Hkvs as <-.
    destruct (Hfirst _ _ eq_refl) as [skvs [url [Hs [Hurl [_ Hstr]]]]].
    injection Hs as <-. injection Hurl as <-.
    exact (Hstr _ eq_refl).
  - eexists. split; [reflexivity |].
    destruct (postman_base_url_variable pets_doc _ eq_refl)
      as [kvs [Hkvs [Hnone _]]].
    injection Hkvs as <-. apply Hnone. reflexivity.
Defined.

(* ================================================================== *)
(** * Extraction is exact *)
(* ================================================================== *)

Lemma extract_method_holds (path0 : string) (path_item : Json) (x : string)
    (ex ex' : list (string * Extracted)) :
  In x METHODS ->
  extract_method path0 path_item x ex = Ok ex' ->
  forall m p, In m METHODS ->
    holds_operation "Other"
      (if String.eqb p path0 && String.eqb m x then operation_in path_item m
       else None)
      ex ex' p m.
Proof.
  intros Hx H m p Hm. unfold holds_operation, extract_method in *.
  destruct (String.eqb p path0 && String.eqb m x) eqn:Esame.
  - apply andb_prop in Esame. destruct Esame as [Ep Em].
    apply String.eqb_eq in Ep. apply String.eqb_eq in Em. subst p m.
    destruct path_item as [| | | s | l | pkvs]; simpl in *; try discriminate.
    + destruct (is_substring x s); simpl in H; [discriminate |].
      inversion H; subst. reflexivity.
    + destruct (existsb _ l); simpl in H; [discriminate |].
      inversion H; subst. reflexivity.
    + unfold dict_has in H. fold (lookup pkvs x) in H.
      destruct (lookup pkvs x) as [operation |]; simpl in H.
      * destruct operation as [| | | | | okvs]; simpl in H; try discriminate.
        inversion H; subst; clear H.
        rewrite dict_get_set_same by apply String.eqb_refl. reflexivity.
      * inversion H; subst. reflexivity.
  - assert (Hne : endpoint_key x path0 <> endpoint_key m p).
    { intros Hk. apply endpoint_key_inj in Hk; auto. destruct Hk as [-> ->].
      rewrite !String.eqb_refl in Esame. discriminate. }
    destruct (py_in x path_item) as [[|] | e]; simpl in H; try discriminate.
    + repeat bind_inv H. inversion H; subst; clear H.
      now apply dict_get_set_other.
    + inversion H; subst. reflexivity.
Qed.

(** Through the methods [ms] of one path item. *)
Lemma extract_methods_hold (path0 : string) (path_item : Json) :
  forall (ms : list string) (ex ex' : list (string * Extracted)),
    (forall x, In x ms -> In x METHODS) ->
    for_each ms (extract_method path0 path_item) ex = Ok ex' ->
    forall m p, In m METHODS ->
      holds_operation "Other"
        (if String.eqb p path0 && existsb (String.eqb m) ms
         then operation_in path_item m else None)
        ex ex' p m.
Proof.
  induction ms as [| x ms IH]; intros ex ex' Hall H m p Hm.
  - simpl in H. inversion H; subst. unfold holds_operation.
    rewrite andb_false_r. reflexivity.
  - simpl in H. bind_inv H.
    pose proof (extract_method_holds path0 path_item x ex v
                  (Hall x (or_introl eq_refl)) E m p Hm) as Hstep.
    pose proof (IH v ex' (fun y Hy => Hall y (or_intror Hy)) H m p Hm) as Hrest.
    unfold holds_operation in *. simpl.
    destruct (String.eqb p path0); simpl in *; [| congruence].
    destruct (existsb (String.eqb m) ms); simpl in *.
    + rewrite orb_true_r.
      destruct (operation_in path_item m); [exact Hrest |].
      destruct (String.eqb m x); congruence.
    + rewrite orb_false_r. destruct (String.eqb m x); congruence.
Qed.

Lemma existsb_methods (m : string) :
  In m METHODS -> existsb (String.eqb m) METHODS = true.
Proof.
  intros H. apply existsb_exists. exists m. split; [exact H | apply String.eqb_refl].
Qed.

Lemma extract_paths_hold (items : list (string * Json)) :
  forall (ex ex' : list (string * Extracted)),
    nodup_keys (map fst items) = true ->
    for_each items extract_path ex = Ok ex' ->
    forall m p, In m METHODS ->
      holds_operation "Other" (operation_among items p m) ex ex' p m.
Proof.
  induction items as [| [p0 pi] rest IH]; intros ex ex' Hnd H m p Hm.
  - simpl in H. inversion H; subst. reflexivity.
  - simpl in H. bind_inv H. simpl in Hnd. apply andb_prop in Hnd.
    destruct Hnd as [Hfresh Hnd]. apply negb_true_iff in Hfresh.
    unfold extract_path in E; simpl in E.
    pose proof (extract_methods_hold p0 pi METHODS ex v (fun x Hx => Hx) E m p Hm)
      as Hstep.
    pose proof (IH v ex' Hnd H m p Hm) as Hrest.
    unfold holds_operation, operation_among in *. unfold lookup at 1; simpl.
    rewrite (existsb_methods m Hm), andb_true_r in Hstep.
    rewrite (String.eqb_sym p0 p).
    destruct (String.eqb p p0) eqn:Ep.
    + apply String.eqb_eq in Ep. subst p.
      rewrite (fresh_key_lookup _ _ Hfresh) in Hrest. congruence.
    + fold (lookup rest p). destruct (lookup rest p) as [pi' |]; [| congruence].
      destruct (operation_in pi' m); congruence.
Qed.

Lemma extraction_holds (spec : Json) (ex : list (string * Extracted))
    (path method : string) :
  wf_json spec = true ->
  extract_endpoints spec = Ok ex ->
  In method METHODS ->
  dict_get String.eqb ex (endpoint_key method path) =
  match operation_of spec path method with
  | Some operation => Some (extracted_record "Other" path method operation)
  | None => None
  end.
Proof.
  intros Hwf H Hm. unfold extract_endpoints in H.
  destruct spec as [| | | | | kvs]; try discriminate. simpl in H.
  unfold operation_of; simpl.
  destruct (lookup kvs "paths") as [paths |] eqn:Hp; simpl in H.
  - destruct paths as [| | | | | items]; try discriminate. simpl in H.
    assert (Hnd : nodup_keys (map fst items) = true).
    { pose proof (wf_json_child _ _ _ Hwf Hp) as Hw. simpl in Hw.
      apply andb_prop in Hw. tauto. }
    pose proof (extract_paths_hold items [] ex Hnd H method path Hm) as Hh.
    unfold holds_operation, operation_among in Hh. rewrite Hh.
    destruct (lookup items path) as [pi |]; [| reflexivity].
    destruct pi as [| | | | | pkvs]; simpl; try reflexivity.
    destruct (lookup pkvs method); reflexivity.
  - inversion H; subst. reflexivity.
Qed.

(** X10.  [extract_endpoints] of [advanced_generator.py] is exact on a
    document with distinct keys: whenever it returns, the key of a
    method (one of the seven) and a path is in the result exactly when the
    document declares an operation there, and the entry then holds the
    path, the method in upper case, the operation itself and its tags,
    or the default list when it declares none. *)
Theorem extraction_exact (spec : Json) (ex : list (string * Extracted))
    (path method : string) :
  wf_json spec = true ->
  extract_endpoints spec = Ok ex ->
  In method METHODS ->
  dict_get String.eqb ex (endpoint_key method path) =
  match operation_of spec path method with
  | Some operation => Some (extracted_record "Other" path method operation)
  | None => None
  end.
Proof. apply extraction_holds. Qed.

Lemma extraction_exact_witness :
  exists ex,
    extract_endpoints pets_doc = Ok ex /\
    dict_get String.eqb ex "GET /pets" =
      Some (extracted_record "Other" "/pets" "get"
              (JObj [("tags", JArr [JStr "pets"]);
                     ("summary", JStr "List pets")])) /\
    dict_get String.eqb ex "PUT /pets" = None.
Proof.
  eexists. split; [reflexivity |]. split.
  - apply (extraction_exact pets_doc _ "/pets" "get"); [reflexivity .. | simpl; auto].
  - apply (extraction_exact pets_doc _ "/pets" "put"); [reflexivity .. | simpl; auto 10].
Defined.

(* ================================================================== *)
(** * Extraction in main.py *)
(* ================================================================== *)

Lemma existsb_In_methods (k : string) :
  existsb (String.eqb k) METHODS = true -> In k METHODS.
Proof.
  intros H. apply existsb_exists in H. destruct H as [x [Hx E]].
  apply String.eqb_eq in E. now subst.
Qed.

Lemma main_entries_hold (path0 : string) :
  forall (entries : list (string * Json)) (ex ex' : list (string * Extracted)),
    nodup_keys (map fst entries) = true ->
    for_each entries (Main.extract_entry path0) ex = Ok ex' ->
    forall m p, In m METHODS ->
      holds_operation Main.DEFAULT_TAG
        (if String.eqb p path0 then lookup entries m else None) ex ex' p m.
Proof.
  induction entries as [| [k op] rest IH]; intros ex ex' Hnd H m p Hm.
  - simpl in H. inversion H; subst. unfold holds_operation.
    destruct (String.eqb p path0); reflexivity.
  - cbn [for_each] in H. bind_inv H. simpl in Hnd. apply andb_prop in Hnd.
    destruct Hnd as [Hfresh Hnd]. apply negb_true_iff in Hfresh.
    pose proof (IH v ex' Hnd H m p Hm) as Hrest.
    unfold holds_operation in *. unfold lookup at 1; simpl. fold (lookup rest m).
    unfold Main.extract_entry in E.
    destruct (String.eqb p path0) eqn:Ep.
    + apply String.eqb_eq in Ep. subst p.
      destruct (String.eqb k m) eqn:Ek.
      * apply String.eqb_eq in Ek. subst k.
        rewrite (fresh_key_lookup _ _ Hfresh) in Hrest. rewrite Hrest.
        rewrite (existsb_methods m Hm) in E. bind_inv E.
        inversion E; subst; clear E.
        rewrite dict_get_set_same by apply String.eqb_refl.
        destruct op; simpl in E0; try discriminate. inversion E0; subst.
        reflexivity.
      * destruct (lookup rest m); [exact Hrest |]. rewrite Hrest.
        destruct (existsb (String.eqb k) METHODS) eqn:Ekm.
        -- bind_inv E. inversion E; subst; clear E.
           apply dict_get_set_other. intros Hk.
           apply endpoint_key_inj in Hk; auto using existsb_In_methods.
           destruct Hk as [-> _]. rewrite String.eqb_refl in Ek. discriminate.
        -- inversion E; subst. reflexivity.
    + rewrite Hrest.
      destruct (existsb (String.eqb k) METHODS) eqn:Ekm.
      * bind_inv E. inversion E; subst; clear E.
        apply dict_get_set_other. intros Hk.
        apply endpoint_key_inj in Hk; auto using existsb_In_methods.
        destruct Hk as [_ ->]. rewrite String.eqb_refl in Ep. discriminate.
      * inversion E; subst. reflexivity.
Qed.

(** The keys of the mappings directly under [paths] are distinct. *)
Lemma wf_path_items (items : list (string * Json)) :
  forallb (fun kv => wf_json (snd kv)) items = true ->
  forall p entries, In (p, JObj entries) items ->
    nodup_keys (map fst entries) = true.
Proof.
  intros H p entries Hin. rewrite forallb_forall in H.
  specialize (H _ Hin). simpl in H. apply andb_prop in H. tauto.
Qed.

Lemma main_paths_hold (items : list (string * Json)) :
  forall (ex ex' : list (string * Extracted)),
    nodup_keys (map fst items) = true ->
    forallb (fun kv => wf_json (snd kv)) items = true ->
    for_each items Main.extract_path ex = Ok ex' ->
    forall m p, In m METHODS ->
      holds_operation Main.DEFAULT_TAG (operation_among items p m) ex ex' p m.
Proof.
  induction items as [| [p0 pi] rest IH]; intros ex ex' Hnd Hwf H m p Hm.
  - simpl in H. inversion H; subst. reflexivity.
  - simpl in H. bind_inv H. simpl in Hnd. apply andb_prop in Hnd.
    destruct Hnd as [Hfresh Hnd]. apply negb_true_iff in Hfresh.
    pose proof Hwf as Hwf0. simpl in Hwf. apply andb_prop in Hwf.
    destruct Hwf as [Hpi Hwf].
    pose proof (IH v ex' Hnd Hwf H m p Hm) as Hrest.
    assert (Hstep : holds_operation Main.DEFAULT_TAG
                      (if String.eqb p p0 then operation_in pi m else None)
                      ex v p m).
    { destruct pi as [| | | | | entries]; simpl in E;
        try (inversion E; subst; unfold holds_operation; simpl;
             destruct (String.eqb p p0); reflexivity).
      apply (main_entries_hold p0 entries ex v); auto.
      apply (wf_path_items _ Hwf0 p0). now left. }
    unfold holds_operation, operation_among in *. unfold lookup at 1; simpl.
    rewrite (String.eqb_sym p0 p).
    destruct (String.eqb p p0) eqn:Ep.
    + apply String.eqb_eq in Ep. subst p.
      rewrite (fresh_key_lookup _ _ Hfresh) in Hrest. congruence.
    + fold (lookup rest p). destruct (lookup rest p) as [pi' |]; [| congruence].
      destruct (operation_in pi' m); congruence.
Qed.

Lemma wf_paths (kvs items : list (string * Json)) :
  wf_json (JObj kvs) = true -> lookup kvs "paths" = Some (JObj items) ->
  nodup_keys (map fst items) = true /\
  forallb (fun kv => wf_json (snd kv)) items = true.
Proof.
  intros Hwf Hp. pose proof (wf_json_child _ _ _ Hwf Hp) as Hw. simpl in Hw.
  now apply andb_prop in Hw.
Qed.

Lemma main_extraction_holds (spec : Json) (ex : list (string * Extracted))
    (path method : string) :
  wf_json spec = true ->
  Main.extract_endpoints spec = Ok ex ->
  In method METHODS ->
  dict_get String.eqb ex (endpoint_key method path) =
  match operation_of spec path method with
  | Some operation =>
      Some (extracted_record Main.DEFAULT_TAG path method operation)
  | None => None
  end.
Proof.
  intros Hwf H Hm. unfold Main.extract_endpoints in H.
  destruct spec as [| | | | | kvs]; try discriminate. simpl in H.
  unfold operation_of; simpl.
  destruct (lookup kvs "paths") as [paths |] eqn:Hp; simpl in H.
  - destruct paths as [| | | | | items]; try discriminate. simpl in H.
    destruct (wf_paths kvs items Hwf Hp) as [Hnd Hitems].
    pose proof (main_paths_hold items [] ex Hnd Hitems H method path Hm) as Hh.
    unfold holds_operation, operation_among in Hh. rewrite Hh.
    destruct (lookup items path) as [pi |]; [| reflexivity].
    destruct pi as [| | | | | pkvs]; simpl; try reflexivity.
    destruct (lookup pkvs method); reflexivity.
  - inversion H; subst. reflexivity.
Qed.

(** X11.  [extract_endpoints] of [main.py] is exact on a document with
    distinct keys: whenever it returns, the key of a method (one of the
    seven) and a path is in the result exactly when the document declares
    an operation there, whatever the order of the methods in the path
    item, and the entry holds the path, the method in upper case, the
    operation and its tags, or the default list when it declares none. *)
Theorem main_extraction_exact (spec : Json) (ex : list (string * Extracted))
    (path method : string) :
  wf_json spec = true ->
  Main.extract_endpoints spec = Ok ex ->
  In method METHODS ->
  dict_get String.eqb ex (endpoint_key method path) =
  match operation_of spec path method with
  | Some operation =>
      Some (extracted_record Main.DEFAULT_TAG path method operation)
  | None => None
  end.
Proof. apply main_extraction_holds. Qed.

Lemma main_extraction_exact_witness :
  exists ex,
    Main.extract_endpoints odd_paths_doc = Ok ex /\
    map fst ex = ["POST /a"; "GET /a"] /\
    dict_get String.eqb ex "GET /a" =
      Some (extracted_record Main.DEFAULT_TAG "/a" "get" (JObj [])) /\
    dict_get String.eqb ex "GET /b" = None.
Proof.
  eexists. split; [reflexivity |]. split; [reflexivity |]. split.
  - apply (main_extraction_exact odd_paths_doc _ "/a" "get");
      [reflexivity .. | simpl; auto].
  - apply (main_extraction_exact odd_paths_doc _ "/b" "get");
      [reflexivity .. | simpl; auto].
Defined.

Lemma adv_operations_mappings (path : string) (entries : list (string * Json)) :
  forall (ms : list string) (ex ex' : list (string * Extracted)),
    for_each ms (extract_method path (JObj entries)) ex = Ok ex' ->
    forall m operation, In m ms -> lookup entries m = Some operation ->
      is_mapping operation = true.
Proof.
  induction ms as [| x ms IH]; intros ex ex' H m op Hin Hop; [contradiction |].
  simpl in H. bind_inv H. destruct Hin as [-> | Hin]; [| eauto].
  unfold extract_method in E. simpl in E.
  rewrite (lookup_has_key _ _ _ Hop), Hop in E. simpl in E.
  destruct op; simpl in E; try discriminate. reflexivity.
Qed.

Lemma nodup_In_lookup (kvs : list (string * Json)) (k : string) (v : Json) :
  nodup_keys (map fst kvs) = true -> In (k, v) kvs -> lookup kvs k = Some v.
Proof.
  intros Hnd Hin. destruct (lookup kvs k) as [v' |] eqn:E.
  - apply lookup_In in E. f_equal. apply (nodup_keys_unique kvs k); auto.
  - exfalso. assert (Hk : In k (map fst kvs)).
    { apply in_map_iff. exists (k, v). auto. }
    clear Hin Hnd. unfold lookup in E.
    induction kvs as [| [k0 v0] kvs IH]; simpl in *; [contradiction |].
    destruct (String.eqb k0 k) eqn:Ek; [discriminate |].
    destruct Hk as [-> | Hk]; [| auto].
    rewrite String.eqb_refl in Ek. discriminate.
Qed.

Lemma main_follows_advanced (item : string * Json)
    (ex ex' t : list (string * Extracted)) :
  wf_json (snd item) = true ->
  extract_path item ex = Ok ex' ->
  exists t', Main.extract_path item t = Ok t'.
Proof.
  destruct item as [p pi]. unfold extract_path, Main.extract_path. simpl.
  intros Hwf H. destruct pi as [| | | | | entries]; eauto.
  simpl in Hwf. apply andb_prop in Hwf. destruct Hwf as [Hnd _].
  destruct (for_each_total (fun _ => True) (Main.extract_entry p) entries)
    with (s := t) as [t' [Ht _]]; eauto.
  intros [k op] s Hin _. unfold Main.extract_entry.
  destruct (existsb (String.eqb k) METHODS) eqn:Ek; [| eauto].
  assert (Hmap : is_mapping op = true).
  { apply (adv_operations_mappings p entries METHODS ex ex' H k).
    - now apply existsb_In_methods.
    - now apply nodup_In_lookup. }
  destruct op; try discriminate. simpl. eauto.
Qed.

(** X12.  The two extractions agree on a document with distinct keys:
    whenever [extract_endpoints] of [advanced_generator.py] returns, that
    of [main.py] returns too, and for each of the seven methods and each
    path the two results hold the same endpoint or both hold none; they
    differ in the default tag list and in the order of the entries. *)
Theorem extractions_agree (spec : Json) (ex : list (string * Extracted)) :
  wf_json spec = true ->
  extract_endpoints spec = Ok ex ->
  exists ex',
    Main.extract_endpoints spec = Ok ex' /\
    forall method path, In method METHODS ->
      same_endpoint (dict_get String.eqb ex (endpoint_key method path))
                    (dict_get String.eqb ex' (endpoint_key method path)).
Proof.
  intros Hwf H.
  assert (Hmain : exists ex', Main.extract_endpoints spec = Ok ex').
  { unfold extract_endpoints in H. unfold Main.extract_endpoints.
    destruct spec as [| | | | | kvs]; try discriminate. simpl in *.
    destruct (lookup kvs "paths") as [paths |] eqn:Hp; simpl in *; [| eauto].
    destruct paths as [| | | | | items]; try discriminate. simpl in *.
    destruct (wf_paths kvs items Hwf Hp) as [_ Hitems].
    rewrite forallb_forall in Hitems.
    destruct (for_each_sim (fun _ _ => True) extract_path Main.extract_path items)
      with (s := @nil (string * Extracted)) (t := @nil (string * Extracted))
           (s' := ex) as [ex' [Hex' _]]; eauto.
    intros it s t s' Hin _ Hs.
    destruct (main_follows_advanced it s s' t (Hitems it Hin) Hs) as [t' Ht].
    eauto. }
  destruct Hmain as [ex' Hex']. exists ex'. split; [exact Hex' |].
  intros method path Hm.
  rewrite (extraction_holds spec ex path method Hwf H Hm).
  rewrite (main_extraction_holds spec ex' path method Hwf Hex' Hm).
  destruct (operation_of spec path method); simpl; auto.
Qed.

Lemma extractions_agree_witness :
  exists ex ex',
    extract_endpoints post_first_doc = Ok ex /\
    Main.extract_endpoints post_first_doc = Ok ex' /\
    map fst ex = ["GET /a"; "POST /a"] /\
    map fst ex' = ["POST /a"; "GET /a"] /\
    same_endpoint (dict_get String.eqb ex "POST /a")
                  (dict_get String.eqb ex' "POST /a").
Proof.
  destruct (extractions_agree post_first_doc
              [("GET /a", extracted_record "Other" "/a" "get" (JObj []));
               ("POST /a", extracted_record "Other" "/a" "post"
                             (JObj [("tags", JArr [JStr "a"; JStr "b"])]))])
    as [ex' [Hex' Hsame]]; [reflexivity | reflexivity |].
  eexists. exists ex'. split; [reflexivity |]. split; [exact Hex' |].
  split; [reflexivity |]. split.
  - assert (Hv : Main.extract_endpoints post_first_doc =
                 Ok [("POST /a", extracted_record Main.DEFAULT_TAG "/a" "post"
                                   (JObj [("tags", JArr [JStr "a"; JStr "b"])]));
                     ("GET /a", extracted_record Main.DEFAULT_TAG "/a" "get"
                                  (JObj []))]) by reflexivity.
    rewrite Hv in Hex'. inversion Hex'; subst. reflexivity.
  - apply (Hsame "post" "/a"). simpl; auto.
Defined.

Lemma main_entry_raises (path : string) (entry : string * Json)
    (ex : list (string * Extracted)) (e : exn) :
  Main.extract_entry path entry ex = Raise e -> e = AttributeError.
Proof.
  destruct entry as [k op]. unfold Main.extract_entry.
  destruct (existsb (String.eqb k) METHODS); [| discriminate].
  destruct op; simpl; intros H; now inversion H.
Qed.

(** A loop whose steps raise nothing but [err] raises nothing else. *)
Lemma for_each_raises {A S : Type} (f : A -> S -> result S) (err : exn)
    (l : list A) :
  (forall x s e, f x s = Raise e -> e = err) ->
  forall s e, for_each l f s = Raise e -> e = err.
Proof.
  intros Hf. induction l as [| x l IH]; intros s e H; simpl in H; [discriminate |].
  destruct (f x s) as [s1 | e1] eqn:E; simpl in H; [eauto |].
  inversion H; subst. eauto.
Qed.

(** A loop with an item on which the step raises, whatever the state,
    does not end normally. *)
Lemma for_each_stuck {A S : Type} (f : A -> S -> result S) (l : list A) (x : A) :
  In x l -> (forall s, exists e, f x s = Raise e) ->
  forall s, exists e, for_each l f s = Raise e.
Proof.
  intros Hin Hx. induction l as [| y l IH]; [contradiction |].
  intros s. simpl. destruct (f y s) as [s1 | e1] eqn:E; simpl; [| eauto].
  destruct Hin as [-> | Hin]; [| auto].
  destruct (Hx s) as [e He]. congruence.
Qed.

Lemma main_path_raises (item : string * Json) (ex : list (string * Extracted))
    (e : exn) :
  Main.extract_path item ex = Raise e -> e = AttributeError.
Proof.
  destruct item as [p pi]. unfold Main.extract_path.
  destruct pi; try discriminate.
  apply for_each_raises. intros x s e0. apply main_entry_raises.
Qed.

(** X13.  [extract_endpoints] of [main.py] passes over a path item that
    is not a mapping, but not over an operation that is not one: on a
    document whose [paths] is a mapping it returns when every entry of a
    mapping path item under one of the seven methods is a mapping, and it
    raises [AttributeError] as soon as one is not. *)
Theorem main_extraction_isolation (kvs items : list (string * Json)) :
  lookup kvs "paths" = Some (JObj items) ->
  (operations_are_mappings items ->
     exists ex, Main.extract_endpoints (JObj kvs) = Ok ex) /\
  (forall path entries method operation,
     In (path, JObj entries) items -> In (method, operation) entries ->
     In method METHODS -> is_mapping operation = false ->
     Main.extract_endpoints (JObj kvs) = Raise AttributeError).
Proof.
  intros Hp. unfold Main.extract_endpoints. simpl. rewrite Hp. simpl. split.
  - intros Hops.
    destruct (for_each_total (fun _ => True) Main.extract_path items)
      with (s := @nil (string * Extracted)) as [ex [Hex _]]; eauto.
    intros [p pi] s Hin _. unfold Main.extract_path.
    destruct pi as [| | | | | entries]; eauto.
    destruct (for_each_total (fun _ => True) (Main.extract_entry p) entries)
      with (s := s) as [s' [Hs' _]]; eauto.
    intros [k op] s0 Hk _. unfold Main.extract_entry.
    destruct (existsb (String.eqb k) METHODS) eqn:Ek; [| eauto].
    assert (Hmap : is_mapping op = true).
    { apply (Hops p entries k op); auto. now apply existsb_In_methods. }
    destruct op; try discriminate. simpl. eauto.
  - intros path entries method operation Hitem Hentry Hm Hnot.
    destruct (for_each_stuck Main.extract_path items (path, JObj entries) Hitem)
      with (s := @nil (string * Extracted)) as [e He].
    + intros s. unfold Main.extract_path.
      apply (for_each_stuck (Main.extract_entry path) entries (method, operation));
        auto.
      intros s0. unfold Main.extract_entry.
      rewrite (existsb_methods method Hm).
      destruct operation; simpl; try discriminate; eauto.
    + rewrite He. f_equal.
      apply (for_each_raises Main.extract_path AttributeError items) with (s := []);
        auto.
      intros x s e0. apply main_path_raises.
Qed.

Lemma main_extraction_isolation_witness :
  (exists ex, Main.extract_endpoints odd_paths_doc = Ok ex) /\
  extract_endpoints odd_paths_doc = Raise TypeError.
Proof.
  split; [| reflexivity].
  destruct (main_extraction_isolation
              [("paths", JObj [
                  ("/a", JObj [("post", JObj [("tags", JArr [JStr "a"; JStr "b"])]);
                               ("summary", JStr "path level");
                               ("get", JObj [])]);
                  ("/b", JNull)])]
              [("/a", JObj [("post", JObj [("tags", JArr [JStr "a"; JStr "b"])]);
                            ("summary", JStr "path level");
                            ("get", JObj [])]);
               ("/b", JNull)] eq_refl) as [Hok _].
  apply Hok. intros path entries method operation Hitem Hentry Hm.
  destruct Hitem as [Hitem | [Hitem | []]]; [| discriminate].
  inversion Hitem; subst; clear Hitem.
  destruct Hentry as [He | [He | [He | []]]]; inversion He; subst; try reflexivity.
  simpl in Hm. intuition discriminate.
Defined.

(* ================================================================== *)
(** * Grouping by tags *)
(* ================================================================== *)

Section Appending.
Context {K A : Type}.
Variable keq : K -> K -> bool.

Lemma group_total_snoc (d : list (K * list A)) (k : K) (x : A) :
  group_total (dict_set keq d k (dict_get_default keq d k [] ++ [x])) =
  group_total d + 1.
Proof.
  unfold dict_get_default.
  induction d as [| [k' l] d IH]; simpl.
  - reflexivity.
  - destruct (keq k' k); simpl.
    + unfold group_total; simpl. rewrite length_app. simpl. lia.
    + unfold group_total in *; simpl. rewrite IH. lia.
Qed.

(** Appending to a group keeps what every group holds. *)
Lemma snoc_keeps_entries (d : list (K * list A)) (t k : K) (x y : A)
    (l : list A) :
  dict_get keq d k = Some l -> In y l ->
  exists l', dict_get keq (dict_set keq d t (dict_get_default keq d t [] ++ [x])) k
             = Some l' /\ In y l'.
Proof.
  unfold dict_get_default.
  induction d as [| [k0 l0] d IH]; simpl; [discriminate |].
  destruct (keq k0 t) eqn:Et; simpl.
  - destruct (keq k0 k); intros H Hy.
    + inversion H; subst. eexists; split; [reflexivity |].
      apply in_or_app. now left.
    + eauto.
  - destruct (keq k0 k); intros H Hy; eauto.
Qed.

Lemma snoc_has_entry (d : list (K * list A)) (t : K) (x : A) :
  keq t t = true ->
  exists l, dict_get keq (dict_set keq d t (dict_get_default keq d t [] ++ [x])) t
            = Some l /\ In x l.
Proof.
  intros Ht. rewrite dict_get_set_same by assumption.
  eexists; split; [reflexivity |]. apply in_or_app. right. now left.
Qed.
End Appending.

Lemma key_eqb_refl (t : Json) : hashable t = true -> key_eqb t t = true.
Proof.
  destruct t as [| [|] | n | s | |]; simpl; try discriminate; intros _;
    try reflexivity.
  - apply Z.eqb_refl.
  - apply String.eqb_refl.
Qed.

Lemma group_tags_total (key : string) (endpoint : Extracted) (tags : list Json)
    (grouped grouped' : list (Json * list Grouped)) :
  for_each tags (Main.group_tag key endpoint) grouped = Ok grouped' ->
  group_total grouped' = group_total grouped + length tags.
Proof.
  revert grouped. induction tags as [| t tags IH]; intros grouped H; simpl in *.
  - inversion H; subst. lia.
  - bind_inv H. rewrite (IH _ H). unfold Main.group_tag in E.
    destruct (hashable t); [| discriminate]. inversion E; subst.
    rewrite group_total_snoc. lia.
Qed.

(** X14.  Grouping fans out: whenever [group_by_tags] returns, the groups
    hold together as many entries as the endpoints have tags, an endpoint
    with n tags being entered n times. *)
Theorem group_by_tags_fans_out (endpoints : list (string * Extracted))
    (grouped : list (Json * list Grouped)) :
  Main.group_by_tags endpoints = Ok grouped ->
  group_total grouped = tags_total endpoints.
Proof.
  unfold Main.group_by_tags.
  assert (Hgen : forall g0 g,
            for_each endpoints Main.group_endpoint g0 = Ok g ->
            group_total g = group_total g0 + tags_total endpoints).
  { induction endpoints as [| [k e] rest IH]; intros g0 g H; simpl in *.
    - inversion H; subst. lia.
    - bind_inv H. rewrite (IH _ _ H). unfold Main.group_endpoint in E.
      bind_inv E. rewrite (group_tags_total _ _ _ _ _ E).
      unfold tag_count; simpl. rewrite E0. lia. }
  intros H. rewrite (Hgen [] grouped H). reflexivity.
Qed.

Lemma group_by_tags_fans_out_witness :
  exists grouped,
    Main.group_by_tags two_tags = Ok grouped /\
    map (fun kv => (fst kv, length (snd kv))) grouped =
      [(JStr "a", 1); (JStr "b", 1); (JStr "Другое", 1)] /\
    group_total grouped = 3.
Proof.
  eexists. split; [reflexivity |]. split; [reflexivity |].
  rewrite (group_by_tags_fans_out two_tags _ eq_refl). reflexivity.
Defined.

Lemma group_tag_keeps (key : string) (endpoint : Extracted) (t : Json)
    (tag : Json) (k : string) (e : Extracted)
    (grouped grouped' : list (Json * list Grouped)) :
  grouped_under grouped tag k e ->
  Main.group_tag key endpoint t grouped = Ok grouped' ->
  grouped_under grouped' tag k e.
Proof.
  intros [l [Hl Hin]] H. unfold Main.group_tag in H.
  destruct (hashable t); [| discriminate]. inversion H; subst; clear H.
  apply (snoc_keeps_entries key_eqb grouped t tag _ _ l Hl Hin).
Qed.

Lemma group_endpoint_keeps (entry : string * Extracted) (tag : Json)
    (k : string) (e : Extracted) (grouped grouped' : list (Json * list Grouped)) :
  grouped_under grouped tag k e ->
  Main.group_endpoint entry grouped = Ok grouped' ->
  grouped_under grouped' tag k e.
Proof.
  destruct entry as [key endpoint]. unfold Main.group_endpoint. intros HP H.
  bind_inv H.
  apply (for_each_inv (fun g => grouped_under g tag k e)
           (Main.group_tag key endpoint) v) with (s := grouped); auto.
  intros t s s' _. apply group_tag_keeps.
Qed.

Lemma group_endpoint_enters (key : string) (endpoint : Extracted)
    (tags : list Json) (tag : Json)
    (grouped grouped' : list (Json * list Grouped)) :
  py_iter (ex_tags endpoint) = Ok tags -> In tag tags ->
  Main.group_endpoint (key, endpoint) grouped = Ok grouped' ->
  grouped_under grouped' tag key endpoint.
Proof.
  unfold Main.group_endpoint. intros Htags Hin H. rewrite Htags in H; simpl in H.
  refine (for_each_establish (fun g => grouped_under g tag key endpoint)
            (Main.group_tag key endpoint) tags tag Hin _ _ grouped grouped' H).
  - intros s s' Hstep. unfold Main.group_tag in Hstep.
    destruct (hashable tag) eqn:Hh; [| discriminate].
    inversion Hstep; subst; clear Hstep.
    apply (snoc_has_entry key_eqb s tag). now apply key_eqb_refl.
  - intros t s s' _. apply group_tag_keeps.
Qed.

(** X15.  Whenever [group_by_tags] returns, every endpoint is in the
    group of each of its tags, entered with its key, path, method and
    operation. *)
Theorem group_by_tags_complete (endpoints : list (string * Extracted))
    (grouped : list (Json * list Grouped)) (key : string)
    (endpoint : Extracted) (tags : list Json) (tag : Json) :
  Main.group_by_tags endpoints = Ok grouped ->
  In (key, endpoint) endpoints ->
  py_iter (ex_tags endpoint) = Ok tags -> In tag tags ->
  grouped_under grouped tag key endpoint.
Proof.
  unfold Main.group_by_tags. intros H Hin Htags Htag.
  refine (for_each_establish (fun g => grouped_under g tag key endpoint)
            Main.group_endpoint endpoints (key, endpoint) Hin _ _ [] grouped H).
  - intros s s'. now apply (group_endpoint_enters key endpoint tags).
  - intros y s s' _. apply group_endpoint_keeps.
Qed.

Lemma group_by_tags_complete_witness :
  exists grouped,
    Main.group_by_tags two_tags = Ok grouped /\
    grouped_under grouped (JStr "b") "POST /a"
      (extracted_record "Другое" "/a" "post"
         (JObj [("tags", JArr [JStr "a"; JStr "b"])])).
Proof.
  eexists. split; [reflexivity |].
  apply (group_by_tags_complete two_tags _ "POST /a" _ [JStr "a"; JStr "b"]);
    [reflexivity | simpl; auto | reflexivity | simpl; auto].
Defined.

(* ================================================================== *)
(** * Security information *)
(* ================================================================== *)

Lemma extend_schemes_all (requirements : list (list (string * Json)))
    (schemes : list string) :
  for_each (map JObj requirements) extend_schemes schemes =
  Ok (schemes ++ scheme_names requirements).
Proof.
  revert schemes. induction requirements as [| r rest IH]; intros schemes; simpl.
  - now rewrite app_nil_r.
  - rewrite IH. unfold scheme_names. simpl. now rewrite app_assoc.
Qed.

(** X16.  For an operation and a document that are mappings,
    [get_security_info] goes by the operation's own [security] when it
    has the key and by the document's otherwise.  An empty list there
    gives [No authentication required], so an operation that declares
    [security: []] overrides a document default; a non-empty list of
    requirement objects gives their scheme names in order, joined by a
    comma and a space, or [No authentication] when they name none. *)
Theorem security_info_in_force (okvs skvs : list (string * Json)) :
  (py_truthy (effective_security okvs skvs) = false ->
     get_security_info (JObj okvs) (JObj skvs) = Ok NO_AUTH_REQUIRED) /\
  (lookup okvs "security" = Some (JArr []) ->
     get_security_info (JObj okvs) (JObj skvs) = Ok NO_AUTH_REQUIRED) /\
  (forall r requirements,
     effective_security okvs skvs = JArr (map JObj (r :: requirements)) ->
     get_security_info (JObj okvs) (JObj skvs) =
       Ok (match scheme_names (r :: requirements) with
           | [] => NO_AUTH
           | names => str_join ", " names
           end)).
Proof.
  assert (Hrun : get_security_info (JObj okvs) (JObj skvs) =
            (if negb (py_truthy (effective_security okvs skvs))
             then Ok NO_AUTH_REQUIRED
             else requirements <- py_iter (effective_security okvs skvs) ;;
                  schemes <- for_each requirements extend_schemes [] ;;
                  Ok (match schemes with
                      | [] => NO_AUTH
                      | _ => str_join ", " schemes
                      end))).
  { unfold get_security_info, effective_security. simpl.
    destruct (lookup okvs "security"); reflexivity. }
  split; [| split].
  - intros Hf. rewrite Hrun, Hf. reflexivity.
  - intros Hs. rewrite Hrun. unfold effective_security. rewrite Hs. reflexivity.
  - intros r requirements He. rewrite Hrun, He.
    cbn [py_truthy map negb py_iter bind].
    rewrite <- (map_cons JObj r requirements), extend_schemes_all. simpl.
    destruct (scheme_names (r :: requirements)); reflexivity.
Qed.

Lemma security_info_in_force_witness :
  get_security_info (JObj [("security", JArr [])]) (JObj secured_doc) =
    Ok "No authentication required" /\
  get_security_info (JObj []) (JObj secured_doc) = Ok "apiKey".
Proof.
  destruct (security_info_in_force [("security", JArr [])] secured_doc)
    as [_ [Hempty _]].
  destruct (security_info_in_force [] secured_doc) as [_ [_ Hnames]].
  split; [apply Hempty; reflexivity |].
  apply (Hnames [("apiKey", JArr [])] []). reflexivity.
Defined.

(* ================================================================== *)
(** * File names *)
(* ================================================================== *)

Lemma keep_safe_safe (s : string) : all_bytes safe_byte (keep_safe s) = true.
Proof.
  induction s as [| c s IH]; simpl; [reflexivity |].
  destruct (safe_byte c) eqn:E; simpl; [rewrite E |]; assumption.
Qed.

Lemma take_bytes_safe (n : nat) (s : string) :
  all_bytes safe_byte s = true -> all_bytes safe_byte (take_bytes n s) = true.
Proof.
  revert s. induction n as [| n IH]; intros s H; [reflexivity |].
  destruct s as [| c s]; simpl in *; [reflexivity |].
  apply andb_prop in H. destruct H as [Hc Hs]. rewrite Hc. now apply IH.
Qed.

Lemma take_bytes_length (n : nat) (s : string) :
  String.length (take_bytes n s) <= n.
Proof.
  revert s. induction n as [| n IH]; intros s; [simpl; lia |].
  destruct s as [| c s]; simpl; [lia |]. specialize (IH s). lia.
Qed.

Lemma sanitize_filename_parts (lower : string -> string) (text : string) :
  all_bytes safe_byte (sanitize_filename lower text) = true /\
  String.length (sanitize_filename lower text) <= 100.
Proof.
  unfold sanitize_filename. split.
  - apply take_bytes_safe, keep_safe_safe.
  - apply take_bytes_length.
Qed.


Lemma replace_unsafe (a b : ascii) (s : string) :
  safe_byte a = false -> all_bytes safe_byte s = true -> replace_byte a b s = s.
Proof.
  intros Ha. induction s as [| c s IH]; simpl; [reflexivity |].
  intros H. apply andb_prop in H. destruct H as [Hc Hs].
  rewrite (IH Hs). destruct (Ascii.eqb c a) eqn:E; [| reflexivity].
  apply Ascii.eqb_eq in E. congruence.
Qed.

Lemma keep_safe_id (s : string) : all_bytes safe_byte s = true -> keep_safe s = s.
Proof.
  induction s as [| c s IH]; simpl; [reflexivity |].
  intros H. apply andb_prop in H. destruct H as [Hc Hs].
  rewrite Hc, (IH Hs). reflexivity.
Qed.

Lemma take_bytes_id (n : nat) (s : string) :
  String.length s <= n -> take_bytes n s = s.
Proof.
  revert s. induction n as [| n IH]; intros s H.
  - destruct s; [reflexivity | simpl in H; lia].
  - destruct s as [| c s]; simpl in *; [reflexivity |]. rewrite IH; [reflexivity | lia].
Qed.

(** X18.  Sanitizing is idempotent: a file name that lowering leaves as
    it is, as Python's does for one made of lower-case letters, digits
    and underscores, is sanitized to itself. *)
Theorem sanitize_filename_idempotent (lower : string -> string) (text : string) :
  lower (sanitize_filename lower text) = sanitize_filename lower text ->
  sanitize_filename lower (sanitize_filename lower text) =
  sanitize_filename lower text.
Proof.
  intros Hlow. destruct (sanitize_filename_parts lower text) as [Hsafe Hlen].
  unfold sanitize_filename at 1. unfold underscored. rewrite Hlow.
  rewrite (replace_unsafe " " "_") by (reflexivity || assumption).
  rewrite (replace_unsafe "/" "_") by (reflexivity || assumption).
  rewrite (replace_unsafe "-" "_") by (reflexivity || assumption).
  rewrite keep_safe_id by assumption. now apply take_bytes_id.
Qed.

Lemma sanitize_filename_idempotent_witness :
  sanitize_filename ascii_lower "/Pets/{petId}-Photo v2" = "_pets_petid_photo_v2" /\
  sanitize_filename ascii_lower "_pets_petid_photo_v2" = "_pets_petid_photo_v2".
Proof.
  split; [reflexivity |].
  apply (sanitize_filename_idempotent ascii_lower "/Pets/{petId}-Photo v2").
  reflexivity.
Defined.

(* ================================================================== *)
(** * Tag counts bound tag queries *)
(* ================================================================== *)

Lemma count_tag_mono (t : Json) (tc tc' : list (Json * nat)) (k : Json) :
  count_tag t tc = Ok tc' ->
  dict_get_default key_eqb tc k 0 <= dict_get_default key_eqb tc' k 0.
Proof.
  unfold count_tag. destruct (hashable t); [| discriminate].
  intros H. inversion H; subst; clear H.
  set (d' := dict_set key_eqb tc t (dict_get_default key_eqb tc t 0 + 1)).
  change (match dict_get key_eqb tc k with Some v => v | None => 0 end <=
          match dict_get key_eqb d' k with Some v => v | None => 0 end).
  destruct (dict_get key_eqb tc k) as [n |] eqn:E; [| lia].
  destruct (count_keeps_bucket key_eqb tc t k n E) as [n' [Hn' Hle]].
  fold d' in Hn'. rewrite Hn'. exact Hle.
Qed.

Lemma count_tags_mono (l : list Json) (tc tc' : list (Json * nat)) (k : Json) :
  for_each l count_tag tc = Ok tc' ->
  dict_get_default key_eqb tc k 0 <= dict_get_default key_eqb tc' k 0.
Proof.
  revert tc. induction l as [| t l IH]; intros tc H; simpl in H.
  - inversion H; subst. lia.
  - bind_inv H. pose proof (count_tag_mono t tc v k E). specialize (IH _ H). lia.
Qed.

Lemma count_tags_hit (tag : string) (l : list Json) (tc tc' : list (Json * nat)) :
  existsb (fun x => match x with JStr s => String.eqb s tag | _ => false end) l
    = true ->
  for_each l count_tag tc = Ok tc' ->
  tag_count_of tc tag + 1 <= tag_count_of tc' tag.
Proof.
  unfold tag_count_of.
  revert tc. induction l as [| t l IH]; intros tc Hin H; simpl in *;
    [discriminate |].
  bind_inv H.
  destruct (match t with JStr s => String.eqb s tag | _ => false end) eqn:Et.
  - destruct t as [| | | s | |]; try discriminate.
    apply String.eqb_eq in Et. subst s.
    pose proof (count_tags_mono l v tc' (JStr tag) H) as Hrest.
    unfold count_tag in E. simpl in E. inversion E; subst; clear E.
    set (n := dict_get_default key_eqb tc (JStr tag) 0) in *.
    assert (Hset : dict_get_default key_eqb
                     (dict_set key_eqb tc (JStr tag) (n + 1)) (JStr tag) 0 = n + 1).
    { unfold dict_get_default.
      rewrite dict_get_set_same; [reflexivity | simpl; apply String.eqb_refl]. }
    rewrite Hset in Hrest. exact Hrest.
  - simpl in Hin. pose proof (count_tag_mono t tc v (JStr tag) E).
    specialize (IH _ Hin H). lia.
Qed.

Lemma tagged_method_rel (tag path : string) (path_item : Json) (m : string)
    (found : list TagEndpoint) (c : Counters) (found' : list TagEndpoint)
    (c' : Counters) :
  path_item_shape path_item = true -> In m METHODS ->
  within_count tag found c ->
  find_method tag path path_item m found = Ok found' ->
  stats_method path_item m c = Ok c' ->
  within_count tag found' c'.
Proof.
  intros Hshape Hm HR Hf Hs.
  destruct path_item as [| | | | | kvs]; try discriminate.
  unfold path_item_shape in Hshape. rewrite forallb_forall in Hshape.
  specialize (Hshape _ Hm).
  unfold within_count, find_method, stats_method in *. simpl in *.
  destruct (dict_has String.eqb kvs m) eqn:Hhas.
  - destruct (dict_has_lookup _ _ Hhas) as [op Hop]. rewrite Hop in *. simpl in *.
    destruct op as [| | | | | okvs]; try discriminate. simpl in *.
    unfold tags_shape in Hshape.
    destruct (lookup okvs "tags") as [tags |]; simpl in *.
    + destruct tags as [| | | | l |]; try discriminate. simpl in *.
      bind_inv Hs. inversion Hs; subst; clear Hs. simpl.
      destruct (existsb _ l) eqn:Ein; simpl in Hf; inversion Hf; subst; clear Hf.
      * rewrite length_app. simpl.
        pose proof (count_tags_hit tag l _ _ Ein E). lia.
      * pose proof (count_tags_mono l _ _ (JStr tag) E).
        unfold tag_count_of in *. lia.
    + inversion Hf; subst; clear Hf. inversion Hs; subst; clear Hs. simpl.
      pose proof (count_tag_mono (JStr "untagged") (tags_count c) _ (JStr tag)
                    eq_refl) as Hmono.
      unfold tag_count_of in *. simpl in Hmono. lia.
  - inversion Hf; inversion Hs; subst. exact HR.
Qed.

(** X19.  On a document of the expected shape, for every tag, the
    endpoints [find_endpoints_by_tag] finds are no more than the count
    [get_statistics] gives the tag (zero when the tag has no entry): the
    count also has the repeats of a tag within one operation. *)
Theorem tag_count_bounds_query (spec : Json) (tag : string) :
  document_shape spec = true ->
  exists st found,
    get_statistics spec = Ok st /\
    find_endpoints_by_tag spec tag = Ok found /\
    length found <= tag_count_of (stat_tags st) tag.
Proof.
  intros Hshape.
  destruct (statistics_total spec Hshape) as [st Hst].
  destruct (find_by_tag_total spec tag Hshape) as [found Hfound].
  exists st, found. split; [exact Hst |]. split; [exact Hfound |].
  destruct spec as [| | | | | kvs]; try discriminate.
  simpl in Hshape. apply andb_prop in Hshape. destruct Hshape as [Hshape _].
  apply andb_prop in Hshape. destruct Hshape as [Hpaths _].
  unfold get_statistics in Hst. unfold find_endpoints_by_tag in Hfound.
  simpl in Hst, Hfound. unfold paths_shape in Hpaths.
  destruct (lookup kvs "paths") as [paths |]; simpl in *.
  - destruct paths as [| | | | | items]; try discriminate. simpl in *.
    bind_inv Hst. rewrite forallb_forall in Hpaths.
    assert (HR : within_count tag found v).
    { apply (for_each_rel (within_count tag) (find_path tag) stats_path items)
        with (s := @nil TagEndpoint)
             (t := {| endpoints_count := 0; methods_count := []; tags_count := [] |});
        auto.
      - intros it a b a' b' Hit Hab Ha Hb. unfold find_path in Ha.
        unfold stats_path in Hb.
        apply (for_each_rel (within_count tag)
                 (find_method tag (fst it) (snd it)) (stats_method (snd it)) METHODS)
          with (s := a) (t := b); auto.
        intros m x y x' y' Hm. apply tagged_method_rel; auto.
      - unfold within_count. simpl. lia. }
    repeat bind_inv Hst. inversion Hst; subst; clear Hst. exact HR.
  - inversion Hfound; subst. simpl. lia.
Qed.

Lemma tag_count_bounds_query_witness :
  exists st found,
    get_statistics tagged_doc = Ok st /\
    find_endpoints_by_tag tagged_doc "a" = Ok found /\
    length found = 2 /\ tag_count_of (stat_tags st) "a" = 3 /\
    length found <= tag_count_of (stat_tags st) "a".
Proof.
  destruct (tag_count_bounds_query tagged_doc "a" eq_refl)
    as [st [found [Hst [Hf Hle]]]].
  exists st, found. split; [exact Hst |]. split; [exact Hf |].
  assert (Hs : exists c, get_statistics tagged_doc = Ok c /\
                         tag_count_of (stat_tags c) "a" = 3)
    by (eexists; split; reflexivity).
  assert (Hq : exists l, find_endpoints_by_tag tagged_doc "a" = Ok l /\ length l = 2)
    by (eexists; split; reflexivity).
  destruct Hs as [c [Hc Hc3]]. destruct Hq as [l [Hl Hl2]].
  rewrite Hst in Hc. inversion Hc; subst c.
  rewrite Hf in Hl. inversion Hl; subst l. auto.
Defined.

(* ================================================================== *)
(** * The pairs of the listing are distinct *)
(* ================================================================== *)

Lemma NoDup_snoc {A : Type} (l : list A) (x : A) :
  NoDup l -> ~ In x l -> NoDup (l ++ [x]).
Proof.
  induction l as [| y l IH]; intros Hnd Hx; simpl.
  - repeat constructor. intros [].
  - inversion Hnd as [| ? ? Hy Hl]; subst. constructor.
    + intros Hin. apply in_app_or in Hin. destruct Hin as [Hin | [-> | []]].
      * contradiction.
      * apply Hx. now left.
    + apply IH; auto. intros Hin. apply Hx. now right.
Qed.

Lemma list_method_short (path : string) (path_item : Json) (m : string)
    (new : list Endpoint) :
  list_method path path_item m [] = Ok new ->
  new = [] \/ exists e, new = [e].
Proof.
  unfold list_method. intros H.
  destruct (py_in m path_item) as [[|] | e]; simpl in H; try discriminate.
  - repeat bind_inv H. inversion H; subst. right. eauto.
  - inversion H; subst. now left.
Qed.

Lemma list_methods_unique (path : string) (path_item : Json)
    (processed : list string) :
  ~ In path processed ->
  forall (ms done : list string) (endpoints endpoints' : list Endpoint),
    NoDup ms ->
    (forall m, In m ms -> In m METHODS /\ ~ In m done) ->
    NoDup (map sort_key endpoints) ->
    listed_from processed path done endpoints ->
    for_each ms (list_method path path_item) endpoints = Ok endpoints' ->
    NoDup (map sort_key endpoints') /\
    listed_from processed path (done ++ ms) endpoints'.
Proof.
  intros Hpath. induction ms as [| x ms IH];
    intros done eps eps' Hnd Hms Hkeys Hfrom H.
  - simpl in H. inversion H; subst. rewrite app_nil_r. auto.
  - simpl in H. bind_inv H. inversion Hnd as [| ? ? Hx Hnd']; subst.
    destruct (Hms x (or_introl eq_refl)) as [HxM Hxdone].
    destruct (list_method_appends _ _ _ _ _ E) as [new [Hnew [-> Hall]]].
    assert (Hstep : NoDup (map sort_key (eps ++ new)) /\
                    listed_from processed path (done ++ [x]) (eps ++ new)).
    { split.
      - destruct (list_method_short _ _ _ _ Hnew) as [-> | [e ->]].
        + now rewrite app_nil_r.
        + rewrite map_app. simpl. apply NoDup_snoc; [exact Hkeys |].
          inversion Hall as [| ? ? Hhead _]; subst. destruct Hhead as [He Hp].
          intros Hin. apply in_map_iff in Hin. destruct Hin as [e0 [Hk Hin0]].
          destruct (Hfrom e0 Hin0) as [m0 [Hm0 [Hmeth Hwhere]]].
          unfold sort_key in Hk. injection Hk as Hkp Hkm.
          destruct Hwhere as [Hproc | [_ Hdone]].
          * rewrite Hkp, Hp in Hproc. contradiction.
          * rewrite Hmeth, He in Hkm.
            apply upper_inj_methods in Hkm; auto. subst m0. contradiction.
      - intros e Hin. apply in_app_or in Hin. destruct Hin as [Hin | Hin].
        + destruct (Hfrom e Hin) as [m0 [Hm0 [Hmeth Hwhere]]].
          exists m0. repeat split; auto.
          destruct Hwhere as [Hproc | [Hp Hdone]]; auto.
          right. split; auto. apply in_or_app. auto.
        + rewrite Forall_forall in Hall. destruct (Hall e Hin) as [He Hp].
          exists x. repeat split; auto. right. split; auto.
          apply in_or_app. right. now left. }
    destruct Hstep as [Hkeys1 Hfrom1].
    destruct (IH (done ++ [x]) (eps ++ new) eps' Hnd') as [Hk' Hf']; auto.
    + intros m' Hm'. split; [apply Hms; now right |].
      intros Hin. apply in_app_or in Hin. destruct Hin as [Hin | [<- | []]].
      * destruct (Hms m' (or_intror Hm')) as [_ Hnot]. contradiction.
      * contradiction.
    + split; [exact Hk' |]. rewrite <- app_assoc in Hf'. exact Hf'.
Qed.

Lemma list_paths_unique (items : list (string * Json)) :
  forall (processed : list string) (endpoints endpoints' : list Endpoint),
    nodup_keys (map fst items) = true ->
    (forall p, In p (map fst items) -> ~ In p processed) ->
    NoDup (map sort_key endpoints) ->
    listed_from processed "" [] endpoints ->
    for_each items list_path endpoints = Ok endpoints' ->
    NoDup (map sort_key endpoints').
Proof.
  induction items as [| [p pi] rest IH];
    intros processed eps eps' Hnd Hnew Hkeys Hfrom H.
  - simpl in H. inversion H; subst. exact Hkeys.
  - cbn [for_each] in H. bind_inv H. simpl in Hnd. apply andb_prop in Hnd.
    destruct Hnd as [Hfresh Hnd]. apply negb_true_iff in Hfresh.
    unfold list_path in E; simpl in E.
    destruct (list_methods_unique p pi processed (Hnew p (or_introl eq_refl))
                METHODS [] eps v METHODS_NoDup) as [Hkeys1 Hfrom1]; auto.
    { intros e He. destruct (Hfrom e He) as [m [Hm [Hmeth Hwhere]]].
      exists m. repeat split; auto. destruct Hwhere as [Hp | [_ []]]. auto. }
    apply (IH (p :: processed) v eps' Hnd); auto.
    + intros q Hq [<- | Hin].
      * apply (fresh_not_In _ _ Hfresh). exact Hq.
      * apply (Hnew q); [now right | exact Hin].
    + intros e He. destruct (Hfrom1 e He) as [m [Hm [Hmeth Hwhere]]].
      exists m. repeat split; auto. left.
      destruct Hwhere as [Hp | [-> _]]; [now right | now left].
Qed.

Lemma strictly_sorted (l : list Endpoint) :
  StronglySorted endpoint_le l -> NoDup (map sort_key l) ->
  StronglySorted endpoint_lt l.
Proof.
  induction 1 as [| a l Hl IH Ha]; intros Hnd; [constructor |].
  simpl in Hnd. inversion Hnd as [| ? ? Hnot Hnd']; subst.
  constructor; [auto |].
  rewrite Forall_forall in *. intros b Hb.
  destruct (Ha b Hb) as [Heq | Hlt]; [| exact Hlt].
  exfalso. apply Hnot. rewrite Heq. now apply in_map.
Qed.

(** X20.  In a document with distinct keys no two endpoints of
    [list_all_endpoints] have the same (path, method) pair, so the
    listing is in strictly ascending order of that pair. *)
Theorem listing_pairs_unique (spec : Json) (endpoints : list Endpoint) :
  wf_json spec = true ->
  list_all_endpoints spec = Ok endpoints ->
  NoDup (map sort_key endpoints) /\
  StronglySorted endpoint_lt endpoints.
Proof.
  intros Hwf H. unfold list_all_endpoints in H. bind_inv H.
  inversion H; subst; clear H.
  assert (Hnd : NoDup (map sort_key v)).
  { unfold collect_endpoints in E.
    destruct spec as [| | | | | kvs]; try discriminate. simpl in E.
    destruct (lookup kvs "paths") as [paths |] eqn:Hp; simpl in E.
    - destruct paths as [| | | | | items]; try discriminate. simpl in E.
      destruct (wf_paths kvs items Hwf Hp) as [Hkeys _].
      apply (list_paths_unique items [] [] v Hkeys); auto.
      + constructor.
      + intros e [].
    - inversion E; subst. constructor. }
  assert (Hsorted : NoDup (map sort_key (sorted v))).
  { apply (Permutation_NoDup (Permutation_map sort_key (sorted_perm v))).
    exact Hnd. }
  split; [exact Hsorted |].
  apply strictly_sorted; [apply sorted_ordered | exact Hsorted].
Qed.

Lemma listing_pairs_unique_witness :
  exists endpoints,
    list_all_endpoints pets_doc = Ok endpoints /\
    map sort_key endpoints = [("/pets", "GET"); ("/pets", "POST")] /\
    NoDup (map sort_key endpoints) /\
    StronglySorted endpoint_lt endpoints.
Proof.
  eexists. split; [reflexivity |]. split; [reflexivity |].
  apply (listing_pairs_unique pets_doc); reflexivity.
Defined.

(* ================================================================== *)
(** * Items and their operations *)
(* ================================================================== *)

Lemma query_literal {A : Type} (s : string) (a b : A) :
  String.eqb s "query" = false ->
  match s with "query" => a | _ => b end = b.
Proof.
  intros H.
  destruct (string_dec s "query") as [-> | Hne]; [discriminate |].
  clear H.
  repeat (destruct s as [| [[|] [|] [|] [|] [|] [|] [|] [|]] s];
          try reflexivity).
  congruence.
Qed.

Lemma query_param_step (p : Json) (acc acc' : list QueryParam) :
  query_param p acc = Ok acc' ->
  acc' = acc ++ map to_query (filter in_query [p]).
Proof.
  unfold query_param. intros H.
  destruct p as [| | | | | kvs]; simpl in H; try discriminate.
  simpl. destruct (lookup kvs "in") as [loc |]; simpl in H.
  - destruct loc as [| | | s | |]; try (inversion H; subst; now rewrite app_nil_r).
    destruct (String.eqb s "query") eqn:Es.
    + apply String.eqb_eq in Es. subst s. simpl in H.
      destruct (lookup kvs "name") as [n |] eqn:En; simpl in H; [| discriminate].
      inversion H; subst. simpl. rewrite En. reflexivity.
    + rewrite (query_literal s _ (Ok acc) Es) in H.
      inversion H; subst. now rewrite app_nil_r.
  - inversion H; subst. now rewrite app_nil_r.
Qed.

Lemma query_params_all (ps : list Json) (acc acc' : list QueryParam) :
  for_each ps query_param acc = Ok acc' ->
  acc' = acc ++ map to_query (filter in_query ps).
Proof.
  revert acc. induction ps as [| p ps IH]; intros acc H; simpl in H.
  - inversion H; subst. simpl. now rewrite app_nil_r.
  - bind_inv H. rewrite (IH _ H), (query_param_step _ _ _ E).
    simpl. destruct (in_query p); simpl; rewrite <- app_assoc; reflexivity.
Qed.

Lemma chars_not_nil (c : ascii) (s : string) : chars (String c s) <> [].
Proof.
  unfold chars. simpl. destruct (chars_aux s) as [k l].
  destruct (is_cont c); discriminate.
Qed.

Lemma query_of_operation (okvs : list (string * Json))
    (query : option (list QueryParam)) :
  (if py_truthy (match lookup okvs "parameters" with
                 | Some v => v
                 | None => JNull
                 end)
   then parameters' <- py_getitem (JObj okvs) "parameters" ;;
        ps <- py_iter parameters' ;;
        q <- for_each ps query_param [] ;; Ok (Some q)
   else Ok None) = Ok query ->
  query = query_for okvs.
Proof.
  unfold query_for. simpl.
  destruct (lookup okvs "parameters") as [ps |]; simpl;
    [| intros H; now inversion H].
  destruct ps as [| [|] | n | s | l | kvs]; simpl;
    try (intros H; inversion H; reflexivity); try discriminate.
  - destruct (Z.eqb n 0); simpl; [intros H; now inversion H | discriminate].
  - destruct s as [| c s]; simpl; [intros H; now inversion H |].
    pose proof (chars_not_nil c s) as Hne.
    destruct (chars (String c s)) as [| x xs]; [congruence |]. discriminate.
  - destruct l as [| p l]; [intros H; now inversion H |].
    intros H. bind_inv H. inversion H; subst.
    now rewrite (query_params_all _ _ _ E).
  - destruct kvs as [| [k x] kvs]; [intros H; now inversion H | discriminate].
Qed.

Lemma postman_method_item (path_items : list (string * Json)) (path : string)
    (path_item : Json) (m : string) (items items' : list PostmanItem) :
  In (path, path_item) path_items -> In m POSTMAN_METHODS ->
  Forall (item_of_operation path_items) items ->
  postman_method path path_item m items = Ok items' ->
  Forall (item_of_operation path_items) items'.
Proof.
  intros Hitem Hm Hall H. unfold postman_method in H.
  destruct path_item as [| | | s | l | pkvs]; simpl in H; try discriminate.
  - destruct (is_substring m s); simpl in H; [discriminate |].
    inversion H; subst; exact Hall.
  - destruct (existsb _ l); simpl in H; [discriminate |].
    inversion H; subst; exact Hall.
  - unfold dict_has in H. fold (lookup pkvs m) in H.
    destruct (lookup pkvs m) as [op |] eqn:Hop; simpl in H;
      [| inversion H; subst; exact Hall].
    destruct op as [| | | | | okvs]; simpl in H; try discriminate.
    bind_inv H. inversion H; subst; clear H.
    apply Forall_app. split; [exact Hall |]. constructor; [| constructor].
    exists path, pkvs, m, okvs. cbn [pi_method pi_raw pi_name pi_query].
    repeat split; auto.
    now apply query_of_operation.
Qed.

(** X21.  Every item of a generated collection is the request of an
    operation that a path item declares under one of the five methods:
    its method is that method in upper case, its raw url the variable
    followed by the path, its name the operation's summary or else
    [METHOD path]; it has a query only when the operation has a non-empty
    list of parameters, and the query then lists the parameters located
    in the query, in order, each with its name, an empty value, and
    disabled unless required. *)
Theorem postman_items_from_operations (spec : Json) (c : Collection) :
  generate_postman_collection spec = Ok c ->
  exists paths path_items,
    py_get spec "paths" (JObj []) = Ok paths /\
    py_items paths = Ok path_items /\
    Forall (item_of_operation path_items) (col_item c).
Proof.
  intros Hc. destruct (postman_items_of spec c Hc) as [paths [its [Hp [Hi Hitems]]]].
  exists paths, its. split; [exact Hp |]. split; [exact Hi |].
  apply (for_each_inv (Forall (item_of_operation its)) postman_path its)
    with (s := @nil PostmanItem); auto.
  intros [path pi] s s' Hin Hs Hstep. unfold postman_path in Hstep.
  apply (for_each_inv (Forall (item_of_operation its))
           (postman_method path pi) POSTMAN_METHODS) with (s := s); auto.
  intros m a b Hm. now apply postman_method_item.
Qed.

Lemma postman_items_from_operations_witness :
  exists c,
    generate_postman_collection search_doc = Ok c /\
    map pi_name (col_item c) = [JStr "Search"] /\
    map pi_query (col_item c) =
      [Some [{| q_key := JStr "q"; q_value := ""; q_disabled := true |}]] /\
    exists path_items, Forall (item_of_operation path_items) (col_item c).
Proof.
  eexists. split; [reflexivity |]. split; [reflexivity |]. split; [reflexivity |].
  destruct (postman_items_from_operations search_doc _ eq_refl)
    as [paths [its [_ [_ H]]]].
  exists its. exact H.
Defined.

(* ================================================================== *)
(** * Finding by tag is a filter *)
(* ================================================================== *)

Lemma find_method_filter (tag path : string) (path_item : Json) (m : string)
    (found : list TagEndpoint) (endpoints : list Endpoint)
    (found' : list TagEndpoint) (endpoints' : list Endpoint) :
  filtered_by tag found endpoints ->
  find_method tag path path_item m found = Ok found' ->
  list_method path path_item m endpoints = Ok endpoints' ->
  filtered_by tag found' endpoints'.
Proof.
  unfold filtered_by, find_method, list_method. intros HR Hf Hl.
  destruct (py_in m path_item) as [[|] | e]; simpl in *; try discriminate.
  - destruct (py_getitem path_item m) as [operation | e]; simpl in *;
      try discriminate.
    destruct operation as [| | | | | okvs]; simpl in *; try discriminate.
    inversion Hl; subst; clear Hl. rewrite filter_app, map_app. simpl.
    unfold tagged at 2. simpl.
    destruct (py_in tag _) as [[|] | e]; simpl in *; try discriminate;
      inversion Hf; subst; clear Hf.
    + rewrite map_app, HR. reflexivity.
    + rewrite app_nil_r. exact HR.
  - inversion Hf; inversion Hl; subst. exact HR.
Qed.

(** X22.  Finding by tag is a filter of the listing: whenever
    [find_endpoints_by_tag] returns and the endpoints of the document can
    be collected, the endpoints found are, in document order, the
    collected ones whose tags contain the tag, with the same method, path
    and summary. *)
Theorem find_by_tag_filters_listing (spec : Json) (tag : string)
    (found : list TagEndpoint) (collected : list Endpoint) :
  find_endpoints_by_tag spec tag = Ok found ->
  collect_endpoints spec = Ok collected ->
  map tag_fields found =
  map endpoint_fields (filter (tagged tag) collected).
Proof.
  unfold find_endpoints_by_tag, collect_endpoints. intros Hf Hl.
  destruct (py_get spec "paths" (JObj [])) as [paths | e]; simpl in *;
    try discriminate.
  destruct (py_items paths) as [items | e]; simpl in *; try discriminate.
  apply (for_each_rel (filtered_by tag) (find_path tag) list_path items)
    with (s := @nil TagEndpoint) (t := @nil Endpoint); auto.
  - intros it a b a' b' _ Hab Ha Hb. unfold find_path in Ha. unfold list_path in Hb.
    apply (for_each_rel (filtered_by tag)
             (find_method tag (fst it) (snd it))
             (list_method (fst it) (snd it)) METHODS) with (s := a) (t := b); auto.
    intros m x y x' y' _. apply find_method_filter.
  - reflexivity.
Qed.

Lemma find_by_tag_filters_listing_witness :
  exists found collected,
    find_endpoints_by_tag tagged_doc "b" = Ok found /\
    collect_endpoints tagged_doc = Ok collected /\
    length collected = 3 /\
    map tag_fields found = [("POST", "/a", JStr "")].
Proof.
  eexists. eexists. split; [reflexivity |]. split; [reflexivity |].
  split; [reflexivity |].
  rewrite (find_by_tag_filters_listing tagged_doc "b" _ _ eq_refl eq_refl).
  reflexivity.
Defined.

(* ================================================================== *)
(** * Schemas and their pointers *)
(* ================================================================== *)

(** X23.  Every schema of [get_all_schemas] is what its pointer resolves
    to: when the schemas are a mapping that holds [schema] under [name],
    a name without a slash, [#/components/schemas/name] resolves to
    [schema]. *)
Theorem schema_pointer_resolves (spec : Json) (schemas : list (string * Json))
    (name : string) (schema : Json) :
  get_all_schemas spec = Ok (JObj schemas) ->
  lookup schemas name = Some schema ->
  no_slash name = true ->
  resolve_schema_reference spec
    (JStr (pointer_to ["components"; "schemas"; name])) = Ok schema.
Proof.
  intros Hall Hname Hns.
  rewrite resolve_pointer; [| discriminate | simpl; now rewrite Hns].
  unfold get_all_schemas in Hall.
  destruct spec as [| | | | | kvs]; try discriminate. simpl in *.
  destruct (lookup kvs "components") as [components |]; simpl in Hall.
  - destruct components as [| | | | | ckvs]; try discriminate. simpl in *.
    destruct (lookup ckvs "schemas") as [s |]; inversion Hall; subst.
    + now rewrite Hname.
    + discriminate.
  - inversion Hall; subst. discriminate.
Qed.

Lemma schema_pointer_resolves_witness :
  get_all_schemas inline_doc = Ok (JObj [("Pet", inline_schema)]) /\
  resolve_schema_reference inline_doc (JStr "#/components/schemas/Pet") =
    Ok inline_schema.
Proof.
  split; [reflexivity |].
  apply (schema_pointer_resolves inline_doc [("Pet", inline_schema)] "Pet");
    reflexivity.
Defined.

(* ================================================================== *)
(** * An export that stops *)
(* ================================================================== *)

Lemma write_rows_stops (endpoints : list Endpoint) (written rows : list Row)
    (e : exn) :
  write_rows endpoints written = (rows, Raise e) ->
  exists before bad after new,
    endpoints = before ++ bad :: after /\
    rows = written ++ new /\
    Forall2 row_of before new /\
    py_join ", " (ep_tags bad) = Raise e.
Proof.
  revert written. induction endpoints as [| ep rest IH]; intros written H;
    simpl in H; [discriminate |].
  destruct (py_join ", " (ep_tags ep)) as [tags | e0] eqn:Ej.
  - destruct (IH _ H) as [before [bad [after [new [-> [-> [Hrows Hbad]]]]]]].
    exists (ep :: before), bad, after, (csv_row ep tags :: new).
    rewrite <- app_assoc. repeat split; auto.
    constructor; [| exact Hrows]. exists tags. auto.
  - inversion H; subst. exists [], ep, rest, [].
    rewrite app_nil_r. repeat split; auto.
Qed.

(** X24.  When the export stops on an endpoint whose tags cannot be
    joined, the file is left with the header and the rows of the
    endpoints listed before that one, and nothing of those after it; the
    exception is the one the join raised. *)
Theorem csv_export_stops (spec : Json) (endpoints : list Endpoint)
    (rows : list Row) (e : exn) :
  list_all_endpoints spec = Ok endpoints ->
  export_endpoints_csv spec = (Some rows, Raise e) ->
  exists before bad after written,
    endpoints = before ++ bad :: after /\
    rows = header_row :: written /\
    Forall2 row_of before written /\
    py_join ", " (ep_tags bad) = Raise e.
Proof.
  intros Hl H. unfold export_endpoints_csv in H. rewrite Hl in H.
  destruct (write_rows endpoints [header_row]) as [out r] eqn:Ew.
  inversion H; subst; clear H.
  destruct (write_rows_stops _ _ _ _ Ew) as [before [bad [after [new Hs]]]].
  exists before, bad, after, new. simpl in Hs. exact Hs.
Qed.

Lemma csv_export_stops_witness :
  export_endpoints_csv bad_tags_doc =
    (Some [header_row;
           [JStr "GET"; JStr "/a"; JStr ""; JStr "a"; JBool false]],
     Raise TypeError) /\
  exists before bad after,
    list_all_endpoints bad_tags_doc = Ok (before ++ bad :: after) /\
    length before = 1 /\ length after = 1.
Proof.
  split; [reflexivity |].
  destruct (csv_export_stops bad_tags_doc _ _ TypeError eq_refl eq_refl)
    as [before [bad [after [written [Heps [Hrows [Hall Hbad]]]]]]].
  exists before, bad, after.
  injection Hrows as Hw. subst written.
  assert (Hlen : length before = 1).
  { apply Forall2_length in Hall. exact Hall. }
  split; [| split; [exact Hlen |]].
  - rewrite <- Heps. reflexivity.
  - apply (f_equal (@length Endpoint)) in Heps. rewrite length_app in Heps.
    simpl in Heps. lia.
Defined.
